(** * Track prediction callback of [predict_kf_abstract.py]

    A shallow embedding of [PredictKfAbstract.tracked_boxes_cb]
    (track_people_py/track_people_py/predict_kf_abstract.py) and the
    properties of its per-track bookkeeping: the position queues, the
    frame-rate window, the Kalman filters, the missing-track life cycle and
    the arguments handed to [pub_result].

    Conventions.
    - Python dictionaries keyed by track id are [gmap Z _]; Python sets of
      ids are [gset Z]; [alive_track_id_list] is a [list Z] (it may hold an
      id more than once).
    - [rclpy.time.Time] is its nanosecond count, a [Z].
    - Python floats are modelled by exact rationals kept in lowest terms.
    - A raised exception ends the callback: the embedding returns [Err]. *)

From Stdlib Require Import ZArith QArith.
From stdpp Require Import base gmap sets list strings.

Open Scope Z_scope.

(** ** Exceptions *)

Inductive exn := KeyError | IndexError | ZeroDivisionError.

Inductive res (A : Type) := Ok (a : A) | Err (e : exn).
Arguments Ok {A} a.
Arguments Err {A} e.

Definition rbind {A B} (m : res A) (k : A → res B) : res B :=
  match m with Ok a => k a | Err e => Err e end.

#[global] Instance res_bind : MBind res := λ A B k m, rbind m k.
#[global] Instance res_ret : MRet res := λ A a, Ok a.

(** [for a in l: s = f a s], stopping at the first exception. *)
Fixpoint foldM {A S} (f : A → S → res S) (l : list A) (s : S) : res S :=
  match l with
  | [] => Ok s
  | a :: l' => s' ← f a s; foldM f l' s'
  end.

Definition is_ok {A} (r : res A) : bool :=
  match r with Ok _ => true | Err _ => false end.

(** ** Numbers *)

Definition fmul (a b : Q) : Q := Qred (a * b).

(** [a / b] on floats: Python raises on a zero divisor. *)
Definition truediv (a b : Q) : res Q :=
  if Qeq_bool b 0 then Err ZeroDivisionError else Ok (Qred (a / b)).

(** [x > y] *)
Definition Qgtb (x y : Q) : bool := negb (Qle_bool x y).

Abbreviation Time := Z.

(** [(a - b).nanoseconds / 1e9] *)
Definition seconds_between (a b : Time) : Q :=
  Qred (inject_Z (a - b) / inject_Z 1000000000).

(** ** [collections.deque] with [maxlen] *)

Record deque (A : Type) := Deque { maxlen : nat; items : list A }.
Arguments Deque {A} maxlen items.
Arguments maxlen {A} d.
Arguments items {A} d.

Definition new_deque {A} (n : nat) : deque A := Deque n [].

(** [d.append(x)]: the oldest entries fall out once [maxlen] is reached. *)
Definition deque_append {A} (d : deque A) (x : A) : deque A :=
  let l := items d ++ [x] in
  Deque (maxlen d) (drop (length l - maxlen d) l).

(** [d[0]] *)
Definition deque_first {A} (d : deque A) : res A :=
  match items d with [] => Err IndexError | x :: _ => Ok x end.

(** [d[-1]] *)
Definition deque_last {A} (d : deque A) : res A :=
  match last (items d) with None => Err IndexError | Some x => Ok x end.

(** ** Dictionaries *)

(** [d[k]] *)
Definition dict_get {V} (d : gmap Z V) (k : Z) : res V :=
  match d !! k with Some v => Ok v | None => Err KeyError end.

(** [del d[k]] *)
Definition dict_del {V} (d : gmap Z V) (k : Z) : res (gmap Z V) :=
  match d !! k with Some _ => Ok (delete k d) | None => Err KeyError end.

(** [if k in d: del d[k]] *)
Definition dict_discard {V} (d : gmap Z V) (k : Z) : gmap Z V := delete k d.

(** ** Messages *)

Definition vec2 : Type := Q * Q.
Definition vec3 : Type := Q * Q * Q.

Record TrackedBox := {
  class_name : string;
  center3d : vec3;
  track_id : Z;
  color : vec3;
  box_stamp : Time            (* tbox.header.stamp *)
}.

Record TrackedBoxes := {
  stamp : Time;               (* msg.header.stamp *)
  tracked_boxes : list TrackedBox
}.

(** ** The Kalman filter object

    [filterpy.kalman.KalmanFilter] is an external library: its attributes
    are the record's fields, its [predict] and [update] methods are the
    operations of [FilterLib]. *)

Definition matrix := list (list Q).

Record KalmanFilter := {
  kf_x : Q * Q * Q * Q;       (* state (x, vx, y, vy) *)
  kf_P : matrix;
  kf_F : matrix;
  kf_H : matrix;
  kf_R : matrix;
  kf_Q : matrix
}.

Class FilterLib := {
  predict : KalmanFilter → KalmanFilter;
  update : KalmanFilter → vec2 → KalmanFilter
}.

(** [np.eye(n) * c] *)
Definition scaled_eye (n : nat) (c : Q) : matrix :=
  map (λ i, map (λ j, if Nat.eqb i j then c else 0%Q) (seq 0 n)) (seq 0 n).

(** [Q_discrete_white_noise(dim=2, dt=dt, var=var)] *)
Definition Q_discrete_white_noise2 (dt var : Q) : matrix :=
  let dt2 := (dt * dt)%Q in
  let dt3 := (dt2 * dt)%Q in
  let dt4 := (dt3 * dt)%Q in
  [ [Qred ((1 # 4) * dt4 * var); Qred ((1 # 2) * dt3 * var)];
    [Qred ((1 # 2) * dt3 * var); Qred (dt2 * var)] ]%Q.

(** [scipy.linalg.block_diag(a, b)] for 2x2 blocks *)
Definition block_diag2 (a b : matrix) : matrix :=
  map (λ r, r ++ [0; 0]%Q) a ++ map (λ r, [0; 0]%Q ++ r) b.

(** Lines 277-290: the filter a track starts with. *)
Definition new_tracker (p : vec2) : KalmanFilter :=
  let dt := 1%Q in
  let q := Q_discrete_white_noise2 dt (5 # 100) in
  {| kf_F := [ [1; dt; 0; 0]; [0; 1; 0; 0]; [0; 0; 1; dt]; [0; 0; 0; 1] ]%Q;
     kf_H := [ [1; 0; 0; 0]; [0; 0; 1; 0] ]%Q;
     kf_R := scaled_eye 2 5;
     kf_Q := block_diag2 q q;
     kf_x := (p.1, 0, p.2, 0)%Q;
     kf_P := scaled_eye 4 500 |}.

(** [tracker.x.reshape(1,4)[0, [1,3]]] *)
Definition velocity_state (t : KalmanFilter) : vec2 :=
  let '(_, vx, _, vy) := kf_x t in (vx, vy).

(** [v * fps] on a numpy pair *)
Definition scale (v : vec2) (fps : Q) : vec2 := (fmul v.1 fps, fmul v.2 fps).

(** ** Node state *)

Record Config := {
  input_time : nat;
  duration_inactive_to_remove : Q;
  duration_inactive_to_stop_publish : Q;
  fps_est_time : nat
}.

Definition vel_hist := deque (Time * vec2).

Record State := {
  (* PredictKfBuffer *)
  track_input_queue_dict : gmap Z (deque vec3);
  track_color_dict : gmap Z vec3;
  track_id_kf_model_dict : gmap Z KalmanFilter;
  track_id_missing_time_dict : gmap Z Time;
  (* PredictKfAbstract *)
  track_predict_fps : gmap Z Q;
  track_prev_predict_timestamp : gmap Z (deque Time);
  track_vel_hist_dict : gmap Z vel_hist
}.

Definition init_state : State :=
  {| track_input_queue_dict := ∅; track_color_dict := ∅;
     track_id_kf_model_dict := ∅; track_id_missing_time_dict := ∅;
     track_predict_fps := ∅; track_prev_predict_timestamp := ∅;
     track_vel_hist_dict := ∅ |}.

Definition set_queue (m : gmap Z (deque vec3)) (s : State) : State :=
  {| track_input_queue_dict := m;
     track_color_dict := track_color_dict s;
     track_id_kf_model_dict := track_id_kf_model_dict s;
     track_id_missing_time_dict := track_id_missing_time_dict s;
     track_predict_fps := track_predict_fps s;
     track_prev_predict_timestamp := track_prev_predict_timestamp s;
     track_vel_hist_dict := track_vel_hist_dict s |}.

Definition set_color (m : gmap Z vec3) (s : State) : State :=
  {| track_input_queue_dict := track_input_queue_dict s;
     track_color_dict := m;
     track_id_kf_model_dict := track_id_kf_model_dict s;
     track_id_missing_time_dict := track_id_missing_time_dict s;
     track_predict_fps := track_predict_fps s;
     track_prev_predict_timestamp := track_prev_predict_timestamp s;
     track_vel_hist_dict := track_vel_hist_dict s |}.

Definition set_kf (m : gmap Z KalmanFilter) (s : State) : State :=
  {| track_input_queue_dict := track_input_queue_dict s;
     track_color_dict := track_color_dict s;
     track_id_kf_model_dict := m;
     track_id_missing_time_dict := track_id_missing_time_dict s;
     track_predict_fps := track_predict_fps s;
     track_prev_predict_timestamp := track_prev_predict_timestamp s;
     track_vel_hist_dict := track_vel_hist_dict s |}.

Definition set_missing (m : gmap Z Time) (s : State) : State :=
  {| track_input_queue_dict := track_input_queue_dict s;
     track_color_dict := track_color_dict s;
     track_id_kf_model_dict := track_id_kf_model_dict s;
     track_id_missing_time_dict := m;
     track_predict_fps := track_predict_fps s;
     track_prev_predict_timestamp := track_prev_predict_timestamp s;
     track_vel_hist_dict := track_vel_hist_dict s |}.

Definition set_fps (m : gmap Z Q) (s : State) : State :=
  {| track_input_queue_dict := track_input_queue_dict s;
     track_color_dict := track_color_dict s;
     track_id_kf_model_dict := track_id_kf_model_dict s;
     track_id_missing_time_dict := track_id_missing_time_dict s;
     track_predict_fps := m;
     track_prev_predict_timestamp := track_prev_predict_timestamp s;
     track_vel_hist_dict := track_vel_hist_dict s |}.

Definition set_ts (m : gmap Z (deque Time)) (s : State) : State :=
  {| track_input_queue_dict := track_input_queue_dict s;
     track_color_dict := track_color_dict s;
     track_id_kf_model_dict := track_id_kf_model_dict s;
     track_id_missing_time_dict := track_id_missing_time_dict s;
     track_predict_fps := track_predict_fps s;
     track_prev_predict_timestamp := m;
     track_vel_hist_dict := track_vel_hist_dict s |}.

Definition set_vel_hist (m : gmap Z vel_hist) (s : State) : State :=
  {| track_input_queue_dict := track_input_queue_dict s;
     track_color_dict := track_color_dict s;
     track_id_kf_model_dict := track_id_kf_model_dict s;
     track_id_missing_time_dict := track_id_missing_time_dict s;
     track_predict_fps := track_predict_fps s;
     track_prev_predict_timestamp := track_prev_predict_timestamp s;
     track_vel_hist_dict := m |}.

(** The arguments of [pub_result] (without [msg]). *)
Record Output := {
  alive_track_id_list : list Z;
  track_pos_dict : gmap Z vec2;
  track_vel_dict : gmap Z vec2;
  out_vel_hist_dict : gmap Z vel_hist
}.

(** ** [tracked_boxes_cb] *)

Definition is_tracked_class (b : TrackedBox) : bool :=
  bool_decide (class_name b = "person")
  || bool_decide (class_name b = "obstacle").

(** The first two coordinates of a position. *)
Definition xy (c : vec3) : vec2 := (c.1.1, c.1.2).

(** [np.array(queue)[:, :2]]: indexing the second axis of an empty array
    raises. *)
Definition past_of (q : deque vec3) : res (list vec2) :=
  match items q with
  | [] => Err IndexError
  | l => Ok (map xy l)
  end.

(** [a[-1]] on a list *)
Definition list_last {A} (l : list A) : res A :=
  match last l with None => Err IndexError | Some x => Ok x end.

Section Callback.
Context `{!FilterLib}.
Variable cfg : Config.

(** Lines 240-251: queue, colour, and the reset of the missing time. *)
Definition enqueue_box (tbox : TrackedBox) (st : State) : State :=
  let id := track_id tbox in
  let q := default (new_deque (input_time cfg))
                   (track_input_queue_dict st !! id) in
  let st := set_queue (<[id := deque_append q (center3d tbox)]>
                         (track_input_queue_dict st)) st in
  let st := set_color (<[id := color tbox]> (track_color_dict st)) st in
  set_missing (dict_discard (track_id_missing_time_dict st) id) st.

(** Lines 254-265: the frame-rate buffer. The [continue] of line 258
    leaves the state as it is. *)
Definition update_fps (msg : TrackedBoxes) (tbox : TrackedBox) (st : State)
    : res State :=
  let id := track_id tbox in
  match track_prev_predict_timestamp st !! id with
  | Some w =>
      t_last ← deque_last w;
      if box_stamp tbox <? t_last then Ok st               (* continue *)
      else
        t_first ← deque_first w;
        fps ← truediv (inject_Z (Z.of_nat (length (items w))))
                      (seconds_between (stamp msg) t_first);
        let st := set_fps (<[id := fps]> (track_predict_fps st)) st in
        Ok (set_ts (<[id := deque_append w (stamp msg)]>
                      (track_prev_predict_timestamp st)) st)
  | None =>
      let w := new_deque (fps_est_time cfg) in
      Ok (set_ts (<[id := deque_append w (stamp msg)]>
                    (track_prev_predict_timestamp st)) st)
  end.

(** Lines 237-265: the body of the loop over [msg.tracked_boxes]. *)
Definition ingest_box (msg : TrackedBoxes) (tbox : TrackedBox)
    (s : State * list Z) : res (State * list Z) :=
  let '(st, alive) := s in
  if is_tracked_class tbox then
    st ← update_fps msg tbox (enqueue_box tbox st);
    Ok (st, alive ++ [track_id tbox])
  else Ok (st, alive).

Definition ingest_loop (msg : TrackedBoxes) (st : State)
    : res (State * list Z) :=
  foldM (ingest_box msg) (tracked_boxes msg) (st, []).

(** One [predict()] followed by one [update(px)]. *)
Definition kf_step (t : KalmanFilter) (px : vec2) : KalmanFilter :=
  update (predict t) px.

(** Lines 270-310: the body of the loop over [alive_track_id_list]. *)
Definition predict_track (id : Z)
    (s : State * gmap Z vec2 * gmap Z vec2)
    : res (State * gmap Z vec2 * gmap Z vec2) :=
  let '(st, pos, vel) := s in
  q ← dict_get (track_input_queue_dict st) id;
  if negb (bool_decide (is_Some (track_id_kf_model_dict st !! id)))
     && (length (items q) <? input_time cfg)%nat
  then Ok (st, pos, vel)                                   (* continue *)
  else
    past ← past_of q;
    p_last ← list_last past;
    let '(tracker, past) :=
      match track_id_kf_model_dict st !! id with
      | None => (new_tracker p_last, past)
      | Some t => (t, [p_last])
      end in
    let tracker := foldl kf_step tracker past in
    let st := set_kf (<[id := tracker]> (track_id_kf_model_dict st)) st in
    let pos := <[id := p_last]> pos in
    fps ← dict_get (track_predict_fps st) id;
    let v := scale (velocity_state tracker) fps in
    let vel := <[id := v]> vel in
    let h := default (new_deque (fps_est_time cfg))
                     (track_vel_hist_dict st !! id) in
    w ← dict_get (track_prev_predict_timestamp st) id;
    t_last ← deque_last w;
    let st := set_vel_hist (<[id := deque_append h (t_last, v)]>
                              (track_vel_hist_dict st)) st in
    Ok (st, pos, vel).

(** Lines 316-336: the body of the loop over [missing_track_id_list];
    the second component is [stop_publish_track_id_list]. *)
Definition missing_track (now : Time) (id : Z) (s : State * gset Z)
    : res (State * gset Z) :=
  let '(st, stop) := s in
  let st :=
    match track_id_missing_time_dict st !! id with
    | None => set_missing (<[id := now]> (track_id_missing_time_dict st)) st
    | Some _ => st
    end in
  since ← dict_get (track_id_missing_time_dict st) id;
  let stop :=
    if Qgtb (seconds_between now since)
            (duration_inactive_to_stop_publish cfg)
    then {[id]} ∪ stop else stop in
  since ← dict_get (track_id_missing_time_dict st) id;
  if Qgtb (seconds_between now since) (duration_inactive_to_remove cfg)
  then
    let st := set_fps (dict_discard (track_predict_fps st) id) st in
    let st := set_ts
                (dict_discard (track_prev_predict_timestamp st) id) st in
    qd ← dict_del (track_input_queue_dict st) id;
    let st := set_queue qd st in
    cd ← dict_del (track_color_dict st) id;
    let st := set_color cd st in
    md ← dict_del (track_id_missing_time_dict st) id;
    let st := set_missing md st in
    let st := set_kf (dict_discard (track_id_kf_model_dict st) id) st in
    Ok (st, stop)
  else Ok (st, stop).

(** Lines 340-352: the body of the loop over
    [publish_missing_track_id_list]. *)
Definition dead_reckon_track (st : State) (id : Z)
    (s : gmap Z vec2 * gmap Z vec2) : res (gmap Z vec2 * gmap Z vec2) :=
  let '(pos, vel) := s in
  match track_id_kf_model_dict st !! id with
  | None => Ok (pos, vel)                                  (* continue *)
  | Some tracker =>
      fps ← dict_get (track_predict_fps st) id;
      let last_vel := scale (velocity_state tracker) fps in
      q ← dict_get (track_input_queue_dict st) id;
      p ← deque_last q;
      Ok (<[id := xy p]> pos, <[id := last_vel]> vel)
  end.

(** The ids known to the buffer that were not detected in this batch. *)
Definition missing_ids (st : State) (alive : list Z) : gset Z :=
  dom (track_input_queue_dict st) ∖ list_to_set alive.

(** Lines 236-354: from the first loop to the call of [pub_result].
    Python iterates a set in an order of its own; the loops over sets
    follow [elements]. *)
Definition tracked_boxes_cb (msg : TrackedBoxes) (st : State)
    : res (State * Output) :=
  '(st, alive) ← ingest_loop msg st;
  '(st, pos, vel) ← foldM predict_track alive (st, ∅, ∅);
  let missing := missing_ids st alive in
  let now := stamp msg in
  '(st, stop) ← foldM (missing_track now) (elements missing) (st, ∅);
  let publish_missing := missing ∖ stop in
  '(pos, vel) ← foldM (dead_reckon_track st) (elements publish_missing)
                      (pos, vel);
  Ok (st, {| alive_track_id_list := alive;
             track_pos_dict := pos;
             track_vel_dict := vel;
             out_vel_hist_dict := track_vel_hist_dict st |}).

(** Feeding a sequence of messages, one callback per message. *)
Definition run (msgs : list TrackedBoxes) (st : State) : res State :=
  foldM (λ msg st, '(st, _) ← tracked_boxes_cb msg st; Ok st) msgs st.

End Callback.

(** ** The filter equations of [filterpy]

    [KalmanFilter.predict] and [KalmanFilter.update] as the library
    documents them (no control input, [alpha = 1]), over the rationals.
    They instantiate [FilterLib] for the concrete runs below; the general
    statements hold for any [FilterLib]. *)
Module Filterpy.

Definition vdot (u v : list Q) : Q :=
  foldr (λ p acc, Qred (p + acc)) 0%Q (zip_with Qmult u v).

Fixpoint transpose (m : matrix) : matrix :=
  match m with
  | [] => []
  | [r] => map (λ x, [x]) r
  | r :: m' => zip_with cons r (transpose m')
  end.

Definition dot (a b : matrix) : matrix :=
  let bt := transpose b in map (λ r, map (vdot r) bt) a.

Definition madd (a b : matrix) : matrix :=
  zip_with (zip_with (λ x y, Qred (x + y))) a b.

Definition msub (a b : matrix) : matrix :=
  zip_with (zip_with (λ x y, Qred (x - y))) a b.

(** inverse of a 2x2 matrix *)
Definition inv2 (s : matrix) : matrix :=
  match s with
  | [ [a; b]; [c; d] ] =>
      let det := (a * d - b * c)%Q in
      [ [Qred (d / det); Qred (- b / det)];
        [Qred (- c / det); Qred (a / det)] ]
  | _ => s
  end.

Definition col4 (x : Q * Q * Q * Q) : matrix :=
  let '(a, b, c, d) := x in [ [a]; [b]; [c]; [d] ].

Definition uncol4 (m : matrix) : Q * Q * Q * Q :=
  match m with
  | [ [a]; [b]; [c]; [d] ] => (a, b, c, d)
  | _ => (0, 0, 0, 0)%Q
  end.

Definition with_xP (t : KalmanFilter) (x : Q * Q * Q * Q) (P : matrix)
    : KalmanFilter :=
  {| kf_x := x; kf_P := P; kf_F := kf_F t; kf_H := kf_H t;
     kf_R := kf_R t; kf_Q := kf_Q t |}.

Definition predict (t : KalmanFilter) : KalmanFilter :=
  let x := dot (kf_F t) (col4 (kf_x t)) in
  let P := madd (dot (dot (kf_F t) (kf_P t)) (transpose (kf_F t)))
                (kf_Q t) in
  with_xP t (uncol4 x) P.

Definition update (t : KalmanFilter) (z : vec2) : KalmanFilter :=
  let H := kf_H t in
  let x := col4 (kf_x t) in
  let y := msub [ [z.1]; [z.2] ] (dot H x) in
  let PHT := dot (kf_P t) (transpose H) in
  let S := madd (dot H PHT) (kf_R t) in
  let K := dot PHT (inv2 S) in
  let x := madd x (dot K y) in
  let I_KH := msub (scaled_eye 4 1) (dot K H) in
  let P := madd (dot (dot I_KH (kf_P t)) (transpose I_KH))
                (dot (dot K (kf_R t)) (transpose K)) in
  with_xP t (uncol4 x) P.

Definition lib : FilterLib := Build_FilterLib predict update.

End Filterpy.

(** ** The life-cycle run used as a running example

    [input_time = 3], stop publishing after 2 s, remove after 5 s; track 7
    is seen at t = 0, 1, 2 s and then stays away. *)
Module Scenario.

Definition cfg : Config :=
  {| input_time := 3;
     duration_inactive_to_remove := 5;
     duration_inactive_to_stop_publish := 2;
     fps_est_time := 4 |}.

Definition sec (n : Z) : Time := n * 1000000000.

Definition person (id : Z) (x y : Q) (t : Time) : TrackedBox :=
  {| class_name := "person"; center3d := (x, y, 0%Q); track_id := id;
     color := (1, 0, 0)%Q; box_stamp := t |}.

Definition seen (t : Z) (x : Q) : TrackedBoxes :=
  {| stamp := sec t; tracked_boxes := [person 7 x 0 (sec t)] |}.

Definition empty_batch (t : Z) : TrackedBoxes :=
  {| stamp := sec t; tracked_boxes := [] |}.

Definition cb := @tracked_boxes_cb Filterpy.lib cfg.
Definition replay := @run Filterpy.lib cfg.

Definition state_after (msgs : list TrackedBoxes) : State :=
  match replay msgs init_state with Ok st => st | Err _ => init_state end.

(** the state after the track was seen at t = 0 .. n-1, one metre
    further along x each second *)
Definition seen_upto (n : nat) : list TrackedBoxes :=
  map (λ i, seen (Z.of_nat i) (inject_Z (Z.of_nat i))) (seq 0 n).

(** ... absent through t = 4, 6 and 9 s: removed at t = 9 s *)
Definition until6 : list TrackedBoxes :=
  [seen 0 0; seen 1 1; seen 2 2; empty_batch 3; empty_batch 4;
   empty_batch 6].
Definition until9 : list TrackedBoxes := until6 ++ [empty_batch 9].

(** the state and the output of one more callback *)
Definition result_of (msg : TrackedBoxes) (st : State) : State * Output :=
  match cb msg st with
  | Ok r => r
  | Err _ => (init_state,
              {| alive_track_id_list := []; track_pos_dict := ∅;
                 track_vel_dict := ∅; out_vel_hist_dict := ∅ |})
  end.

Definition filter_of (st : State) (k : Z) : KalmanFilter :=
  default (new_tracker (0, 0)%Q) (track_id_kf_model_dict st !! k).

(** two boxes for track 7 in one message *)
Definition seen_twice (t : Z) (x1 x2 : Q) : TrackedBoxes :=
  {| stamp := sec t;
     tracked_boxes := [person 7 x1 0 (sec t); person 7 x2 0 (sec t)] |}.

(** seen at t = 0, 1, 2, absent at t = 3 *)
Definition until3 : list TrackedBoxes :=
  [seen 0 0; seen 1 1; seen 2 2; empty_batch 3].

End Scenario.

(** ** The frame-rate contract in the spec's words

    [(count_of_timestamps_in_window - 1) /
     (newest_timestamp - oldest_timestamp_in_window)], undefined on an
    empty window. *)
Definition window_rate (w : deque Time) : option Q :=
  match head (items w), last (items w) with
  | Some oldest, Some newest =>
      Some (Qred (inject_Z (Z.of_nat (length (items w) - 1))
                  / seconds_between newest oldest))
  | _, _ => None
  end.

(** The value line 260 computes: the size of the window before the new
    timestamp is appended, over the time from its oldest entry to the
    message stamp. *)
Definition fps_of (w : deque Time) (now oldest : Time) : Q :=
  Qred (inject_Z (Z.of_nat (length (items w))) / seconds_between now oldest).

(** ** Vocabulary of the statements *)

(** Everything the node holds about the track id [k]. *)
Definition track_at (st : State) (k : Z) :=
  (track_input_queue_dict st !! k,
   track_color_dict st !! k,
   track_id_kf_model_dict st !! k,
   track_id_missing_time_dict st !! k,
   track_predict_fps st !! k,
   track_prev_predict_timestamp st !! k,
   track_vel_hist_dict st !! k).

(** The boxes of a message that the first loop looks at. *)
Definition tracked (msg : TrackedBoxes) : list TrackedBox :=
  List.filter is_tracked_class (tracked_boxes msg).

(** The ids detected in a message with class person or obstacle, in the
    order of the message. *)
Definition detected_ids (msg : TrackedBoxes) : list Z :=
  map track_id (tracked msg).

(** The position of the last box of a message that carries the id [k]. *)
Definition last_detection (k : Z) (boxes : list TrackedBox) : option vec3 :=
  last (map center3d
          (List.filter (λ b, is_tracked_class b && bool_decide (track_id b = k))
                       boxes)).

(** Seconds for which the track [k] has been missing at time [now]: counted
    from the recorded missing time, or from [now] itself when the track is
    missing for the first time. *)
Definition absence (st : State) (now : Time) (k : Z) : Q :=
  seconds_between now (default now (track_id_missing_time_dict st !! k)).

(** What the third loop does to a missing track [k]: [st], [stop] before
    the loop, [st'], [stop'] after it. *)
Definition missing_outcome (cfg : Config) (now : Time)
    (st : State) (stop : gset Z) (st' : State) (stop' : gset Z) (k : Z)
    : Prop :=
  let e := absence st now k in
  (k ∈ stop' ↔
   k ∈ stop ∨ Qgtb e (duration_inactive_to_stop_publish cfg) = true)
  ∧ track_vel_hist_dict st' !! k = track_vel_hist_dict st !! k
  ∧ (Qgtb e (duration_inactive_to_remove cfg) = true →
     track_input_queue_dict st' !! k = None
     ∧ track_color_dict st' !! k = None
     ∧ track_id_kf_model_dict st' !! k = None
     ∧ track_id_missing_time_dict st' !! k = None
     ∧ track_predict_fps st' !! k = None
     ∧ track_prev_predict_timestamp st' !! k = None)
  ∧ (Qgtb e (duration_inactive_to_remove cfg) = false →
     track_input_queue_dict st' !! k = track_input_queue_dict st !! k
     ∧ track_color_dict st' !! k = track_color_dict st !! k
     ∧ track_id_kf_model_dict st' !! k = track_id_kf_model_dict st !! k
     ∧ track_id_missing_time_dict st' !! k
       = Some (default now (track_id_missing_time_dict st !! k))
     ∧ track_predict_fps st' !! k = track_predict_fps st !! k
     ∧ track_prev_predict_timestamp st' !! k
       = track_prev_predict_timestamp st !! k).

(** ** States and messages on which the callback cannot raise *)

(** Every queue and every timestamp window holds something and can hold
    something; a track with a queue has a colour and a window; a track with
    a filter has a queue and a rate. *)
Record wf (st : State) : Prop := {
  wf_queue : ∀ k q, track_input_queue_dict st !! k = Some q →
             (0 < maxlen q)%nat ∧ items q ≠ [];
  wf_window : ∀ k w, track_prev_predict_timestamp st !! k = Some w →
              (0 < maxlen w)%nat ∧ items w ≠ [];
  wf_known : ∀ k, is_Some (track_input_queue_dict st !! k) →
             is_Some (track_color_dict st !! k)
             ∧ is_Some (track_prev_predict_timestamp st !! k);
  wf_filter : ∀ k, is_Some (track_id_kf_model_dict st !! k) →
              is_Some (track_input_queue_dict st !! k)
              ∧ is_Some (track_predict_fps st !! k)
}.

(** Every recorded timestamp is before [T] (at most [T]). *)
Definition recorded_before (st : State) (T : Time) : Prop :=
  ∀ k w t, track_prev_predict_timestamp st !! k = Some w →
           t ∈ items w → t < T.

Definition recorded_upto (st : State) (T : Time) : Prop :=
  ∀ k w t, track_prev_predict_timestamp st !! k = Some w →
           t ∈ items w → t ≤ T.

(** A message that arrives in order: stamped after everything recorded,
    no id twice, no box stamped before a recorded timestamp of its track. *)
Record in_order (msg : TrackedBoxes) (st : State) : Prop := {
  io_newer : recorded_before st (stamp msg);
  io_distinct : NoDup (detected_ids msg);
  io_fresh : ∀ b w t, b ∈ tracked msg →
             track_prev_predict_timestamp st !! track_id b = Some w →
             t ∈ items w → t ≤ box_stamp b
}.

(** Messages that arrive in order after time [T]: stamps strictly
    increasing from [T], no id twice in a message, no box stamped before
    the previous message. *)
Fixpoint arrive_in_order (T : Time) (msgs : list TrackedBoxes) : Prop :=
  match msgs with
  | [] => True
  | msg :: rest =>
      T < stamp msg
      ∧ NoDup (detected_ids msg)
      ∧ (∀ b, b ∈ tracked msg → T ≤ box_stamp b)
      ∧ arrive_in_order (stamp msg) rest
  end.

(** What the second loop needs of a detected track: a rate, unless the
    track is passed over. *)
Definition ready (cfg : Config) (st : State) (k : Z) : Prop :=
  is_Some (track_predict_fps st !! k)
  ∨ (track_id_kf_model_dict st !! k = None
     ∧ ∃ q, track_input_queue_dict st !! k = Some q
            ∧ (length (items q) < input_time cfg)%nat).

(** ** More vocabulary *)

(** The message without the boxes that the first loop skips. *)
Definition only_tracked (msg : TrackedBoxes) : TrackedBoxes :=
  {| stamp := stamp msg; tracked_boxes := tracked msg |}.

(** A registry state as the callback keeps it: every queue made for
    [input_time] positions, every timestamp window and velocity history
    made for [fps_est_time] entries, none of them over its length, a
    missing time only for tracks that have a queue, and a colour for every
    track that has a queue. *)
Record sound (cfg : Config) (st : State) : Prop := {
  sound_queue : ∀ k q, track_input_queue_dict st !! k = Some q →
                maxlen q = input_time cfg
                ∧ (length (items q) ≤ input_time cfg)%nat;
  sound_window : ∀ k w, track_prev_predict_timestamp st !! k = Some w →
                 maxlen w = fps_est_time cfg
                 ∧ (length (items w) ≤ fps_est_time cfg)%nat;
  sound_hist : ∀ k (h : vel_hist), track_vel_hist_dict st !! k = Some h →
               maxlen h = fps_est_time cfg
               ∧ (length (items h) ≤ fps_est_time cfg)%nat;
  sound_missing : ∀ k, is_Some (track_id_missing_time_dict st !! k) →
                  is_Some (track_input_queue_dict st !! k);
  sound_colour : ∀ k, is_Some (track_input_queue_dict st !! k) →
                 is_Some (track_color_dict st !! k)
}.

(** A track has a filter exactly when its queue is full. *)
Definition filter_iff_full (cfg : Config) (st : State) : Prop :=
  ∀ k, is_Some (track_id_kf_model_dict st !! k) ↔
       ∃ q, track_input_queue_dict st !! k = Some q
            ∧ length (items q) = input_time cfg.

(** What is handed on agrees with what is kept: the two dictionaries have
    the same keys, and a published track has a filter and a rate; its
    position is the first two coordinates [(x, y)] of the newest entry
    [(x, y, z)] of its queue, and its velocity is [(vx * fps, vy * fps)] for
    the state [(px, vx, py, vy)] of its filter and its rate [fps]. *)
Definition published_from (st : State) (pos vel : gmap Z vec2) : Prop :=
  ∀ k,
    match pos !! k with
    | None => vel !! k = None
    | Some p =>
        ∃ (q : deque vec3) (x y z : Q) (t : KalmanFilter)
          (px vx py vy fps : Q),
          track_input_queue_dict st !! k = Some q
          ∧ last (items q) = Some (x, y, z)
          ∧ p = ((x, y) : vec2)
          ∧ track_id_kf_model_dict st !! k = Some t
          ∧ kf_x t = (px, vx, py, vy)
          ∧ track_predict_fps st !! k = Some fps
          ∧ vel !! k = Some ((Qred (vx * fps), Qred (vy * fps)) : vec2)
    end.

(** The velocity history of a track ends with the velocity [vel] holds for
    it, stamped with the newest entry of its timestamp window; a history
    made for no entry ([maxlen] 0) is empty. *)
Definition history_records (st : State) (vel : gmap Z vec2) : Prop :=
  ∀ k v, vel !! k = Some v →
    ∃ (h : vel_hist) w t,
      track_vel_hist_dict st !! k = Some h
      ∧ track_prev_predict_timestamp st !! k = Some w
      ∧ last (items w) = Some t
      ∧ (maxlen h = 0%nat → items h = [])
      ∧ ((0 < maxlen h)%nat → last (items h) = Some (t, v)).

(** ** [vis_result]

    Lines 106-174. [np.linalg.norm] and [quaternion_from_euler] with
    [math.atan2] are library functions on floats: the operations of
    [VisLib]. The plotting branch of lines 176-218 is off: [__init__] sets
    [vis_pred_image] to [False] and nothing in the file sets it again. *)

Inductive marker_type := SPHERE | ARROW.
Inductive marker_action := ADD.

Record Marker := {
  marker_stamp : Time;                    (* marker.header = msg.header *)
  marker_ns : string;
  marker_id : Z;
  marker_kind : marker_type;
  marker_act : marker_action;
  marker_lifetime : Q;                    (* nanoseconds *)
  marker_scale : vec3;
  marker_position : vec3;
  marker_orientation : Q * Q * Q * Q;     (* x, y, z, w *)
  marker_rgb : vec3;
  marker_alpha : Q
}.

Class VisLib := {
  (** [np.linalg.norm(np.array(v))] *)
  norm : vec2 → Q;
  (** [quaternion_from_euler(0.0, 0.0, math.atan2(v[1], v[0]))] *)
  heading_quaternion : vec2 → Q * Q * Q * Q
}.

(** [min(a, b)] *)
Definition fmin (a b : Q) : Q := if Qle_bool a b then a else b.

(** [1.0 if track_id in alive_track_id_list else 0.5] *)
Definition alpha_of (alive : list Z) (track_id : Z) : Q :=
  if bool_decide (track_id ∈ alive) then 1%Q else (1 # 2)%Q.

(** Lines 113-137: the sphere at the position of a track. *)
Definition sphere_marker (msg : TrackedBoxes) (alive : list Z)
    (track_id : Z) (p : vec2) (c : vec3) : Marker :=
  {| marker_stamp := stamp msg;
     marker_ns := "predict-origin-position";
     marker_id := track_id;
     marker_kind := SPHERE;
     marker_act := ADD;
     marker_lifetime := 100000000;
     marker_scale := (1 # 2, 1 # 2, 1 # 10)%Q;
     marker_position := (p.1, p.2, 0%Q);
     marker_orientation := (0, 0, 0, 1)%Q;
     marker_rgb := c;
     marker_alpha := alpha_of alive track_id |}.

Section Visualization.
Context `{!VisLib}.

(** Lines 139-167: the arrow along the velocity of a track. *)
Definition arrow_marker (msg : TrackedBoxes) (alive : list Z)
    (track_id : Z) (p : vec2) (c : vec3) (track_velocity : vec2) : Marker :=
  let velocity_norm := norm track_velocity in
  {| marker_stamp := stamp msg;
     marker_ns := "predict-origin-direction";
     marker_id := track_id;
     marker_kind := ARROW;
     marker_act := ADD;
     marker_lifetime := 100000000;
     marker_scale := (fmul 1 (fmin velocity_norm 1), 1 # 10, 1 # 10)%Q;
     marker_position := (p.1, p.2, 0%Q);
     marker_orientation := heading_quaternion track_velocity;
     marker_rgb := c;
     marker_alpha := alpha_of alive track_id |}.

(** Lines 112-167: the body of the loop over [track_pos_dict.keys()]. *)
Definition track_markers (st : State) (msg : TrackedBoxes) (alive : list Z)
    (pos vel : gmap Z vec2) (track_id : Z) (markers : list Marker)
    : res (list Marker) :=
  p ← dict_get pos track_id;
  c ← dict_get (track_color_dict st) track_id;
  let markers := markers ++ [sphere_marker msg alive track_id p c] in
  track_velocity ← dict_get vel track_id;
  Ok (markers ++ [arrow_marker msg alive track_id p c track_velocity]).

(** Lines 106-174: the marker array that is published ([input_pose] of
    line 107 is not used). Python goes through
    the keys of [track_pos_dict] in the order of their insertion, the
    embedding in the order of [map_to_list]; the markers are the same, their
    order in the array may differ. *)
Definition vis_result (st : State) (msg : TrackedBoxes) (alive : list Z)
    (pos vel : gmap Z vec2) : res (list Marker) :=
  foldM (track_markers st msg alive pos vel) (map_to_list pos).*1 [].

End Visualization.

(** A stand-in for numpy and tf_transformations in concrete runs, exact on
    velocities along the x axis: the norm of [(vx, 0)] is [|vx|], and its
    heading is 0 (quaternion [(0, 0, 0, 1)]) for [vx >= 0] and pi
    (quaternion [(0, 0, 1, 0)]) otherwise. *)
Definition axis_vis : VisLib :=
  Build_VisLib (λ v, Qred ((if Qle_bool 0 v.1 then v.1 else - v.1)
                           + (if Qle_bool 0 v.2 then v.2 else - v.2)))%Q
               (λ v, if Qle_bool 0 v.1 then (0, 0, 0, 1)%Q
                     else (0, 0, 1, 0)%Q).

(** The markers of one more callback. *)
Definition markers_of (st : State) (msg : TrackedBoxes) (out : Output)
    : list Marker :=
  match @vis_result axis_vis st msg (alive_track_id_list out)
          (track_pos_dict out) (track_vel_dict out) with
  | Ok markers => markers
  | Err _ => []
  end.

(** A message stamped 1 s whose box for track 7 is stamped 7 s. *)
Definition late_box : TrackedBox := Scenario.person 7 2 0 (Scenario.sec 7).
Definition early_stamp : TrackedBoxes :=
  {| stamp := Scenario.sec 1; tracked_boxes := [late_box] |}.

(** A second run: track 7 seen every 2 s (so at a rate of 1/2), one metre
    above the ground, moving 1 m along x and 3 m along y between two
    messages. *)
Definition walk (t : Z) (x y z : Q) : TrackedBoxes :=
  {| stamp := Scenario.sec t;
     tracked_boxes := [ {| class_name := "person"; center3d := (x, y, z);
                           track_id := 7; color := (1, 0, 0)%Q;
                           box_stamp := Scenario.sec t |} ] |}.

Definition strides : list TrackedBoxes :=
  [walk 0 0 0 1; walk 2 1 3 1; walk 4 2 6 1].

(** * Basic facts *)

Lemma bind_Ok {A B} (m : res A) (k : A → res B) (b : B) :
  m ≫= k = Ok b → ∃ a, m = Ok a ∧ k a = Ok b.
Proof. destruct m as [a|e]; [eauto | discriminate]. Qed.

Lemma foldM_app {A S} (f : A → S → res S) (l1 l2 : list A) (s : S) :
  foldM f (l1 ++ l2) s = foldM f l1 s ≫= foldM f l2.
Proof.
  revert s. induction l1 as [|a l1 IH]; intros s; simpl; [done|].
  destruct (f a s) as [s'|e]; simpl; [apply IH | done].
Qed.

Lemma dict_get_Ok {V} (d : gmap Z V) k v : dict_get d k = Ok v ↔ d !! k = Some v.
Proof. unfold dict_get. destruct (d !! k); split; congruence. Qed.

Lemma dict_del_Ok {V} (d d' : gmap Z V) k :
  dict_del d k = Ok d' → d' = delete k d.
Proof. unfold dict_del. destruct (d !! k); congruence. Qed.

Lemma deque_last_Ok {A} (d : deque A) x :
  deque_last d = Ok x ↔ last (items d) = Some x.
Proof. unfold deque_last. destruct (last (items d)); split; congruence. Qed.

Lemma deque_first_Ok {A} (d : deque A) x :
  deque_first d = Ok x ↔ head (items d) = Some x.
Proof.
  unfold deque_first. destruct (items d); simpl; split; congruence.
Qed.

Lemma truediv_Ok a b : Qeq_bool b 0 = false → truediv a b = Ok (Qred (a / b)).
Proof. unfold truediv. by intros ->. Qed.

Lemma seconds_between_zero a b : Qeq_bool (seconds_between a b) 0 = true ↔ a = b.
Proof.
  unfold seconds_between. rewrite Qeq_bool_iff, Qred_correct.
  unfold Qeq, Qdiv, Qmult, Qinv, inject_Z; simpl.
  rewrite !Z.mul_1_r. lia.
Qed.

Lemma seconds_between_nonzero a b :
  a ≠ b → Qeq_bool (seconds_between a b) 0 = false.
Proof.
  intros Hne. apply not_true_is_false. by rewrite seconds_between_zero.
Qed.

Lemma last_map {A B} (f : A → B) (l : list A) :
  last (map f l) = f <$> last l.
Proof.
  induction l as [|a [|b l] IH]; [done..|]. exact IH.
Qed.

Lemma past_of_Ok q past :
  past_of q = Ok past → past = map xy (items q) ∧ items q ≠ [].
Proof. unfold past_of. destruct (items q); [done|]. by intros [= <-]. Qed.

Lemma list_last_Ok {A} (l : list A) x : list_last l = Ok x ↔ last l = Some x.
Proof. unfold list_last. destruct (last l); split; congruence. Qed.

Lemma items_append_room {A} (d : deque A) x :
  (length (items d) < maxlen d)%nat → items (deque_append d x) = items d ++ [x].
Proof.
  intros Hlt. unfold deque_append; simpl. rewrite length_app; simpl.
  replace (length (items d) + 1 - maxlen d)%nat with 0%nat by lia. done.
Qed.

Lemma length_items_append {A} (d : deque A) x :
  length (items (deque_append d x)) = (S (length (items d)) `min` maxlen d)%nat.
Proof.
  unfold deque_append; cbn [items maxlen].
  rewrite length_drop, length_app; cbn [length]. lia.
Qed.

Lemma maxlen_append {A} (d : deque A) x : maxlen (deque_append d x) = maxlen d.
Proof. done. Qed.

Lemma last_append_or_empty {A} (d : deque A) x :
  items (deque_append d x) = [] ∨ last (items (deque_append d x)) = Some x.
Proof.
  destruct (maxlen d) as [|n] eqn:Hn.
  - left. unfold deque_append; cbn [items]. rewrite Hn, Nat.sub_0_r.
    apply drop_all.
  - right. unfold deque_append; cbn [items]. rewrite Hn.
    assert (Hlen : (length (items d ++ [x]) - S n ≤ length (items d))%nat)
      by (rewrite length_app; simpl; lia).
    rewrite drop_app_le by done. by rewrite last_snoc.
Qed.

Lemma last_cons_ne {A} (x : A) (l : list A) : l ≠ [] → last (x :: l) = last l.
Proof. by destruct l. Qed.

Lemma last_detection_skip k b boxes :
  k ∈ map track_id (List.filter is_tracked_class boxes) ∨
  is_tracked_class b && bool_decide (track_id b = k) = false →
  last_detection k (b :: boxes) = last_detection k boxes.
Proof.
  unfold last_detection. intros Hk. simpl.
  destruct (is_tracked_class b && bool_decide (track_id b = k)) eqn:Hb;
    [|done].
  destruct Hk as [Hk|?]; [|done]. simpl. apply last_cons_ne.
  clear Hb. induction boxes as [|b' boxes IH]; simpl in *.
  - by apply elem_of_nil in Hk.
  - destruct (is_tracked_class b') eqn:Hc; simpl in *; [|by apply IH].
    apply elem_of_cons in Hk as [->|Hk].
    + by rewrite bool_decide_eq_true_2.
    + destruct (bool_decide (track_id b' = k)); [done|by apply IH].
Qed.

Lemma last_detection_here k b boxes :
  is_tracked_class b = true → track_id b = k →
  k ∉ map track_id (List.filter is_tracked_class boxes) →
  last_detection k (b :: boxes) = Some (center3d b).
Proof.
  unfold last_detection. intros Hc Hid Hk. simpl.
  rewrite Hc, bool_decide_eq_true_2 by done. simpl.
  assert (List.filter
            (λ b, is_tracked_class b && bool_decide (track_id b = k)) boxes
          = []) as ->; [|done].
  induction boxes as [|b' boxes IH]; simpl in *; [done|].
  destruct (is_tracked_class b') eqn:Hc'; simpl in *; [|by apply IH].
  apply not_elem_of_cons in Hk as [Hne Hk].
  rewrite bool_decide_eq_false_2 by done. by apply IH.
Qed.

Lemma last_items_append {A} (d : deque A) x :
  (0 < maxlen d)%nat → last (items (deque_append d x)) = Some x.
Proof.
  intros Hpos. unfold deque_append; simpl.
  assert (Hlen : (length (items d ++ [x]) - maxlen d ≤ length (items d))%nat)
    by (rewrite length_app; simpl; lia).
  rewrite drop_app_le by done. by rewrite last_snoc.
Qed.

Lemma items_append_no_room {A} (d : deque A) x :
  maxlen d = 0%nat → items (deque_append d x) = [].
Proof.
  intros Hn. unfold deque_append; cbn [items]. rewrite Hn, Nat.sub_0_r.
  apply drop_all.
Qed.

(** [tracker.x.reshape(1,4)[0, [1,3]] * fps], component by component. *)
Lemma scale_velocity_state (t : KalmanFilter) (fps px vx py vy : Q) :
  kf_x t = (px, vx, py, vy) →
  scale (velocity_state t) fps = (Qred (vx * fps), Qred (vy * fps)).
Proof. intros Hx. unfold scale, velocity_state, fmul. by rewrite Hx. Qed.

Lemma foldl_map_fun {A B C} (f : A → B → A) (g : C → B) (a : A)
    (l : list C) :
  foldl f a (map g l) = foldl (λ a c, f a (g c)) a l.
Proof. revert a. induction l as [|c l IH]; intros a; [done|]. apply IH. Qed.

(** * The frame-rate buffer (lines 254-265) *)

Section FrameRate.
Variable cfg : Config.
Implicit Types (st : State) (w : deque Time) (tbox : TrackedBox).

Lemma enqueue_box_ts tbox st :
  track_prev_predict_timestamp (enqueue_box cfg tbox st)
  = track_prev_predict_timestamp st.
Proof. done. Qed.

Lemma enqueue_box_fps tbox st :
  track_predict_fps (enqueue_box cfg tbox st) = track_predict_fps st.
Proof. done. Qed.

Lemma enqueue_box_queue tbox st :
  track_input_queue_dict (enqueue_box cfg tbox st) !! track_id tbox
  = Some (deque_append
            (default (new_deque (input_time cfg))
                     (track_input_queue_dict st !! track_id tbox))
            (center3d tbox)).
Proof. unfold enqueue_box; simpl. by rewrite lookup_insert_eq. Qed.

(** First observation of a track: a window is created, no rate is
    computed. *)
Lemma update_fps_new msg tbox st :
  track_prev_predict_timestamp st !! track_id tbox = None →
  update_fps cfg msg tbox st
  = Ok (set_ts (<[track_id tbox :=
                   deque_append (new_deque (fps_est_time cfg)) (stamp msg)]>
                  (track_prev_predict_timestamp st)) st).
Proof. unfold update_fps. by intros ->. Qed.

(** A box stamped strictly before the newest recorded stamp is skipped. *)
Lemma update_fps_stale msg tbox st w t_last :
  track_prev_predict_timestamp st !! track_id tbox = Some w →
  last (items w) = Some t_last →
  box_stamp tbox < t_last →
  update_fps cfg msg tbox st = Ok st.
Proof.
  intros Hw Hlast Hlt. unfold update_fps. rewrite Hw.
  apply deque_last_Ok in Hlast. rewrite Hlast; simpl.
  by rewrite (proj2 (Z.ltb_lt _ _) Hlt).
Qed.

(** Any other box is accepted, whatever the elapsed time. *)
Lemma update_fps_accept msg tbox st w t_last t_first :
  track_prev_predict_timestamp st !! track_id tbox = Some w →
  last (items w) = Some t_last →
  t_last ≤ box_stamp tbox →
  head (items w) = Some t_first →
  update_fps cfg msg tbox st
  = fps ← truediv (inject_Z (Z.of_nat (length (items w))))
                  (seconds_between (stamp msg) t_first);
    Ok (set_ts (<[track_id tbox := deque_append w (stamp msg)]>
                  (track_prev_predict_timestamp st))
          (set_fps (<[track_id tbox := fps]> (track_predict_fps st)) st)).
Proof.
  intros Hw Hlast Hle Hfirst. unfold update_fps. rewrite Hw.
  apply deque_last_Ok in Hlast. apply deque_first_Ok in Hfirst.
  rewrite Hlast; simpl. rewrite (proj2 (Z.ltb_ge _ _) Hle).
  by rewrite Hfirst.
Qed.

Lemma update_fps_zero_elapsed msg tbox st w t_last :
  track_prev_predict_timestamp st !! track_id tbox = Some w →
  last (items w) = Some t_last →
  t_last ≤ box_stamp tbox →
  head (items w) = Some (stamp msg) →
  update_fps cfg msg tbox st = Err ZeroDivisionError.
Proof.
  intros Hw Hlast Hle Hfirst.
  rewrite (update_fps_accept _ _ _ _ _ _ Hw Hlast Hle Hfirst).
  unfold truediv.
  by rewrite (proj2 (seconds_between_zero _ _) eq_refl).
Qed.

Lemma update_fps_nonzero msg tbox st w t_last t_first :
  track_prev_predict_timestamp st !! track_id tbox = Some w →
  last (items w) = Some t_last →
  t_last ≤ box_stamp tbox →
  head (items w) = Some t_first →
  stamp msg ≠ t_first →
  update_fps cfg msg tbox st
  = Ok (set_ts (<[track_id tbox := deque_append w (stamp msg)]>
                  (track_prev_predict_timestamp st))
          (set_fps (<[track_id tbox := fps_of w (stamp msg) t_first]>
                      (track_predict_fps st)) st)).
Proof.
  intros Hw Hlast Hle Hfirst Hne.
  rewrite (update_fps_accept _ _ _ _ _ _ Hw Hlast Hle Hfirst).
  by rewrite truediv_Ok by by apply seconds_between_nonzero.
Qed.

(** On a window with room left, the stored rate is the spec's formula
    read on the window after the append. *)
Lemma window_rate_append w now t_first :
  head (items w) = Some t_first →
  (length (items w) < maxlen w)%nat →
  window_rate (deque_append w now) = Some (fps_of w now t_first).
Proof.
  intros Hfirst Hroom. unfold window_rate, fps_of.
  rewrite last_items_append by lia.
  rewrite items_append_room by done.
  destruct (items w) as [|t l] eqn:Hit; [done|].
  simpl in Hfirst. injection Hfirst as ->. simpl.
  rewrite length_app; simpl.
  by replace (length l + 1 - 0)%nat with (S (length l)) by lia.
Qed.

(** C6 (as amended). When a box is accepted for a frequency update, the
    stored [estimated_fps] is the number of timestamps in the window
    before the new one is appended, divided by the seconds from the
    oldest of them to the message stamp. While the window has room this
    is (count - 1) / (newest - oldest) of the window after the append;
    on a full window it is not (the divisor still reaches back to the
    entry that the append evicts). *)
Theorem fps_update_value msg tbox st alive w t_last t_first :
  is_tracked_class tbox = true →
  track_prev_predict_timestamp st !! track_id tbox = Some w →
  last (items w) = Some t_last →
  t_last ≤ box_stamp tbox →
  head (items w) = Some t_first →
  stamp msg ≠ t_first →
  ∃ st',
    ingest_box cfg msg tbox (st, alive) = Ok (st', alive ++ [track_id tbox])
    ∧ track_predict_fps st' !! track_id tbox
      = Some (fps_of w (stamp msg) t_first)
    ∧ track_prev_predict_timestamp st' !! track_id tbox
      = Some (deque_append w (stamp msg))
    ∧ ((length (items w) < maxlen w)%nat →
       window_rate (deque_append w (stamp msg))
       = Some (fps_of w (stamp msg) t_first)).
Proof.
  intros Hcls Hw Hlast Hle Hfirst Hne.
  eexists. unfold ingest_box. rewrite Hcls.
  rewrite (update_fps_nonzero msg tbox _ w t_last t_first) by done.
  split; [reflexivity|]. simpl. rewrite !lookup_insert_eq.
  repeat split. intros Hroom. by apply window_rate_append.
Qed.

(** C5 (as amended). The estimator withholds the update only on a
    track's first observation, when no window exists yet: the rate keeps
    its previous value or stays unset. It has no guard for a short window
    or for zero elapsed time: an accepted box whose message stamp equals
    the oldest stamp of the window raises [ZeroDivisionError] (nothing is
    stored, the callback ends), and on a window holding a single earlier
    stamp the rate 1 / elapsed is stored. *)
Theorem fps_update_guard msg tbox st alive :
  is_tracked_class tbox = true →
  (track_prev_predict_timestamp st !! track_id tbox = None →
   ∃ st',
     ingest_box cfg msg tbox (st, alive)
     = Ok (st', alive ++ [track_id tbox])
     ∧ track_predict_fps st' !! track_id tbox
       = track_predict_fps st !! track_id tbox)
  ∧ (∀ w t_last,
       track_prev_predict_timestamp st !! track_id tbox = Some w →
       last (items w) = Some t_last →
       t_last ≤ box_stamp tbox →
       head (items w) = Some (stamp msg) →
       ingest_box cfg msg tbox (st, alive) = Err ZeroDivisionError)
  ∧ (∀ n t0,
       track_prev_predict_timestamp st !! track_id tbox
       = Some (Deque n [t0]) →
       t0 ≤ box_stamp tbox →
       stamp msg ≠ t0 →
       ∃ st',
         ingest_box cfg msg tbox (st, alive)
         = Ok (st', alive ++ [track_id tbox])
         ∧ track_predict_fps st' !! track_id tbox
           = Some (Qred (1 / seconds_between (stamp msg) t0))).
Proof.
  intros Hcls. unfold ingest_box. rewrite Hcls. repeat split.
  - intros Hnone. eexists. rewrite update_fps_new by done.
    split; reflexivity.
  - intros w t_last Hw Hlast Hle Hfirst.
    by rewrite (update_fps_zero_elapsed msg tbox _ w t_last).
  - intros n t0 Hw Hle Hne. eexists.
    rewrite (update_fps_nonzero msg tbox _ (Deque n [t0]) t0 t0) by done.
    split; [reflexivity|]. simpl. by rewrite lookup_insert_eq.
Qed.

(** C4 (as amended). The stale-sample skip applies only to a box stamped
    strictly before the newest recorded stamp of its track: then the
    window and the rate are left as they are and the position is still
    enqueued. A box whose stamp equals the newest recorded stamp is
    accepted: the message stamp is appended to the window a second time
    (and the position enqueued), unless the message stamp also equals the
    oldest stamp of the window, where the callback raises
    [ZeroDivisionError]. *)
Theorem equal_stamp_not_skipped msg tbox st alive w t_last t_first :
  is_tracked_class tbox = true →
  track_prev_predict_timestamp st !! track_id tbox = Some w →
  last (items w) = Some t_last →
  head (items w) = Some t_first →
  let q := default (new_deque (input_time cfg))
                   (track_input_queue_dict st !! track_id tbox) in
  (box_stamp tbox < t_last →
   ∃ st',
     ingest_box cfg msg tbox (st, alive)
     = Ok (st', alive ++ [track_id tbox])
     ∧ track_prev_predict_timestamp st' !! track_id tbox = Some w
     ∧ track_predict_fps st' = track_predict_fps st
     ∧ track_input_queue_dict st' !! track_id tbox
       = Some (deque_append q (center3d tbox)))
  ∧ (box_stamp tbox = t_last → stamp msg ≠ t_first →
     ∃ st',
       ingest_box cfg msg tbox (st, alive)
       = Ok (st', alive ++ [track_id tbox])
       ∧ track_prev_predict_timestamp st' !! track_id tbox
         = Some (deque_append w (stamp msg))
       ∧ track_input_queue_dict st' !! track_id tbox
         = Some (deque_append q (center3d tbox)))
  ∧ (box_stamp tbox = t_last → stamp msg = t_first →
     ingest_box cfg msg tbox (st, alive) = Err ZeroDivisionError).
Proof.
  intros Hcls Hw Hlast Hfirst q. unfold ingest_box. rewrite Hcls.
  repeat split.
  - intros Hlt. eexists.
    rewrite (update_fps_stale msg tbox _ w t_last) by done.
    split; [reflexivity|]. repeat split; try done.
    apply enqueue_box_queue.
  - intros Heq Hne. eexists.
    rewrite (update_fps_nonzero msg tbox _ w t_last t_first)
      by (done || lia).
    split; [reflexivity|]. simpl. by rewrite !lookup_insert_eq.
  - intros Heq Hst. subst t_first.
    rewrite (update_fps_zero_elapsed msg tbox _ w t_last) by (done || lia).
    done.
Qed.

End FrameRate.

Import Scenario.

Lemma fps_update_value_witness :
  let w := Deque 4 [sec 0; sec 1; sec 2] in
  ∃ st',
    ingest_box cfg (seen 3 3) (person 7 3 0 (sec 3))
      (state_after (seen_upto 3), []) = Ok (st', [] ++ [7])
    ∧ track_predict_fps st' !! 7 = Some (fps_of w (sec 3) (sec 0))
    ∧ track_prev_predict_timestamp st' !! 7 = Some (deque_append w (sec 3))
    ∧ ((3 < 4)%nat →
       window_rate (deque_append w (sec 3)) = Some (fps_of w (sec 3) (sec 0))).
Proof.
  apply (fps_update_value cfg (seen 3 3) (person 7 3 0 (sec 3))
           (state_after (seen_upto 3)) [] (Deque 4 [sec 0; sec 1; sec 2])
           (sec 2) (sec 0)).
  - reflexivity.
  - vm_compute. reflexivity.
  - reflexivity.
  - vm_compute. discriminate.
  - reflexivity.
  - vm_compute. discriminate.
Defined.

(** The spec's example: seen at exactly t = 0, 1, 2, 3 s with
    [fps_est_time = 4], the track's rate is 3/3 = 1. *)
Example fps_four_samples :
  track_predict_fps (state_after (seen_upto 4)) !! 7 = Some 1%Q.
Proof. vm_compute. reflexivity. Qed.

(** A full window [0, 1, 2, 3] s and a batch at t = 10 s: line 260 stores
    4/10, while (count - 1) / (newest - oldest) is 3/9 on the window after
    the append and 3/3 on the window before it. *)
Lemma fps_full_window_counterexample :
  let st := state_after (seen_upto 4) in
  let st' := state_after (seen_upto 4 ++ [seen 10 10]) in
  track_prev_predict_timestamp st !! 7
    = Some (Deque 4 [sec 0; sec 1; sec 2; sec 3])
  ∧ track_prev_predict_timestamp st' !! 7
    = Some (Deque 4 [sec 1; sec 2; sec 3; sec 10])
  ∧ track_predict_fps st' !! 7 = Some (2 # 5)%Q
  ∧ window_rate (Deque 4 [sec 1; sec 2; sec 3; sec 10]) = Some (1 # 3)%Q
  ∧ window_rate (Deque 4 [sec 0; sec 1; sec 2; sec 3]) = Some 1%Q
  ∧ ¬ (2 # 5 == 1 # 3)%Q ∧ ¬ (2 # 5 == 1)%Q.
Proof. vm_compute. repeat split; (reflexivity || discriminate). Qed.

Lemma fps_update_guard_witness :
  let tbox := person 7 0 0 (sec 0) in
  let st := state_after [seen 0 0] in
  (track_prev_predict_timestamp st !! 7 = None →
   ∃ st',
     ingest_box cfg (seen 0 0) tbox (st, []) = Ok (st', [] ++ [7])
     ∧ track_predict_fps st' !! 7 = track_predict_fps st !! 7)
  ∧ (∀ w t_last,
       track_prev_predict_timestamp st !! 7 = Some w →
       last (items w) = Some t_last →
       t_last ≤ sec 0 →
       head (items w) = Some (sec 0) →
       ingest_box cfg (seen 0 0) tbox (st, []) = Err ZeroDivisionError)
  ∧ (∀ n t0,
       track_prev_predict_timestamp st !! 7 = Some (Deque n [t0]) →
       t0 ≤ sec 0 →
       sec 0 ≠ t0 →
       ∃ st',
         ingest_box cfg (seen 0 0) tbox (st, []) = Ok (st', [] ++ [7])
         ∧ track_predict_fps st' !! 7
           = Some (Qred (1 / seconds_between (sec 0) t0))).
Proof.
  apply (fps_update_guard cfg (seen 0 0) (person 7 0 0 (sec 0))
           (state_after [seen 0 0]) []).
  reflexivity.
Defined.

(** The same batch twice: the second delivery is not withheld, it divides
    by the zero seconds between the message stamp and the only recorded
    stamp. *)
Lemma fps_zero_elapsed_counterexample :
  track_prev_predict_timestamp (state_after [seen 0 0]) !! 7
    = Some (Deque 4 [sec 0])
  ∧ cb (seen 0 0) (state_after [seen 0 0]) = Err ZeroDivisionError.
Proof. vm_compute. split; reflexivity. Qed.

Lemma equal_stamp_not_skipped_witness :
  let tbox := person 7 1 0 (sec 1) in
  let st := state_after (seen_upto 2) in
  let q := default (new_deque 3) (track_input_queue_dict st !! 7) in
  let w := Deque 4 [sec 0; sec 1] in
  (sec 1 < sec 1 →
   ∃ st',
     ingest_box cfg (seen 1 1) tbox (st, []) = Ok (st', [] ++ [7])
     ∧ track_prev_predict_timestamp st' !! 7 = Some w
     ∧ track_predict_fps st' = track_predict_fps st
     ∧ track_input_queue_dict st' !! 7 = Some (deque_append q (1, 0, 0)%Q))
  ∧ (sec 1 = sec 1 → sec 1 ≠ sec 0 →
     ∃ st',
       ingest_box cfg (seen 1 1) tbox (st, []) = Ok (st', [] ++ [7])
       ∧ track_prev_predict_timestamp st' !! 7
         = Some (deque_append w (sec 1))
       ∧ track_input_queue_dict st' !! 7
         = Some (deque_append q (1, 0, 0)%Q))
  ∧ (sec 1 = sec 1 → sec 1 = sec 0 →
     ingest_box cfg (seen 1 1) tbox (st, []) = Err ZeroDivisionError).
Proof.
  apply (equal_stamp_not_skipped cfg (seen 1 1) (person 7 1 0 (sec 1))
           (state_after (seen_upto 2)) [] (Deque 4 [sec 0; sec 1])
           (sec 1) (sec 0)).
  - reflexivity.
  - vm_compute. reflexivity.
  - reflexivity.
  - reflexivity.
Defined.

(** The batch of t = 1 s delivered twice: the second delivery is not
    skipped, the window counts the stamp twice. *)
Lemma same_batch_twice_counterexample :
  track_prev_predict_timestamp (state_after (seen_upto 2)) !! 7
    = Some (Deque 4 [sec 0; sec 1])
  ∧ track_prev_predict_timestamp (state_after (seen_upto 2 ++ [seen 1 1])) !! 7
    = Some (Deque 4 [sec 0; sec 1; sec 1]).
Proof. vm_compute. split; reflexivity. Qed.

(** * The four loops, one track at a time *)

Lemma track_at_eq st st' k :
  track_at st' k = track_at st k ↔
  track_input_queue_dict st' !! k = track_input_queue_dict st !! k
  ∧ track_color_dict st' !! k = track_color_dict st !! k
  ∧ track_id_kf_model_dict st' !! k = track_id_kf_model_dict st !! k
  ∧ track_id_missing_time_dict st' !! k = track_id_missing_time_dict st !! k
  ∧ track_predict_fps st' !! k = track_predict_fps st !! k
  ∧ track_prev_predict_timestamp st' !! k = track_prev_predict_timestamp st !! k
  ∧ track_vel_hist_dict st' !! k = track_vel_hist_dict st !! k.
Proof.
  unfold track_at. split.
  - intros Heq. injection Heq as Hq Hc Hk Hm Hf Ht Hv. by repeat split.
  - intros (Hq & Hc & Hk & Hm & Hf & Ht & Hv). congruence.
Qed.

Ltac frame_maps :=
  unfold dict_discard; cbn;
  repeat first [ rewrite lookup_insert_ne by done
               | rewrite lookup_delete_ne by done ].

Section Loops.
Context `{!FilterLib}.
Variable cfg : Config.
Implicit Types (st : State) (k : Z) (alive : list Z).

(** *** First loop *)

Lemma enqueue_box_frame tbox st k :
  track_id tbox ≠ k → track_at (enqueue_box cfg tbox st) k = track_at st k.
Proof. intros Hne. unfold track_at, enqueue_box. by frame_maps. Qed.

Lemma update_fps_frame msg tbox st st' k :
  update_fps cfg msg tbox st = Ok st' →
  track_id tbox ≠ k → track_at st' k = track_at st k.
Proof.
  unfold update_fps. intros Hok Hne.
  destruct (track_prev_predict_timestamp st !! track_id tbox) as [w|].
  - apply bind_Ok in Hok as (t_last & _ & Hok).
    destruct (box_stamp tbox <? t_last); [by injection Hok as <-|].
    apply bind_Ok in Hok as (t_first & _ & Hok).
    apply bind_Ok in Hok as (fps & _ & Hok).
    injection Hok as <-. unfold track_at. by frame_maps.
  - injection Hok as <-. unfold track_at. by frame_maps.
Qed.

(** The first loop leaves the filters and the velocity histories alone. *)
Lemma update_fps_keeps msg tbox st st' :
  update_fps cfg msg tbox st = Ok st' →
  track_input_queue_dict st' = track_input_queue_dict st
  ∧ track_color_dict st' = track_color_dict st
  ∧ track_id_kf_model_dict st' = track_id_kf_model_dict st
  ∧ track_id_missing_time_dict st' = track_id_missing_time_dict st
  ∧ track_vel_hist_dict st' = track_vel_hist_dict st.
Proof.
  unfold update_fps. intros Hok.
  destruct (track_prev_predict_timestamp st !! track_id tbox) as [w|].
  - apply bind_Ok in Hok as (t_last & _ & Hok).
    destruct (box_stamp tbox <? t_last); [by injection Hok as <-|].
    apply bind_Ok in Hok as (t_first & _ & Hok).
    apply bind_Ok in Hok as (fps & _ & Hok).
    by injection Hok as <-.
  - by injection Hok as <-.
Qed.

Lemma ingest_box_inv msg tbox st alive st' alive' :
  ingest_box cfg msg tbox (st, alive) = Ok (st', alive') →
  (is_tracked_class tbox = false ∧ st' = st ∧ alive' = alive)
  ∨ (is_tracked_class tbox = true
     ∧ update_fps cfg msg tbox (enqueue_box cfg tbox st) = Ok st'
     ∧ alive' = alive ++ [track_id tbox]).
Proof.
  unfold ingest_box. destruct (is_tracked_class tbox).
  - intros Hok. apply bind_Ok in Hok as (s & Hs & Hok).
    injection Hok as <- <-. by right.
  - intros [= <- <-]. by left.
Qed.

Lemma ingest_alive msg boxes st alive st' alive' :
  foldM (ingest_box cfg msg) boxes (st, alive) = Ok (st', alive') →
  alive' = alive ++ map track_id (List.filter is_tracked_class boxes).
Proof.
  revert st alive. induction boxes as [|b boxes IH]; intros st alive; simpl.
  - intros [= <- <-]. by rewrite app_nil_r.
  - intros Hok. apply bind_Ok in Hok as ([s1 al1] & Hb & Hok).
    apply IH in Hok as ->.
    apply ingest_box_inv in Hb as [(-> & -> & ->)|(-> & _ & ->)]; [done|].
    simpl. by rewrite <- app_assoc.
Qed.

Lemma ingest_frame msg boxes st alive st' alive' k :
  foldM (ingest_box cfg msg) boxes (st, alive) = Ok (st', alive') →
  k ∉ map track_id (List.filter is_tracked_class boxes) →
  track_at st' k = track_at st k.
Proof.
  revert st alive. induction boxes as [|b boxes IH]; intros st alive; simpl.
  - by intros [= <- <-].
  - intros Hok Hk. apply bind_Ok in Hok as ([s1 al1] & Hb & Hok).
    apply ingest_box_inv in Hb as [(Hc & -> & ->)|(Hc & Hb & ->)];
      rewrite Hc in Hk.
    + by apply (IH _ _ Hok).
    + simpl in Hk. apply not_elem_of_cons in Hk as [Hne Hk].
      rewrite (IH _ _ Hok Hk).
      rewrite (update_fps_frame _ _ _ _ _ Hb) by done.
      by apply enqueue_box_frame.
Qed.

Lemma ingest_keeps msg boxes st alive st' alive' :
  foldM (ingest_box cfg msg) boxes (st, alive) = Ok (st', alive') →
  track_id_kf_model_dict st' = track_id_kf_model_dict st
  ∧ track_vel_hist_dict st' = track_vel_hist_dict st.
Proof.
  revert st alive. induction boxes as [|b boxes IH]; intros st alive; simpl.
  - by intros [= <- <-].
  - intros Hok. apply bind_Ok in Hok as ([s1 al1] & Hb & Hok).
    apply IH in Hok as [-> ->].
    apply ingest_box_inv in Hb as [(Hc & -> & ->)|(Hc & Hb & ->)]; [done|].
    apply update_fps_keeps in Hb as (_ & _ & -> & _ & ->). done.
Qed.

(** *** Second loop *)

(** What one round of the second loop does. *)
Lemma predict_track_inv id st pos vel st' pos' vel' :
  predict_track cfg id (st, pos, vel) = Ok (st', pos', vel') →
  ∃ q, track_input_queue_dict st !! id = Some q ∧
    ((track_id_kf_model_dict st !! id = None
      ∧ (length (items q) < input_time cfg)%nat
      ∧ st' = st ∧ pos' = pos ∧ vel' = vel)
     ∨ (∃ c_last fps w t_last tracker,
          last (items q) = Some c_last
          ∧ ((track_id_kf_model_dict st !! id = None
              ∧ (input_time cfg ≤ length (items q))%nat
              ∧ tracker = foldl kf_step (new_tracker (xy c_last))
                                (map xy (items q)))
             ∨ (∃ t, track_id_kf_model_dict st !! id = Some t
                     ∧ tracker = kf_step t (xy c_last)))
          ∧ track_predict_fps st !! id = Some fps
          ∧ track_prev_predict_timestamp st !! id = Some w
          ∧ last (items w) = Some t_last
          ∧ st' = set_vel_hist
                    (<[id := deque_append
                               (default (new_deque (fps_est_time cfg))
                                        (track_vel_hist_dict st !! id))
                               (t_last,
                                scale (velocity_state tracker) fps)]>
                       (track_vel_hist_dict st))
                    (set_kf (<[id := tracker]> (track_id_kf_model_dict st))
                            st)
          ∧ pos' = <[id := xy c_last]> pos
          ∧ vel' = <[id := scale (velocity_state tracker) fps]> vel)).
Proof.
  unfold predict_track. intros Hok.
  apply bind_Ok in Hok as (q & Hq & Hok). apply dict_get_Ok in Hq.
  exists q. split; [done|].
  destruct (track_id_kf_model_dict st !! id) as [t|] eqn:Hkf; simpl in Hok.
  - right.
    apply bind_Ok in Hok as (past & Hpast & Hok).
    apply bind_Ok in Hok as (p_last & Hpl & Hok). simpl in Hok.
    apply bind_Ok in Hok as (fps & Hfps & Hok).
    apply bind_Ok in Hok as (w & Hw & Hok).
    apply bind_Ok in Hok as (t_last & Htl & Hok).
    injection Hok as <- <- <-.
    apply dict_get_Ok in Hfps, Hw. apply deque_last_Ok in Htl.
    apply past_of_Ok in Hpast as [-> _]. apply list_last_Ok in Hpl.
    rewrite last_map in Hpl.
    destruct (last (items q)) as [c_last|]; [|done].
    injection Hpl as <-.
    exists c_last, fps, w, t_last, (kf_step t (xy c_last)).
    repeat split; eauto.
  - destruct (length (items q) <? input_time cfg)%nat eqn:Hlen;
      simpl in Hok.
    + left. injection Hok as <- <- <-.
      apply Nat.ltb_lt in Hlen. done.
    + right. apply Nat.ltb_ge in Hlen.
      apply bind_Ok in Hok as (past & Hpast & Hok).
      apply bind_Ok in Hok as (p_last & Hpl & Hok). simpl in Hok.
      apply bind_Ok in Hok as (fps & Hfps & Hok).
      apply bind_Ok in Hok as (w & Hw & Hok).
      apply bind_Ok in Hok as (t_last & Htl & Hok).
      injection Hok as <- <- <-.
      apply dict_get_Ok in Hfps, Hw. apply deque_last_Ok in Htl.
      apply past_of_Ok in Hpast as [-> _]. apply list_last_Ok in Hpl.
      rewrite last_map in Hpl.
      destruct (last (items q)) as [c_last|]; [|done].
      injection Hpl as <-.
      exists c_last, fps, w, t_last,
        (foldl kf_step (new_tracker (xy c_last)) (map xy (items q))).
      repeat split; eauto.
Qed.

Lemma predict_track_keeps id st pos vel st' pos' vel' :
  predict_track cfg id (st, pos, vel) = Ok (st', pos', vel') →
  track_input_queue_dict st' = track_input_queue_dict st
  ∧ track_color_dict st' = track_color_dict st
  ∧ track_id_missing_time_dict st' = track_id_missing_time_dict st
  ∧ track_predict_fps st' = track_predict_fps st
  ∧ track_prev_predict_timestamp st' = track_prev_predict_timestamp st.
Proof.
  intros Hok. apply predict_track_inv in Hok as (q & _ & Hcase).
  destruct Hcase as [(_ & _ & -> & _)
                    |(c & fps & w & tl & tr & _ & _ & _ & _ & _ & -> & _)];
    done.
Qed.

Lemma predict_track_frame id st pos vel st' pos' vel' k :
  predict_track cfg id (st, pos, vel) = Ok (st', pos', vel') →
  id ≠ k →
  track_id_kf_model_dict st' !! k = track_id_kf_model_dict st !! k
  ∧ track_vel_hist_dict st' !! k = track_vel_hist_dict st !! k
  ∧ pos' !! k = pos !! k ∧ vel' !! k = vel !! k.
Proof.
  intros Hok Hne. apply predict_track_inv in Hok as (q & _ & Hcase).
  destruct Hcase as [(_ & _ & -> & -> & ->)
                    |(c & fps & w & tl & tr & _ & _ & _ & _ & _
                      & -> & -> & ->)]; [done|].
  by frame_maps.
Qed.

Lemma predict_loop_keeps l st pos vel st' pos' vel' :
  foldM (predict_track cfg) l (st, pos, vel) = Ok (st', pos', vel') →
  track_input_queue_dict st' = track_input_queue_dict st
  ∧ track_color_dict st' = track_color_dict st
  ∧ track_id_missing_time_dict st' = track_id_missing_time_dict st
  ∧ track_predict_fps st' = track_predict_fps st
  ∧ track_prev_predict_timestamp st' = track_prev_predict_timestamp st.
Proof.
  revert st pos vel. induction l as [|a l IH]; intros st pos vel; simpl.
  - by intros [= <- <- <-].
  - intros Hok. apply bind_Ok in Hok as ([[s1 p1] v1] & Ha & Hok).
    apply IH in Hok as (-> & -> & -> & -> & ->).
    by apply predict_track_keeps in Ha.
Qed.

Lemma predict_loop_frame l st pos vel st' pos' vel' k :
  foldM (predict_track cfg) l (st, pos, vel) = Ok (st', pos', vel') →
  k ∉ l →
  track_id_kf_model_dict st' !! k = track_id_kf_model_dict st !! k
  ∧ track_vel_hist_dict st' !! k = track_vel_hist_dict st !! k
  ∧ pos' !! k = pos !! k ∧ vel' !! k = vel !! k.
Proof.
  revert st pos vel. induction l as [|a l IH]; intros st pos vel; simpl.
  - by intros [= <- <- <-].
  - intros Hok Hk. apply bind_Ok in Hok as ([[s1 p1] v1] & Ha & Hok).
    apply not_elem_of_cons in Hk as [Hne Hk].
    apply (IH _ _ _ Hok) in Hk as (-> & -> & -> & ->).
    by apply (predict_track_frame _ _ _ _ _ _ _ k) in Ha.
Qed.

(** A track that owns a filter: every occurrence of its id in the alive
    list steps the filter once, each time with the newest queue entry. *)
Lemma predict_loop_filtered l st pos vel st' pos' vel' k t q c :
  foldM (predict_track cfg) l (st, pos, vel) = Ok (st', pos', vel') →
  track_id_kf_model_dict st !! k = Some t →
  track_input_queue_dict st !! k = Some q →
  last (items q) = Some c →
  track_id_kf_model_dict st' !! k
  = Some (Nat.iter (count_occ Z.eq_dec l k) (λ t, kf_step t (xy c)) t)
  ∧ (k ∈ l → pos' !! k = Some (xy c)).
Proof.
  revert st pos vel t.
  induction l as [|a l IH]; intros st pos vel t; simpl.
  - intros [= <- <- <-] Hkf _ _. split; [done|]. by intros ?%elem_of_nil.
  - intros Hok Hkf Hq Hc.
    apply bind_Ok in Hok as ([[s1 p1] v1] & Ha & Hok).
    pose proof (predict_track_keeps _ _ _ _ _ _ _ Ha) as (Hq1 & _).
    destruct (Z.eq_dec a k) as [->|Hne].
    + apply predict_track_inv in Ha as (q' & Hq' & Hcase).
      rewrite Hq in Hq'. injection Hq' as <-.
      destruct Hcase as [(Hnone & _)
                        |(c' & fps & w & tl & tr & Hc' & Htr & _ & _ & _
                          & -> & -> & ->)]; [congruence|].
      rewrite Hc in Hc'. injection Hc' as <-.
      destruct Htr as [(Hnone & _)|(t0 & Ht0 & ->)]; [congruence|].
      rewrite Hkf in Ht0. injection Ht0 as <-.
      destruct (IH _ _ _ (kf_step t (xy c)) Hok) as [Hkf' Hpos'];
        [by cbn; rewrite lookup_insert_eq | done | done |].
      rewrite Hkf', Nat.iter_succ_r. split; [done|].
      intros _. destruct (decide (k ∈ l)) as [Hin|Hnin]; [by apply Hpos'|].
      apply (predict_loop_frame _ _ _ _ _ _ _ k Hok) in Hnin
        as (_ & _ & -> & _).
      by rewrite lookup_insert_eq.
    + apply (predict_track_frame _ _ _ _ _ _ _ k) in Ha
        as (Hkf1 & _); [|done].
      destruct (IH _ _ _ t Hok) as [Hkf' Hpos'];
        [congruence | congruence | done |].
      split; [done|].
      intros [?|Hin]%elem_of_cons; [congruence | by apply Hpos'].
Qed.

(** A detected track without a filter whose queue is still short is
    passed over. *)
Lemma predict_loop_short l st pos vel st' pos' vel' k q :
  foldM (predict_track cfg) l (st, pos, vel) = Ok (st', pos', vel') →
  track_id_kf_model_dict st !! k = None →
  track_input_queue_dict st !! k = Some q →
  (length (items q) < input_time cfg)%nat →
  track_id_kf_model_dict st' !! k = None
  ∧ track_vel_hist_dict st' !! k = track_vel_hist_dict st !! k
  ∧ pos' !! k = pos !! k ∧ vel' !! k = vel !! k.
Proof.
  revert st pos vel.
  induction l as [|a l IH]; intros st pos vel; simpl.
  - by intros [= <- <- <-].
  - intros Hok Hkf Hq Hlen.
    apply bind_Ok in Hok as ([[s1 p1] v1] & Ha & Hok).
    pose proof (predict_track_keeps _ _ _ _ _ _ _ Ha) as (Hq1 & _).
    destruct (Z.eq_dec a k) as [->|Hne].
    + apply predict_track_inv in Ha as (q' & Hq' & Hcase).
      rewrite Hq in Hq'. injection Hq' as <-.
      destruct Hcase as [(_ & _ & -> & -> & ->)
                        |(c' & fps & w & tl & tr & _ & Htr & _)].
      * by apply (IH _ _ _ Hok).
      * destruct Htr as [(_ & Hge & _)|(t0 & Ht0 & _)]; [lia|congruence].
    + apply (predict_track_frame _ _ _ _ _ _ _ k) in Ha
        as (Hkf1 & Hvh1 & Hp1 & Hv1); [|done].
      destruct (IH _ _ _ Hok) as (? & ? & ? & ?); [congruence..|done|].
      repeat split; congruence.
Qed.

(** *** Third loop *)

Lemma missing_track_frame now id st stop st' stop' k :
  missing_track cfg now id (st, stop) = Ok (st', stop') →
  id ≠ k →
  track_at st' k = track_at st k ∧ (k ∈ stop' ↔ k ∈ stop).
Proof.
  unfold missing_track. intros Hok Hne.
  apply bind_Ok in Hok as (since & _ & Hok).
  apply bind_Ok in Hok as (since' & _ & Hok).
  assert (Hstop : ∀ (b : bool) (s : gset Z),
             k ∈ (if b then {[id]} ∪ s else s) ↔ k ∈ s)
    by (intros [] ?; [rewrite elem_of_union, elem_of_singleton|];
        intuition congruence).
  destruct (Qgtb (seconds_between now since') _).
  - apply bind_Ok in Hok as (qd & ->%dict_del_Ok & Hok).
    apply bind_Ok in Hok as (cd & ->%dict_del_Ok & Hok).
    apply bind_Ok in Hok as (md & ->%dict_del_Ok & Hok).
    injection Hok as <- <-. split; [|apply Hstop].
    unfold track_at.
    destruct (track_id_missing_time_dict st !! id); by frame_maps.
  - injection Hok as <- <-. split; [|apply Hstop].
    unfold track_at.
    destruct (track_id_missing_time_dict st !! id); by frame_maps.
Qed.

Lemma missing_track_at now id st stop st' stop' :
  missing_track cfg now id (st, stop) = Ok (st', stop') →
  missing_outcome cfg now st stop st' stop' id.
Proof.
  unfold missing_track, missing_outcome, absence. intros Hok.
  apply bind_Ok in Hok as (since & Hs & Hok).
  apply bind_Ok in Hok as (since' & Hs' & Hok).
  rewrite Hs in Hs'. injection Hs' as <-. apply dict_get_Ok in Hs.
  assert (Hsince : since = default now (track_id_missing_time_dict st !! id)).
  { destruct (track_id_missing_time_dict st !! id) as [m|] eqn:Hm; simpl.
    - congruence.
    - cbn in Hs. rewrite lookup_insert_eq in Hs. congruence. }
  rewrite <- Hsince.
  assert (Hstop : ∀ (b : bool) (s : gset Z),
             id ∈ (if b then {[id]} ∪ s else s) ↔ id ∈ s ∨ b = true)
    by (intros [] ?; [rewrite elem_of_union, elem_of_singleton|];
        intuition congruence).
  destruct (Qgtb (seconds_between now since)
                 (duration_inactive_to_remove cfg)) eqn:Hrm.
  - apply bind_Ok in Hok as (qd & ->%dict_del_Ok & Hok).
    apply bind_Ok in Hok as (cd & ->%dict_del_Ok & Hok).
    apply bind_Ok in Hok as (md & ->%dict_del_Ok & Hok).
    injection Hok as <- <-. split; [apply Hstop|].
    split; [by destruct (track_id_missing_time_dict st !! id)|].
    split; [|done]. intros _. unfold dict_discard.
    destruct (track_id_missing_time_dict st !! id); cbn;
      rewrite !lookup_delete_eq; by repeat split.
  - injection Hok as <- <-. split; [apply Hstop|].
    split; [by destruct (track_id_missing_time_dict st !! id)|].
    split; [done|]. intros _.
    destruct (track_id_missing_time_dict st !! id) as [m|] eqn:Hm;
      cbn in *; rewrite ?Hm, ?lookup_insert_eq; repeat split; congruence.
Qed.

Lemma missing_outcome_proper now st0 stop0 st0' stop0' st stop st' stop' k :
  track_at st0 k = track_at st k → (k ∈ stop0 ↔ k ∈ stop) →
  track_at st0' k = track_at st' k → (k ∈ stop0' ↔ k ∈ stop') →
  missing_outcome cfg now st stop st' stop' k →
  missing_outcome cfg now st0 stop0 st0' stop0' k.
Proof.
  intros (Hq & Hc & Hk & Hm & Hf & Ht & Hv)%track_at_eq Hs
         (Hq' & Hc' & Hk' & Hm' & Hf' & Ht' & Hv')%track_at_eq Hs'.
  unfold missing_outcome, absence.
  rewrite Hq, Hc, Hk, Hm, Hf, Ht, Hv, Hq', Hc', Hk', Hm', Hf', Ht', Hv',
    Hs, Hs'.
  done.
Qed.

Lemma missing_loop_frame now l st stop st' stop' k :
  foldM (missing_track cfg now) l (st, stop) = Ok (st', stop') →
  k ∉ l →
  track_at st' k = track_at st k ∧ (k ∈ stop' ↔ k ∈ stop).
Proof.
  revert st stop. induction l as [|a l IH]; intros st stop; simpl.
  - by intros [= <- <-].
  - intros Hok Hk. apply bind_Ok in Hok as ([s1 stop1] & Ha & Hok).
    apply not_elem_of_cons in Hk as [Hne Hk].
    apply (IH _ _ Hok) in Hk as [-> ->].
    by apply (missing_track_frame _ _ _ _ _ _ k) in Ha.
Qed.

Lemma missing_loop_at now l st stop st' stop' k :
  foldM (missing_track cfg now) l (st, stop) = Ok (st', stop') →
  NoDup l → k ∈ l →
  missing_outcome cfg now st stop st' stop' k.
Proof.
  revert st stop. induction l as [|a l IH]; intros st stop; simpl.
  - by intros _ _ ?%elem_of_nil.
  - intros Hok [Ha_l Hnd]%NoDup_cons Hk.
    apply bind_Ok in Hok as ([s1 stop1] & Ha & Hok).
    destruct (decide (a = k)) as [->|Hne].
    + apply (missing_loop_frame _ _ _ _ _ _ k Hok) in Ha_l as [Hat Hst].
      eapply missing_outcome_proper;
        [reflexivity | reflexivity | exact Hat | exact Hst |].
      by apply missing_track_at.
    + apply elem_of_cons in Hk as [?|Hk]; [congruence|].
      apply (missing_track_frame _ _ _ _ _ _ k) in Ha as [Hat Hst];
        [|done].
      eapply missing_outcome_proper;
        [symmetry; exact Hat | symmetry; exact Hst
        | reflexivity | reflexivity |].
      by apply (IH _ _ Hok).
Qed.

(** The third loop never touches the velocity histories. *)
Lemma missing_loop_vel_hist now l st stop st' stop' :
  foldM (missing_track cfg now) l (st, stop) = Ok (st', stop') →
  track_vel_hist_dict st' = track_vel_hist_dict st.
Proof.
  revert st stop. induction l as [|a l IH]; intros st stop; simpl.
  - by intros [= <- <-].
  - intros Hok. apply bind_Ok in Hok as ([s1 stop1] & Ha & Hok).
    rewrite (IH _ _ Hok). clear Hok IH.
    unfold missing_track in Ha.
    apply bind_Ok in Ha as (since & _ & Ha).
    apply bind_Ok in Ha as (since' & _ & Ha).
    destruct (Qgtb (seconds_between now since') _).
    + apply bind_Ok in Ha as (qd & _ & Ha).
      apply bind_Ok in Ha as (cd & _ & Ha).
      apply bind_Ok in Ha as (md & _ & Ha).
      injection Ha as <- <-.
      by destruct (track_id_missing_time_dict st !! a).
    + injection Ha as <- <-.
      by destruct (track_id_missing_time_dict st !! a).
Qed.

(** *** Fourth loop *)

Lemma dead_reckon_inv st id pos vel pos' vel' :
  dead_reckon_track st id (pos, vel) = Ok (pos', vel') →
  (track_id_kf_model_dict st !! id = None ∧ pos' = pos ∧ vel' = vel)
  ∨ (∃ t fps q c,
       track_id_kf_model_dict st !! id = Some t
       ∧ track_predict_fps st !! id = Some fps
       ∧ track_input_queue_dict st !! id = Some q
       ∧ last (items q) = Some c
       ∧ pos' = <[id := xy c]> pos
       ∧ vel' = <[id := scale (velocity_state t) fps]> vel).
Proof.
  unfold dead_reckon_track. intros Hok.
  destruct (track_id_kf_model_dict st !! id) as [t|].
  - right.
    apply bind_Ok in Hok as (fps & Hfps%dict_get_Ok & Hok).
    apply bind_Ok in Hok as (q & Hq%dict_get_Ok & Hok).
    apply bind_Ok in Hok as (c & Hc%deque_last_Ok & Hok).
    injection Hok as <- <-. by exists t, fps, q, c.
  - left. by injection Hok as <- <-.
Qed.

Lemma dead_loop_frame st l pos vel pos' vel' k :
  foldM (dead_reckon_track st) l (pos, vel) = Ok (pos', vel') →
  k ∉ l → pos' !! k = pos !! k ∧ vel' !! k = vel !! k.
Proof.
  revert pos vel. induction l as [|a l IH]; intros pos vel; simpl.
  - by intros [= <- <-].
  - intros Hok Hk. apply bind_Ok in Hok as ([p1 v1] & Ha & Hok).
    apply not_elem_of_cons in Hk as [Hne Hk].
    apply (IH _ _ Hok) in Hk as [-> ->].
    apply dead_reckon_inv in Ha
      as [(_ & -> & ->)|(t & fps & q & c & _ & _ & _ & _ & -> & ->)];
      [done|].
    by rewrite !lookup_insert_ne by done.
Qed.

Lemma dead_loop_at st l pos vel pos' vel' k t :
  foldM (dead_reckon_track st) l (pos, vel) = Ok (pos', vel') →
  k ∈ l →
  track_id_kf_model_dict st !! k = Some t →
  ∃ fps q c,
    track_predict_fps st !! k = Some fps
    ∧ track_input_queue_dict st !! k = Some q
    ∧ last (items q) = Some c
    ∧ pos' !! k = Some (xy c)
    ∧ vel' !! k = Some (scale (velocity_state t) fps).
Proof.
  revert pos vel. induction l as [|a l IH]; intros pos vel; simpl.
  - by intros _ ?%elem_of_nil.
  - intros Hok Hk Hkf. apply bind_Ok in Hok as ([p1 v1] & Ha & Hok).
    destruct (decide (k ∈ l)) as [Hin|Hnin]; [by apply (IH _ _ Hok)|].
    apply elem_of_cons in Hk as [->|?]; [|done].
    apply (dead_loop_frame _ _ _ _ _ _ _ Hok) in Hnin as [-> ->].
    apply dead_reckon_inv in Ha
      as [(Hnone & _)|(t' & fps & q & c & Ht' & Hfps & Hq & Hc & -> & ->)];
      [congruence|].
    rewrite Hkf in Ht'. injection Ht' as <-.
    exists fps, q, c. by rewrite !lookup_insert_eq.
Qed.

(** *** The callback, loop by loop *)

Lemma tracked_boxes_cb_inv msg st st' out :
  tracked_boxes_cb cfg msg st = Ok (st', out) →
  ∃ st1 st2 pos vel stop,
    foldM (ingest_box cfg msg) (tracked_boxes msg) (st, [])
    = Ok (st1, detected_ids msg)
    ∧ foldM (predict_track cfg) (detected_ids msg) (st1, ∅, ∅)
      = Ok (st2, pos, vel)
    ∧ foldM (missing_track cfg (stamp msg))
            (elements (missing_ids st2 (detected_ids msg))) (st2, ∅)
      = Ok (st', stop)
    ∧ foldM (dead_reckon_track st')
            (elements (missing_ids st2 (detected_ids msg) ∖ stop))
            (pos, vel)
      = Ok (track_pos_dict out, track_vel_dict out)
    ∧ alive_track_id_list out = detected_ids msg
    ∧ out_vel_hist_dict out = track_vel_hist_dict st'.
Proof.
  unfold tracked_boxes_cb, ingest_loop. intros Hok.
  apply bind_Ok in Hok as ([st1 alive] & H1 & Hok).
  apply bind_Ok in Hok as ([[st2 pos] vel] & H2 & Hok).
  apply bind_Ok in Hok as ([st3 stop] & H3 & Hok).
  apply bind_Ok in Hok as ([pos' vel'] & H4 & Hok).
  injection Hok as <- <-. simpl.
  pose proof (ingest_alive _ _ _ _ _ _ H1) as Hal. simpl in Hal.
  change (map track_id (List.filter is_tracked_class (tracked_boxes msg)))
    with (detected_ids msg) in Hal. subst alive.
  by exists st1, st2, pos, vel, stop.
Qed.

(** *** Detected tracks *)

(** After the first loop a detected track has its queue, ending (unless
    the queue cannot hold anything) with the last position the message
    gives for it, and no missing time. *)
Lemma ingest_detected msg boxes st alive st' alive' k :
  foldM (ingest_box cfg msg) boxes (st, alive) = Ok (st', alive') →
  k ∈ map track_id (List.filter is_tracked_class boxes) →
  track_id_missing_time_dict st' !! k = None
  ∧ ∃ q, track_input_queue_dict st' !! k = Some q
         ∧ (items q = [] ∨ last (items q) = last_detection k boxes).
Proof.
  revert st alive. induction boxes as [|b boxes IH]; intros st alive; simpl.
  - by intros _ ?%elem_of_nil.
  - intros Hok Hk. apply bind_Ok in Hok as ([s1 al1] & Hb & Hok).
    apply ingest_box_inv in Hb as [(Hc & -> & ->)|(Hc & Hb & ->)];
      rewrite Hc in Hk.
    { rewrite last_detection_skip by (right; by rewrite Hc).
      by apply (IH _ _ Hok). }
    simpl in Hk.
    destruct (decide (k ∈ map track_id (List.filter is_tracked_class boxes)))
      as [Hin|Hnin].
    { rewrite last_detection_skip by by left. by apply (IH _ _ Hok). }
    apply elem_of_cons in Hk as [->|?]; [|done].
    rewrite last_detection_here by done.
    apply (ingest_frame _ _ _ _ _ _ _ Hok), track_at_eq in Hnin
      as (-> & _ & _ & -> & _).
    apply update_fps_keeps in Hb as (-> & _ & _ & -> & _).
    split; [cbn; apply lookup_delete_eq|].
    rewrite enqueue_box_queue. eexists. split; [done|].
    apply last_append_or_empty.
Qed.

Lemma predict_loop_nonempty l st pos vel st' pos' vel' k t q :
  foldM (predict_track cfg) l (st, pos, vel) = Ok (st', pos', vel') →
  k ∈ l →
  track_id_kf_model_dict st !! k = Some t →
  track_input_queue_dict st !! k = Some q →
  ∃ c, last (items q) = Some c.
Proof.
  revert st pos vel t. induction l as [|a l IH]; intros st pos vel t; simpl.
  - by intros _ ?%elem_of_nil.
  - intros Hok Hk Hkf Hq.
    apply bind_Ok in Hok as ([[s1 p1] v1] & Ha & Hok).
    destruct (Z.eq_dec a k) as [->|Hne].
    + apply predict_track_inv in Ha as (q' & Hq' & Hcase).
      rewrite Hq in Hq'. injection Hq' as <-.
      destruct Hcase as [(Hnone & _)|(c & _ & _ & _ & _ & Hc & _)];
        [congruence | by exists c].
    + apply elem_of_cons in Hk as [?|Hk]; [congruence|].
      pose proof (predict_track_keeps _ _ _ _ _ _ _ Ha) as (Hq1 & _).
      apply (predict_track_frame _ _ _ _ _ _ _ k) in Ha
        as (Hkf1 & _); [|done].
      apply (IH _ _ _ t Hok); congruence.
Qed.

Lemma elem_of_missing_ids st alive k :
  k ∈ missing_ids st alive ↔
  is_Some (track_input_queue_dict st !! k) ∧ k ∉ alive.
Proof.
  unfold missing_ids.
  by rewrite elem_of_difference, elem_of_dom, elem_of_list_to_set.
Qed.

(** The last two loops leave a detected track as the second loop left
    it. *)
Lemma cb_detected msg st st' out k :
  tracked_boxes_cb cfg msg st = Ok (st', out) →
  k ∈ detected_ids msg →
  ∃ st1 st2 pos vel,
    foldM (ingest_box cfg msg) (tracked_boxes msg) (st, [])
    = Ok (st1, detected_ids msg)
    ∧ foldM (predict_track cfg) (detected_ids msg) (st1, ∅, ∅)
      = Ok (st2, pos, vel)
    ∧ track_at st' k = track_at st2 k
    ∧ track_pos_dict out !! k = pos !! k
    ∧ track_vel_dict out !! k = vel !! k.
Proof.
  intros Hok Hk.
  apply tracked_boxes_cb_inv in Hok
    as (st1 & st2 & pos & vel & stop & H1 & H2 & H3 & H4 & _).
  exists st1, st2, pos, vel. split; [done|]. split; [done|].
  assert (Hnm : k ∉ missing_ids st2 (detected_ids msg))
    by (rewrite elem_of_missing_ids; tauto).
  split.
  - apply (missing_loop_frame _ _ _ _ _ _ k H3).
    by rewrite elem_of_elements.
  - apply (dead_loop_frame _ _ _ _ _ _ k H4).
    rewrite elem_of_elements, elem_of_difference. tauto.
Qed.

(** A known track that the message does not detect: the first two loops
    pass it by, the third one ages it, the fourth one publishes it if it
    may still be published and owns a filter. *)
Lemma cb_absent msg st st' out k :
  tracked_boxes_cb cfg msg st = Ok (st', out) →
  k ∉ detected_ids msg →
  is_Some (track_input_queue_dict st !! k) →
  ∃ stop,
    missing_outcome cfg (stamp msg) st ∅ st' stop k
    ∧ (k ∈ stop →
       track_pos_dict out !! k = None ∧ track_vel_dict out !! k = None)
    ∧ (k ∉ stop → track_id_kf_model_dict st' !! k = None →
       track_pos_dict out !! k = None ∧ track_vel_dict out !! k = None)
    ∧ (k ∉ stop → ∀ t, track_id_kf_model_dict st' !! k = Some t →
       ∃ fps q c,
         track_predict_fps st' !! k = Some fps
         ∧ track_input_queue_dict st' !! k = Some q
         ∧ last (items q) = Some c
         ∧ track_pos_dict out !! k = Some (xy c)
         ∧ track_vel_dict out !! k
           = Some (scale (velocity_state t) fps)).
Proof.
  intros Hok Hk Hknown.
  apply tracked_boxes_cb_inv in Hok
    as (st1 & st2 & pos & vel & stop & H1 & H2 & H3 & H4 & _).
  pose proof (ingest_frame _ _ _ _ _ _ k H1 Hk) as Hat1.
  pose proof (predict_loop_keeps _ _ _ _ _ _ _ H2)
    as (Hq2 & Hc2 & Hm2 & Hf2 & Ht2).
  pose proof (predict_loop_frame _ _ _ _ _ _ _ k H2 Hk)
    as (Hk2 & Hv2 & Hpos & Hvel).
  rewrite lookup_empty in Hpos, Hvel.
  assert (Hat2 : track_at st2 k = track_at st k).
  { rewrite <- Hat1. unfold track_at. congruence. }
  assert (Hin : k ∈ missing_ids st2 (detected_ids msg)).
  { apply elem_of_missing_ids. split; [|done].
    apply track_at_eq in Hat2 as (-> & _). done. }
  exists stop. split; [|split; [|split]].
  - eapply missing_outcome_proper;
      [symmetry; exact Hat2 | reflexivity | reflexivity | reflexivity |].
    apply (missing_loop_at _ _ _ _ _ _ k H3).
    + apply NoDup_elements.
    + by apply elem_of_elements.
  - intros Hstop.
    destruct (dead_loop_frame _ _ _ _ _ _ k H4) as [Hp Hv].
    { rewrite elem_of_elements, elem_of_difference. tauto. }
    by rewrite Hp, Hv.
  - intros Hstop Hnone.
    assert (Hsame : ∀ l pos vel pos' vel',
               foldM (dead_reckon_track st') l (pos, vel) = Ok (pos', vel') →
               pos' !! k = pos !! k ∧ vel' !! k = vel !! k).
    { clear -Hnone. induction l as [|a l IH]; intros pos vel pos' vel';
        simpl.
      - by intros [= <- <-].
      - intros Hok. apply bind_Ok in Hok as ([p1 v1] & Ha & Hok).
        apply IH in Hok as [-> ->].
        apply dead_reckon_inv in Ha
          as [(_ & -> & ->)
             |(t' & fps & q & c & Ht' & _ & _ & _ & -> & ->)];
          [done|].
        assert (a ≠ k) by congruence.
        by rewrite !lookup_insert_ne by done. }
    destruct (Hsame _ _ _ _ _ H4) as [Hp Hv]. by rewrite Hp, Hv.
  - intros Hstop t Hkf.
    apply (dead_loop_at _ _ _ _ _ _ k t H4); [|done].
    rewrite elem_of_elements, elem_of_difference. tauto.
Qed.

End Loops.

(** * What the callback hands to [pub_result] *)

Section Emitted.
Context `{!FilterLib}.
Variable cfg : Config.
Implicit Types (st : State) (k : Z) (msg : TrackedBoxes).

(** C1 (as amended). Whenever the callback completes, the
    [alive_track_id_list] it hands to [pub_result] is the list of the ids
    detected in this message with class person or obstacle, and nothing
    else: a missing track that is still published (known, absent for at
    most [duration_inactive_to_stop_publish], not removed, owning a
    filter) is not in that list; it is delivered through the position and
    velocity dictionaries instead. *)
Theorem alive_list_is_detected_ids msg st st' out :
  tracked_boxes_cb cfg msg st = Ok (st', out) →
  alive_track_id_list out = detected_ids msg
  ∧ ∀ k,
      k ∉ detected_ids msg →
      is_Some (track_input_queue_dict st !! k) →
      is_Some (track_id_kf_model_dict st !! k) →
      Qgtb (absence st (stamp msg) k)
           (duration_inactive_to_stop_publish cfg) = false →
      Qgtb (absence st (stamp msg) k)
           (duration_inactive_to_remove cfg) = false →
      (k ∉ alive_track_id_list out)
      ∧ is_Some (track_pos_dict out !! k)
      ∧ is_Some (track_vel_dict out !! k).
Proof.
  intros Hok.
  pose proof (tracked_boxes_cb_inv _ _ _ _ _ Hok)
    as (_ & _ & _ & _ & _ & _ & _ & _ & _ & Halive & _).
  split; [done|]. intros k Hk Hknown [t Hkf] Hpub Hkeep.
  rewrite Halive. split; [done|].
  destruct (cb_absent _ _ _ _ _ k Hok Hk Hknown)
    as (stop & (Hstop & _ & _ & Hkept) & _ & _ & Hout).
  destruct (Hkept Hkeep) as (_ & _ & Hkf' & _).
  assert (Hns : k ∉ stop).
  { rewrite Hstop, Hpub. intros [?%elem_of_empty|?]; done. }
  destruct (Hout Hns t) as (fps & q & c & _ & _ & _ & -> & ->);
    [congruence|].
  split; by eexists.
Qed.

(** C8. A missing track that is still published and owns a filter: the
    callback leaves its filter as it was (no predict, no update); with
    [(px, vx, py, vy)] the state of that filter and [fps] the rate last
    stored for the track, the velocity handed on is [(vx * fps, vy * fps)],
    and with [(x, y, z)] the newest entry of its queue, the last position
    observed, the position handed on is [(x, y)]: neither the filter's
    position nor the elapsed time enters it. *)
Theorem dead_reckoning_holds_position msg st st' out k q t :
  tracked_boxes_cb cfg msg st = Ok (st', out) →
  k ∉ detected_ids msg →
  track_input_queue_dict st !! k = Some q →
  track_id_kf_model_dict st !! k = Some t →
  Qgtb (absence st (stamp msg) k)
       (duration_inactive_to_stop_publish cfg) = false →
  Qgtb (absence st (stamp msg) k)
       (duration_inactive_to_remove cfg) = false →
  track_id_kf_model_dict st' !! k = Some t
  ∧ ∃ fps x y z px vx py vy : Q,
      track_predict_fps st !! k = Some fps
      ∧ last (items q) = Some (x, y, z)
      ∧ kf_x t = (px, vx, py, vy)
      ∧ track_vel_dict out !! k = Some (Qred (vx * fps), Qred (vy * fps))
      ∧ track_pos_dict out !! k = Some (x, y).
Proof.
  intros Hok Hk Hq Hkf Hpub Hkeep.
  destruct (cb_absent _ _ _ _ _ k Hok Hk (mk_is_Some _ _ Hq))
    as (stop & (Hstop & _ & _ & Hkept) & _ & _ & Hout).
  destruct (Hkept Hkeep) as (Hq' & _ & Hkf' & _ & Hfps' & _).
  assert (Hns : k ∉ stop).
  { rewrite Hstop, Hpub. intros [?%elem_of_empty|?]; done. }
  rewrite Hkf' in *. split; [done|].
  destruct (Hout Hns t Hkf) as (fps & q' & c & Hf & Hq2 & Hc & Hpos & Hvel).
  destruct c as [[x y] z].
  destruct (kf_x t) as [[[px vx] py] vy] eqn:Hx.
  exists fps, x, y, z, px, vx, py, vy.
  rewrite <- Hfps', Hf. split; [done|].
  assert (Hqq : Some q' = Some q)
    by (etrans; [symmetry; exact Hq2|etrans; [exact Hq'|exact Hq]]).
  injection Hqq as ->.
  split; [exact Hc|]. split; [done|].
  split; [|exact Hpos].
  etrans; [exact Hvel|].
  by rewrite (scale_velocity_state t fps px vx py vy Hx).
Qed.

(** C7. A known track that the message does not detect. Its missing time
    is the message stamp on the first cycle of absence and stays what it
    was on later ones; a detection clears it. While the absence exceeds
    [duration_inactive_to_stop_publish] but not
    [duration_inactive_to_remove], queue and filter are kept and neither
    a position nor a velocity is handed on. In any cycle (so in the
    first) in which the absence exceeds [duration_inactive_to_remove] the
    track leaves the queue, colour, filter, missing-time, rate and
    timestamp dictionaries, but not [track_vel_hist_dict]: lines 326-336
    have no [del] for it, so whatever velocity history the track had is
    retained past that cycle, in the state and in what [pub_result]
    receives. *)
Theorem missing_track_lifecycle msg st st' out :
  tracked_boxes_cb cfg msg st = Ok (st', out) →
  (∀ k, k ∈ detected_ids msg → track_id_missing_time_dict st' !! k = None)
  ∧ ∀ k,
      k ∉ detected_ids msg →
      is_Some (track_input_queue_dict st !! k) →
      let e := absence st (stamp msg) k in
      (track_id_missing_time_dict st !! k = None →
       Qgtb e (duration_inactive_to_remove cfg) = false →
       track_id_missing_time_dict st' !! k = Some (stamp msg))
      ∧ (∀ since, track_id_missing_time_dict st !! k = Some since →
         Qgtb e (duration_inactive_to_remove cfg) = false →
         track_id_missing_time_dict st' !! k = Some since)
      ∧ (Qgtb e (duration_inactive_to_stop_publish cfg) = true →
         Qgtb e (duration_inactive_to_remove cfg) = false →
         track_input_queue_dict st' !! k = track_input_queue_dict st !! k
         ∧ track_id_kf_model_dict st' !! k = track_id_kf_model_dict st !! k
         ∧ track_pos_dict out !! k = None
         ∧ track_vel_dict out !! k = None)
      ∧ (Qgtb e (duration_inactive_to_remove cfg) = true →
         track_input_queue_dict st' !! k = None
         ∧ track_color_dict st' !! k = None
         ∧ track_id_kf_model_dict st' !! k = None
         ∧ track_id_missing_time_dict st' !! k = None
         ∧ track_predict_fps st' !! k = None
         ∧ track_prev_predict_timestamp st' !! k = None)
      ∧ track_vel_hist_dict st' !! k = track_vel_hist_dict st !! k
      ∧ out_vel_hist_dict out !! k = track_vel_hist_dict st !! k.
Proof.
  intros Hok. split.
  - intros k Hk.
    destruct (cb_detected _ _ _ _ _ k Hok Hk)
      as (st1 & st2 & pos & vel & H1 & H2 & Hat & _).
    apply track_at_eq in Hat as (_ & _ & _ & -> & _).
    apply predict_loop_keeps in H2 as (_ & _ & -> & _).
    by apply (ingest_detected _ _ _ _ _ _ _ k) in H1 as [-> _].
  - intros k Hk Hknown e.
    pose proof (tracked_boxes_cb_inv _ _ _ _ _ Hok)
      as (_ & _ & _ & _ & _ & _ & _ & _ & _ & _ & Hhist).
    destruct (cb_absent _ _ _ _ _ k Hok Hk Hknown)
      as (stop & (Hstop & Hvh & Hgone & Hkept) & Hsup & _).
    fold e in Hstop, Hgone, Hkept.
    split; [|split; [|split; [|split; [|split]]]];
      [| | | |exact Hvh|rewrite Hhist; exact Hvh].
    + intros Hnone Hkeep. destruct (Hkept Hkeep) as (_ & _ & _ & -> & _).
      by rewrite Hnone.
    + intros since Hsince Hkeep.
      destruct (Hkept Hkeep) as (_ & _ & _ & -> & _). by rewrite Hsince.
    + intros Hsupp Hkeep. destruct (Hkept Hkeep) as (-> & _ & -> & _).
      split; [done|]. split; [done|].
      apply Hsup, Hstop. by right.
    + done.
Qed.

(** C9 (as amended). A track that owns a filter and is detected in the
    message: its filter is stepped once (one predict, then one update) for
    every box of the message that carries its id, each step consuming the
    position of the last such box, the newest queue entry, and never the
    rest of the queue; with one box for the track this is exactly one
    predict followed by one update. The position handed on is that raw
    position. *)
Theorem steady_state_step msg st st' out k t :
  tracked_boxes_cb cfg msg st = Ok (st', out) →
  track_id_kf_model_dict st !! k = Some t →
  k ∈ detected_ids msg →
  ∃ c,
    last_detection k (tracked_boxes msg) = Some c
    ∧ track_id_kf_model_dict st' !! k
      = Some (Nat.iter (count_occ Z.eq_dec (detected_ids msg) k)
                       (λ t, kf_step t (xy c)) t)
    ∧ (count_occ Z.eq_dec (detected_ids msg) k = 1%nat →
       track_id_kf_model_dict st' !! k = Some (update (predict t) (xy c)))
    ∧ track_pos_dict out !! k = Some (xy c).
Proof.
  intros Hok Hkf Hk.
  destruct (cb_detected _ _ _ _ _ k Hok Hk)
    as (st1 & st2 & pos & vel & H1 & H2 & Hat & Hpos & _).
  apply track_at_eq in Hat as (_ & _ & Hkf' & _).
  destruct (ingest_detected _ _ _ _ _ _ _ k H1 Hk) as (_ & q & Hq & Hlast).
  apply ingest_keeps in H1 as [Hkf1 _].
  rewrite <- Hkf1 in Hkf.
  destruct (predict_loop_nonempty _ _ _ _ _ _ _ _ k t q H2 Hk Hkf Hq)
    as [c Hc].
  destruct Hlast as [Hnil|Hlast]; [by rewrite Hnil in Hc|].
  destruct (predict_loop_filtered _ _ _ _ _ _ _ _ k t q c H2 Hkf Hq Hc)
    as [Hkf2 Hpos2].
  exists c. rewrite Hkf', Hkf2, Hpos, (Hpos2 Hk).
  split; [congruence|]. split; [done|]. split; [|done].
  by intros ->.
Qed.

(** The part of C10 that holds in general: a detected track without a
    filter whose queue is still short is in the alive list, gets no
    position and no velocity, and the velocity-history dictionary handed on
    maps it exactly when it did before the callback. *)
Lemma short_track_not_published msg st st1 alive st' out k q :
  tracked_boxes_cb cfg msg st = Ok (st', out) →
  ingest_loop cfg msg st = Ok (st1, alive) →
  k ∈ detected_ids msg →
  track_id_kf_model_dict st !! k = None →
  track_input_queue_dict st1 !! k = Some q →
  (length (items q) < input_time cfg)%nat →
  k ∈ alive_track_id_list out
  ∧ track_pos_dict out !! k = None
  ∧ track_vel_dict out !! k = None
  ∧ out_vel_hist_dict out !! k = track_vel_hist_dict st !! k.
Proof.
  intros Hok H1 Hk Hkf Hq Hlen.
  pose proof (tracked_boxes_cb_inv _ _ _ _ _ Hok)
    as (_ & _ & _ & _ & _ & _ & _ & _ & _ & Halive & Hhist).
  destruct (cb_detected _ _ _ _ _ k Hok Hk)
    as (st1' & st2 & pos & vel & H1' & H2 & Hat & Hpos & Hvel).
  unfold ingest_loop in H1. rewrite H1 in H1'. injection H1' as <- ->.
  apply ingest_keeps in H1 as [Hkf1 Hvh1]. rewrite <- Hkf1 in Hkf.
  destruct (predict_loop_short _ _ _ _ _ _ _ _ k q H2 Hkf Hq Hlen)
    as (_ & Hvh2 & Hpos2 & Hvel2).
  apply track_at_eq in Hat as (_ & _ & _ & _ & _ & _ & Hvh').
  rewrite Halive, Hpos, Hvel, Hpos2, Hvel2, Hhist, Hvh', Hvh2, Hvh1.
  by rewrite !lookup_empty.
Qed.

(** No callback ever takes a track out of [track_vel_hist_dict]. *)
Lemma velocity_history_is_never_deleted msg st st' out k :
  tracked_boxes_cb cfg msg st = Ok (st', out) →
  is_Some (track_vel_hist_dict st !! k) →
  is_Some (track_vel_hist_dict st' !! k).
Proof.
  intros Hok Hk.
  apply tracked_boxes_cb_inv in Hok
    as (st1 & st2 & pos & vel & stop & H1 & H2 & H3 & _).
  rewrite (missing_loop_vel_hist _ _ _ _ _ _ _ H3).
  apply ingest_keeps in H1 as [_ Hvh1]. rewrite <- Hvh1 in Hk.
  assert (Hmono : ∀ l s p v s' p' v',
             foldM (predict_track cfg) l (s, p, v) = Ok (s', p', v') →
             is_Some (track_vel_hist_dict s !! k) →
             is_Some (track_vel_hist_dict s' !! k)).
  { clear. induction l as [|a l IH]; intros s p v s' p' v'; simpl.
    - by intros [= <- _ _].
    - intros Hl Hs. apply bind_Ok in Hl as ([[s1 p1] v1] & Ha & Hl).
      apply (IH _ _ _ _ _ _ Hl).
      apply predict_track_inv in Ha as (q & _ & Hcase).
      destruct Hcase
        as [(_ & _ & -> & _)
           |(c & fps & w & tl & tr & _ & _ & _ & _ & _ & -> & _)];
        [done|].
      cbn. destruct (decide (a = k)) as [->|Hne].
      + rewrite lookup_insert_eq. by eexists.
      + by rewrite lookup_insert_ne. }
  by apply (Hmono _ _ _ _ _ _ _ H2).
Qed.

End Emitted.

(** ** The life-cycle run, step by step *)

(** t = 4 s: track 7 has been missing for 1 s. *)
Lemma alive_list_is_detected_ids_witness :
  let r := result_of (empty_batch 4) (state_after until3) in
  alive_track_id_list r.2 = []
  ∧ is_Some (track_pos_dict r.2 !! 7)
  ∧ is_Some (track_vel_dict r.2 !! 7).
Proof.
  intros r.
  destruct (@alive_list_is_detected_ids Filterpy.lib cfg (empty_batch 4)
              (state_after until3) r.1 r.2) as [Halive Hpub].
  { vm_compute. reflexivity. }
  split; [exact Halive|].
  apply (Hpub 7).
  - vm_compute. intros Hin. inversion Hin.
  - vm_compute. eexists. reflexivity.
  - vm_compute. eexists. reflexivity.
  - vm_compute. reflexivity.
  - vm_compute. reflexivity.
Defined.

(** A track absent for 1 s under a 2 s stop-publish threshold is not in the
    alive list that [pub_result] receives. *)
Lemma alive_list_counterexample :
  let st := state_after until3 in
  let r := result_of (empty_batch 4) st in
  cb (empty_batch 4) st = Ok r
  ∧ track_id_missing_time_dict st !! 7 = Some (sec 3)
  ∧ absence st (sec 4) 7 = 1%Q
  ∧ is_Some (track_id_kf_model_dict st !! 7)
  ∧ 7 ∉ alive_track_id_list r.2.
Proof.
  vm_compute. repeat split; try reflexivity.
  - eexists. reflexivity.
  - intros Hin. inversion Hin.
Qed.

(** The second run, track 7 missing at t = 5 s. Its filter holds the
    velocity state (3819278435996/3953191854801,
    3819278435996/1317730618267) and its rate is 1/2: the velocity handed
    on is half of that state, the position is (2, 6) of the newest queue
    entry (2, 6, 1), and the filter is what it was. *)
Lemma dead_reckoning_holds_position_witness :
  let st := state_after strides in
  let r := result_of (empty_batch 5) st in
  track_id_kf_model_dict r.1 !! 7 = track_id_kf_model_dict st !! 7
  ∧ (kf_x <$> track_id_kf_model_dict st !! 7)
    = Some (7810443231602 # 3953191854801, 3819278435996 # 3953191854801,
            7810443231602 # 1317730618267, 3819278435996 # 1317730618267)%Q
  ∧ track_predict_fps st !! 7 = Some (1 # 2)%Q
  ∧ (items <$> track_input_queue_dict st !! 7)
    = Some [(0, 0, 1); (1, 3, 1); (2, 6, 1)]%Q
  ∧ track_vel_dict r.2 !! 7
    = Some (1909639217998 # 3953191854801,
            1909639217998 # 1317730618267)%Q
  ∧ track_pos_dict r.2 !! 7 = Some (2, 6)%Q.
Proof.
  intros st r.
  destruct (@dead_reckoning_holds_position Filterpy.lib cfg (empty_batch 5)
              st r.1 r.2 7 (Deque 3 [(0, 0, 1); (1, 3, 1); (2, 6, 1)]%Q)
              (filter_of st 7))
    as (Hkf & fps & x & y & z & px & vx & py & vy
        & Hfps & Hlast & Hx & Hvel & Hpos).
  - vm_compute. reflexivity.
  - vm_compute. intros Hin. inversion Hin.
  - vm_compute. reflexivity.
  - vm_compute. reflexivity.
  - vm_compute. reflexivity.
  - vm_compute. reflexivity.
  - vm_compute in Hfps. injection Hfps as <-.
    vm_compute in Hlast. injection Hlast as <- <- <-.
    vm_compute in Hx. injection Hx as <- <- <- <-.
    split; [etrans; [exact Hkf|vm_compute; reflexivity]|].
    split; [vm_compute; reflexivity|].
    split; [vm_compute; reflexivity|].
    split; [vm_compute; reflexivity|].
    split; [etrans; [exact Hvel|vm_compute; reflexivity]|].
    exact Hpos.
Defined.

(** t = 9 s: track 7 has been missing for 6 s, over the removal threshold
    of 5 s. It leaves six dictionaries; the velocity history recorded at
    t = 2 s stays in [track_vel_hist_dict] and is handed to
    [pub_result]. *)
Lemma missing_track_lifecycle_witness :
  let st := state_after until6 in
  let r := result_of (empty_batch 9) st in
  absence st (sec 9) 7 = 6%Q
  ∧ (track_input_queue_dict r.1 !! 7 = None
     ∧ track_color_dict r.1 !! 7 = None
     ∧ track_id_kf_model_dict r.1 !! 7 = None
     ∧ track_id_missing_time_dict r.1 !! 7 = None
     ∧ track_predict_fps r.1 !! 7 = None
     ∧ track_prev_predict_timestamp r.1 !! 7 = None)
  ∧ (items <$> track_vel_hist_dict r.1 !! 7)
    = Some [(sec 2, (3819278435996 # 3953191854801, 0)%Q)]
  ∧ (items <$> out_vel_hist_dict r.2 !! 7)
    = Some [(sec 2, (3819278435996 # 3953191854801, 0)%Q)].
Proof.
  intros st r.
  destruct (@missing_track_lifecycle Filterpy.lib cfg (empty_batch 9) st
              r.1 r.2) as [_ Habsent].
  { vm_compute. reflexivity. }
  destruct (Habsent 7) as (_ & _ & _ & Hremoved & Hkept & Hhanded).
  - vm_compute. intros Hin. inversion Hin.
  - vm_compute. eexists. reflexivity.
  - split; [vm_compute; reflexivity|].
    split; [apply Hremoved; vm_compute; reflexivity|].
    split.
    + etrans; [exact (f_equal (λ o, items <$> o) Hkept)|].
      vm_compute. reflexivity.
    + etrans; [exact (f_equal (λ o, items <$> o) Hhanded)|].
      vm_compute. reflexivity.
Defined.

(** t = 3 s, the track detected again once: one step with the new
    position. *)
Lemma steady_state_step_witness :
  let st := state_after (seen_upto 3) in
  let r := result_of (seen 3 3) st in
  track_id_kf_model_dict r.1 !! 7
  = Some (Filterpy.update (Filterpy.predict (filter_of st 7)) (3, 0)%Q)
  ∧ track_pos_dict r.2 !! 7 = Some (3, 0)%Q.
Proof.
  intros st r.
  destruct (@steady_state_step Filterpy.lib cfg (seen 3 3) st r.1 r.2 7
              (filter_of st 7)) as (c & Hc & _ & Hone & Hpos).
  - vm_compute. reflexivity.
  - vm_compute. reflexivity.
  - vm_compute. left.
  - injection Hc as <-. split; [|exact Hpos].
    apply Hone. reflexivity.
Defined.

(** Two boxes for track 7 in one message, at x = 3 and x = 3.5: the filter
    is stepped twice, both times with the second position. *)
Lemma steady_state_counterexample :
  let st := state_after (seen_upto 3) in
  let r := result_of (seen_twice 3 3 (7 # 2)) st in
  let t := filter_of st 7 in
  let step t := Filterpy.update (Filterpy.predict t) (7 # 2, 0)%Q in
  cb (seen_twice 3 3 (7 # 2)) st = Ok r
  ∧ track_id_kf_model_dict st !! 7 = Some t
  ∧ track_id_kf_model_dict r.1 !! 7 = Some (step (step t))
  ∧ kf_x (step (step t)) ≠ kf_x (step t).
Proof.
  vm_compute. repeat split; try reflexivity. discriminate.
Qed.

(** C2. The removal at t = 9 s (6 s of absence, threshold 5 s) deletes the
    queue, colour, missing time, filter, rate and timestamp window of
    track 7, but lines 326-336 have no [del] for [track_vel_hist_dict]: the
    velocity history recorded at t = 2 s is still there after the removal,
    and a detection of id 7 at t = 10 s finds it. *)
Theorem purge_keeps_velocity_history :
  let before := state_after until6 in
  let st := state_after until9 in
  let r := result_of (seen 10 0) st in
  is_ok (replay until9 init_state) = true
  ∧ absence before (sec 9) 7 = 6%Q
  ∧ track_input_queue_dict st !! 7 = None
  ∧ track_color_dict st !! 7 = None
  ∧ track_id_missing_time_dict st !! 7 = None
  ∧ track_id_kf_model_dict st !! 7 = None
  ∧ track_predict_fps st !! 7 = None
  ∧ track_prev_predict_timestamp st !! 7 = None
  ∧ is_Some (track_vel_hist_dict st !! 7)
  ∧ track_vel_hist_dict st !! 7 = track_vel_hist_dict before !! 7
  ∧ cb (seen 10 0) st = Ok r
  ∧ track_vel_hist_dict r.1 !! 7 = track_vel_hist_dict before !! 7.
Proof.
  vm_compute. repeat split; try reflexivity. eexists. reflexivity.
Qed.

(** C10. Track 7 detected again at t = 10 s, after its removal at t = 9 s:
    its queue holds one entry (fewer than [input_time = 3]) and it has no
    filter; it is in the alive list and has no position and no velocity,
    but the velocity-history dictionary handed to [pub_result] still maps
    it, to the history that the removal left behind. *)
Theorem new_track_with_old_history :
  let st := state_after until9 in
  let r := result_of (seen 10 0) st in
  cb (seen 10 0) st = Ok r
  ∧ (items <$> track_input_queue_dict r.1 !! 7) = Some [(0, 0, 0)%Q]
  ∧ track_id_kf_model_dict r.1 !! 7 = None
  ∧ alive_track_id_list r.2 = [7]
  ∧ track_pos_dict r.2 !! 7 = None
  ∧ track_vel_dict r.2 !! 7 = None
  ∧ (length ∘ items <$> out_vel_hist_dict r.2 !! 7) = Some 1%nat.
Proof.
  vm_compute. repeat split; reflexivity.
Qed.

(** * Messages in order are processed without an exception *)

Lemma wf_init : wf init_state.
Proof.
  split; cbn; intros k.
  - intros q Hq. by rewrite lookup_empty in Hq.
  - intros w Hw. by rewrite lookup_empty in Hw.
  - intros [q Hq]. by rewrite lookup_empty in Hq.
  - intros [t Ht]. by rewrite lookup_empty in Ht.
Qed.

Lemma append_nonempty {A} (d : deque A) x :
  (0 < maxlen d)%nat → items (deque_append d x) ≠ [].
Proof.
  intros Hpos Hnil. pose proof (last_items_append d x Hpos) as Hl.
  by rewrite Hnil in Hl.
Qed.

Lemma elem_of_items_append {A} (d : deque A) x y :
  y ∈ items (deque_append d x) → y ∈ items d ∨ y = x.
Proof.
  unfold deque_append; cbn [items]. intros Hy.
  apply (subseteq_drop _ _ y) in Hy. apply elem_of_app in Hy as [?|Hy]; [by left|].
  apply list_elem_of_singleton in Hy. by right.
Qed.

Lemma nonempty_ends {A} (l : list A) :
  l ≠ [] → ∃ a b, head l = Some a ∧ last l = Some b ∧ a ∈ l ∧ b ∈ l.
Proof.
  intros Hne. destruct l as [|a l]; [done|].
  destruct (last (a :: l)) as [b|] eqn:Hb.
  - exists a, b. repeat split; [left|]. by apply last_Some_elem_of.
  - by apply last_None in Hb.
Qed.

Lemma foldM_cons_Ok {A S} (f : A → S → res S) a l s s' :
  f a s = Ok s' → foldM f (a :: l) s = foldM f l s'.
Proof. simpl. by intros ->. Qed.

Lemma filter_cons_tracked b boxes :
  List.filter is_tracked_class (b :: boxes)
  = if is_tracked_class b then b :: List.filter is_tracked_class boxes
    else List.filter is_tracked_class boxes.
Proof. done. Qed.

Section Total.
Context `{!FilterLib}.
Variable cfg : Config.
Hypothesis Hinput : (2 ≤ input_time cfg)%nat.
Hypothesis Hfps : (1 ≤ fps_est_time cfg)%nat.

Lemma ingest_box_total msg tbox st alive :
  wf st →
  is_tracked_class tbox = true →
  (∀ w t, track_prev_predict_timestamp st !! track_id tbox = Some w →
          t ∈ items w → t < stamp msg ∧ t ≤ box_stamp tbox) →
  ∃ st',
    ingest_box cfg msg tbox (st, alive) = Ok (st', alive ++ [track_id tbox])
    ∧ wf st'
    ∧ ready cfg st' (track_id tbox)
    ∧ (∀ w t, track_prev_predict_timestamp st' !! track_id tbox = Some w →
              t ∈ items w → t ≤ stamp msg).
Proof.
  intros Hwf Hcls Hfresh. unfold ingest_box. rewrite Hcls.
  destruct (track_prev_predict_timestamp st !! (track_id tbox)) as [w|] eqn:Hw.
  - destruct (wf_window _ Hwf _ _ Hw) as [Hmax Hne].
    destruct (nonempty_ends _ Hne) as (tf & tl & Hhead & Hlast & Hftin & Hltin).
    destruct (Hfresh w tf eq_refl Hftin) as [Hlt _].
    destruct (Hfresh w tl eq_refl Hltin) as [_ Hle].
    rewrite (update_fps_nonzero cfg msg tbox _ w tl tf); try done; [|lia].
    eexists. split; [reflexivity|]. split; [|split].
    + split; cbn; intros k.
      * intros q. destruct (decide ((track_id tbox) = k)) as [<-|Hk].
        -- rewrite lookup_insert_eq. intros [= <-].
           assert (0 < maxlen (default (new_deque (input_time cfg))
                                 (track_input_queue_dict st !! (track_id tbox))))%nat.
           { destruct (track_input_queue_dict st !! (track_id tbox)) as [q0|] eqn:Hq0;
               simpl; [|lia]. by apply (wf_queue _ Hwf (track_id tbox)). }
           split; [done|]. by apply append_nonempty.
        -- rewrite lookup_insert_ne by done. apply (wf_queue _ Hwf).
      * intros w'. destruct (decide ((track_id tbox) = k)) as [<-|Hk].
        -- rewrite lookup_insert_eq. intros [= <-].
           split; [done|]. by apply append_nonempty.
        -- rewrite lookup_insert_ne by done. apply (wf_window _ Hwf).
      * destruct (decide ((track_id tbox) = k)) as [<-|Hk].
        -- rewrite !lookup_insert_eq. by split.
        -- rewrite !lookup_insert_ne by done. apply (wf_known _ Hwf).
      * intros Hkf. destruct (wf_filter _ Hwf k Hkf) as [Hq Hf].
        destruct (decide ((track_id tbox) = k)) as [<-|Hk].
        -- rewrite !lookup_insert_eq. by split.
        -- by rewrite !lookup_insert_ne by done.
    + left. cbn. by rewrite lookup_insert_eq.
    + cbn. intros w' t. rewrite lookup_insert_eq. intros [= <-] Ht.
      apply elem_of_items_append in Ht as [Ht| ->]; [|lia].
      destruct (Hfresh w t eq_refl Ht). lia.
  - rewrite update_fps_new by done.
    assert (Hq0 : track_input_queue_dict st !! (track_id tbox) = None).
    { destruct (track_input_queue_dict st !! (track_id tbox)) as [q0|] eqn:Hq0; [|done].
      destruct (wf_known _ Hwf (track_id tbox)) as [_ [w' Hw']]; [by eexists|].
      congruence. }
    assert (Hkf0 : track_id_kf_model_dict st !! (track_id tbox) = None).
    { destruct (track_id_kf_model_dict st !! (track_id tbox)) as [t0|] eqn:Hk0; [|done].
      destruct (wf_filter _ Hwf (track_id tbox)) as [[q' Hq'] _]; [by eexists|].
      congruence. }
    eexists. split; [reflexivity|]. split; [|split].
    + split; cbn; intros k.
      * intros q. destruct (decide ((track_id tbox) = k)) as [<-|Hk].
        -- rewrite lookup_insert_eq, Hq0. intros [= <-].
           split; [simpl; lia|]. apply append_nonempty. simpl. lia.
        -- rewrite lookup_insert_ne by done. apply (wf_queue _ Hwf).
      * intros w'. destruct (decide ((track_id tbox) = k)) as [<-|Hk].
        -- rewrite lookup_insert_eq. intros [= <-].
           split; [simpl; lia|]. apply append_nonempty. simpl. lia.
        -- rewrite lookup_insert_ne by done. apply (wf_window _ Hwf).
      * destruct (decide ((track_id tbox) = k)) as [<-|Hk].
        -- rewrite !lookup_insert_eq. by split.
        -- rewrite !lookup_insert_ne by done. apply (wf_known _ Hwf).
      * intros Hkf. destruct (wf_filter _ Hwf k Hkf) as [Hq Hf].
        destruct (decide ((track_id tbox) = k)) as [<-|Hk].
        -- rewrite !lookup_insert_eq. by split.
        -- by rewrite !lookup_insert_ne by done.
    + right. cbn. split; [done|]. rewrite lookup_insert_eq, Hq0.
      eexists. split; [done|]. rewrite length_items_append.
      cbn -[Nat.min]. lia.
    + cbn. intros w' t. rewrite lookup_insert_eq. intros [= <-] Ht.
      apply elem_of_items_append in Ht as [Ht| ->]; [|lia].
      simpl in Ht. by apply elem_of_nil in Ht.
Qed.

Lemma ingest_box_frame msg tbox st alive st' alive' k :
  ingest_box cfg msg tbox (st, alive) = Ok (st', alive') →
  (is_tracked_class tbox = true → track_id tbox ≠ k) →
  track_at st' k = track_at st k.
Proof.
  intros Hok Hne.
  apply ingest_box_inv in Hok as [(_ & -> & _)|(Hc & Hb & _)]; [done|].
  rewrite (update_fps_frame _ _ _ _ _ _ Hb) by auto.
  apply enqueue_box_frame. auto.
Qed.

Lemma ready_proper st st' k :
  track_at st' k = track_at st k → ready cfg st k → ready cfg st' k.
Proof.
  intros (Hq & _ & Hk & _ & Hf & _)%track_at_eq. unfold ready.
  by rewrite Hq, Hk, Hf.
Qed.

Lemma ingest_loop_total msg boxes st alive :
  wf st →
  NoDup (map track_id (List.filter is_tracked_class boxes)) →
  (∀ b w t, b ∈ List.filter is_tracked_class boxes →
            track_prev_predict_timestamp st !! track_id b = Some w →
            t ∈ items w → t < stamp msg ∧ t ≤ box_stamp b) →
  ∃ st' alive',
    foldM (ingest_box cfg msg) boxes (st, alive) = Ok (st', alive')
    ∧ wf st'
    ∧ ∀ k, k ∈ map track_id (List.filter is_tracked_class boxes) →
           ready cfg st' k
           ∧ ∀ w t, track_prev_predict_timestamp st' !! k = Some w →
                    t ∈ items w → t ≤ stamp msg.
Proof.
  revert st alive.
  induction boxes as [|b boxes IH]; intros st alive Hwf Hnd Hfresh.
  - exists st, alive. split; [done|]. split; [done|].
    by intros k ?%elem_of_nil.
  - simpl in Hnd, Hfresh. setoid_rewrite filter_cons_tracked.
    destruct (is_tracked_class b) eqn:Hc.
    + simpl in Hnd. apply NoDup_cons in Hnd as [Hnew Hnd].
      destruct (ingest_box_total msg b st alive Hwf Hc)
        as (st1 & Hb & Hwf1 & Hready1 & Hupto1).
      { intros w t. apply Hfresh. left. }
      assert (Hframe1 : ∀ k, track_id b ≠ k → track_at st1 k = track_at st k)
        by (intros k Hk; by apply (ingest_box_frame _ _ _ _ _ _ _ Hb)).
      destruct (IH st1 (alive ++ [track_id b]) Hwf1 Hnd)
        as (st' & alive' & Hok & Hwf' & Hpost).
      { intros b' w t Hb' Hw. apply (Hfresh b' w t); [by right|].
        assert (Hne : track_id b ≠ track_id b').
        { intros Heq. apply Hnew. rewrite Heq.
          apply list_elem_of_fmap. by exists b'. }
        apply Hframe1, track_at_eq in Hne as (_ & _ & _ & _ & _ & <- & _).
        done. }
      exists st', alive'. rewrite (foldM_cons_Ok _ _ _ _ _ Hb).
      split; [exact Hok|].
      split; [done|]. intros k Hk.
      destruct (decide
        (k ∈ map track_id (List.filter is_tracked_class boxes)))
        as [Hin|Hnin]; [by apply Hpost|].
      apply elem_of_cons in Hk as [->|?]; [|done].
      pose proof (ingest_frame _ _ _ _ _ _ _ _ Hok Hnin) as Hat.
      split; [by apply (ready_proper st1)|].
      apply track_at_eq in Hat as (_ & _ & _ & _ & _ & -> & _). done.
    + destruct (IH st alive Hwf Hnd Hfresh)
        as (st' & alive' & Hok & Hwf' & Hpost).
      exists st', alive'. split; [|done].
      rewrite (foldM_cons_Ok _ _ _ _ (st, alive)); [done|].
      unfold ingest_box. by rewrite Hc.
Qed.

(** *** Second loop *)

Lemma predict_track_total id st pos vel :
  wf st → ready cfg st id →
  is_Some (track_input_queue_dict st !! id) →
  ∃ st' pos' vel',
    predict_track cfg id (st, pos, vel) = Ok (st', pos', vel')
    ∧ wf st'
    ∧ ∀ k, ready cfg st k → ready cfg st' k.
Proof.
  intros Hwf Hready [q Hq].
  destruct (wf_queue _ Hwf _ _ Hq) as [_ Hne].
  destruct (wf_known _ Hwf id) as [_ [w Hw]]; [by eexists|].
  destruct (wf_window _ Hwf _ _ Hw) as [_ Hwne].
  destruct (nonempty_ends _ Hne) as (_ & c & _ & Hc & _).
  destruct (nonempty_ends _ Hwne) as (_ & tl & _ & Htl & _).
  assert (Hpast : past_of q = Ok (map xy (items q))).
  { unfold past_of. by destruct (items q). }
  assert (Hplast : list_last (map xy (items q)) = Ok (xy c)).
  { apply list_last_Ok. by rewrite last_map, Hc. }
  apply deque_last_Ok in Htl.
  unfold predict_track.
  rewrite (proj2 (dict_get_Ok _ _ _) Hq). simpl.
  destruct (track_id_kf_model_dict st !! id) as [t|] eqn:Hkf; simpl.
  - destruct (wf_filter _ Hwf id) as [_ [fps Hf]]; [by eexists|].
    rewrite Hpast. simpl. rewrite Hplast. simpl.
    rewrite (proj2 (dict_get_Ok _ _ _) Hf). simpl.
    rewrite (proj2 (dict_get_Ok _ _ _) Hw). simpl. rewrite Htl. simpl.
    do 3 eexists. split; [reflexivity|]. split.
    + split; cbn; intros k; try apply Hwf.
      intros Hk. destruct (decide (id = k)) as [<-|Hne'].
      * split; by eexists.
      * rewrite lookup_insert_ne in Hk by done.
        by apply (wf_filter _ Hwf k).
    + intros k Hr. unfold ready in *. cbn.
      destruct Hr as [Hr|(Hnone & Hshort)]; [by left|].
      destruct (decide (id = k)) as [<-|Hne']; [left; by eexists|].
      right. by rewrite lookup_insert_ne.
  - destruct (length (items q) <? input_time cfg)%nat eqn:Hlen; simpl.
    + do 3 eexists. split; [reflexivity|]. done.
    + apply Nat.ltb_ge in Hlen.
      assert (Hf : is_Some (track_predict_fps st !! id)).
      { destruct Hready as [?|(_ & q' & Hq' & Hlt)]; [done|].
        rewrite Hq in Hq'. injection Hq' as <-. lia. }
      destruct Hf as [fps Hf].
      rewrite Hpast. simpl. rewrite Hplast. simpl.
      rewrite (proj2 (dict_get_Ok _ _ _) Hf). simpl.
      rewrite (proj2 (dict_get_Ok _ _ _) Hw). simpl. rewrite Htl. simpl.
      do 3 eexists. split; [reflexivity|]. split.
      * split; cbn; intros k; try apply Hwf.
        intros Hk. destruct (decide (id = k)) as [<-|Hne'].
        -- split; by eexists.
        -- rewrite lookup_insert_ne in Hk by done.
           by apply (wf_filter _ Hwf k).
      * intros k Hr. unfold ready in *. cbn.
        destruct Hr as [Hr|(Hnone & Hshort)]; [by left|].
        destruct (decide (id = k)) as [<-|Hne']; [left; by eexists|].
        right. by rewrite lookup_insert_ne.
Qed.

Lemma predict_loop_total l st pos vel :
  wf st →
  (∀ k, k ∈ l → ready cfg st k ∧ is_Some (track_input_queue_dict st !! k)) →
  ∃ st' pos' vel',
    foldM (predict_track cfg) l (st, pos, vel) = Ok (st', pos', vel')
    ∧ wf st'.
Proof.
  revert st pos vel. induction l as [|a l IH]; intros st pos vel Hwf Hl.
  - by exists st, pos, vel.
  - destruct (Hl a) as [Hra Hqa]; [left|].
    destruct (predict_track_total a st pos vel Hwf Hra Hqa)
      as (s1 & p1 & v1 & Ha & Hwf1 & Hr1).
    destruct (IH s1 p1 v1 Hwf1) as (st' & pos' & vel' & Hok & Hwf').
    { intros k Hk. destruct (Hl k) as [Hrk Hqk]; [by right|].
      split; [by apply Hr1|].
      by apply predict_track_keeps in Ha as (-> & _). }
    exists st', pos', vel'. by rewrite (foldM_cons_Ok _ _ _ _ _ Ha).
Qed.
(** *** Third loop *)

Lemma missing_track_total now id st stop :
  wf st →
  is_Some (track_input_queue_dict st !! id) →
  ∃ st' stop',
    missing_track cfg now id (st, stop) = Ok (st', stop')
    ∧ wf st'
    ∧ ∀ k w, track_prev_predict_timestamp st' !! k = Some w →
             track_prev_predict_timestamp st !! k = Some w.
Proof.
  intros Hwf Hq.
  destruct (wf_known _ Hwf id Hq) as [Hcol _].
  unfold missing_track.
  set (st1 := match track_id_missing_time_dict st !! id with
              | Some _ => st
              | None => set_missing
                          (<[id:=now]> (track_id_missing_time_dict st)) st
              end).
  assert (Hsame : track_input_queue_dict st1 = track_input_queue_dict st
                  ∧ track_color_dict st1 = track_color_dict st
                  ∧ track_id_kf_model_dict st1 = track_id_kf_model_dict st
                  ∧ track_predict_fps st1 = track_predict_fps st
                  ∧ track_prev_predict_timestamp st1
                    = track_prev_predict_timestamp st)
    by (unfold st1; by destruct (track_id_missing_time_dict st !! id)).
  destruct Hsame as (Hq1 & Hc1 & Hk1 & Hf1 & Ht1).
  assert (Hm1 : is_Some (track_id_missing_time_dict st1 !! id)).
  { unfold st1.
    destruct (track_id_missing_time_dict st !! id) as [m|] eqn:Hm.
    - rewrite Hm. by eexists.
    - cbn. rewrite lookup_insert_eq. by eexists. }
  assert (Hwf1 : wf st1).
  { split; rewrite ?Hq1, ?Hc1, ?Hk1, ?Hf1, ?Ht1; apply Hwf. }
  clearbody st1. destruct Hm1 as [since Hsince].
  rewrite (proj2 (dict_get_Ok _ _ _) Hsince). simpl.
  destruct (Qgtb (seconds_between now since)
                 (duration_inactive_to_remove cfg)).
  - unfold dict_del, dict_discard. cbn.
    rewrite Hq1, Hc1. destruct Hq as [q ->]. destruct Hcol as [c ->].
    simpl. rewrite Hsince. simpl.
    do 2 eexists. split; [reflexivity|]. split.
    + split; cbn; intros k.
      * intros q' [_ Hq']%lookup_delete_Some. by apply (wf_queue _ Hwf k).
      * intros w [_ Hw]%lookup_delete_Some. rewrite Ht1 in Hw.
        by apply (wf_window _ Hwf k).
      * rewrite !lookup_delete_is_Some. intros [Hne Hq'].
        rewrite Ht1. destruct (wf_known _ Hwf k Hq'). tauto.
      * rewrite !lookup_delete_is_Some. intros [Hne Hk].
        rewrite Hk1 in Hk. rewrite Hf1.
        destruct (wf_filter _ Hwf k Hk). tauto.
    + cbn. intros k w [_ Hw]%lookup_delete_Some. by rewrite <- Ht1.
  - do 2 eexists. split; [reflexivity|]. split; [done|].
    intros k w. by rewrite Ht1.
Qed.

Lemma missing_loop_total now l st stop :
  wf st → NoDup l →
  (∀ k, k ∈ l → is_Some (track_input_queue_dict st !! k)) →
  ∃ st' stop',
    foldM (missing_track cfg now) l (st, stop) = Ok (st', stop')
    ∧ wf st'
    ∧ ∀ k w, track_prev_predict_timestamp st' !! k = Some w →
             track_prev_predict_timestamp st !! k = Some w.
Proof.
  revert st stop. induction l as [|a l IH]; intros st stop Hwf Hnd Hl.
  - by exists st, stop.
  - apply NoDup_cons in Hnd as [Ha_l Hnd].
    destruct (missing_track_total now a st stop Hwf) as
      (s1 & stop1 & Ha & Hwf1 & Hsub1); [apply Hl; left|].
    destruct (IH s1 stop1 Hwf1 Hnd) as (st' & stop' & Hok & Hwf' & Hsub).
    { intros k Hk.
      assert (a ≠ k) by (intros ->; done).
      destruct (missing_track_frame _ _ _ _ _ _ _ k Ha) as [Hat _];
        [done|].
      apply track_at_eq in Hat as (-> & _). apply Hl. by right. }
    exists st', stop'. rewrite (foldM_cons_Ok _ _ _ _ _ Ha).
    split; [done|]. split; [done|]. intros k w Hw. by apply Hsub1, Hsub.
Qed.

(** *** Fourth loop *)

Lemma dead_loop_total st l pos vel :
  wf st →
  ∃ pos' vel',
    foldM (dead_reckon_track st) l (pos, vel) = Ok (pos', vel').
Proof.
  intros Hwf. revert pos vel. induction l as [|a l IH]; intros pos vel.
  - by exists pos, vel.
  - assert (∃ p1 v1, dead_reckon_track st a (pos, vel) = Ok (p1, v1))
      as (p1 & v1 & Ha).
    { unfold dead_reckon_track.
      destruct (track_id_kf_model_dict st !! a) as [t|] eqn:Hkf;
        [|by eexists _, _].
      destruct (wf_filter _ Hwf a) as [[q Hq] [fps Hf]]; [by eexists|].
      destruct (wf_queue _ Hwf _ _ Hq) as [_ Hne].
      destruct (nonempty_ends _ Hne) as (_ & c & _ & Hc & _).
      apply deque_last_Ok in Hc.
      rewrite (proj2 (dict_get_Ok _ _ _) Hf). simpl.
      rewrite (proj2 (dict_get_Ok _ _ _) Hq). simpl. rewrite Hc. simpl.
      by eexists _, _. }
    destruct (IH p1 v1) as (pos' & vel' & Hok).
    exists pos', vel'. by rewrite (foldM_cons_Ok _ _ _ _ _ Ha).
Qed.

(** One message in order, on a well-formed state: no exception, and the
    state stays well-formed. *)
Lemma tracked_boxes_cb_total msg st :
  wf st → in_order msg st →
  ∃ st' out,
    tracked_boxes_cb cfg msg st = Ok (st', out)
    ∧ wf st'
    ∧ recorded_upto st' (stamp msg).
Proof.
  intros Hwf [Hnewer Hdistinct Hfresh].
  destruct (ingest_loop_total msg (tracked_boxes msg) st [] Hwf Hdistinct)
    as (st1 & alive & H1 & Hwf1 & Hpost1).
  { intros b w t Hb Hw Ht. split; [by apply (Hnewer _ _ _ Hw)|].
    by apply (Hfresh b w t). }
  pose proof (ingest_alive _ _ _ _ _ _ _ H1) as Halive. simpl in Halive.
  change (map track_id (List.filter is_tracked_class (tracked_boxes msg)))
    with (detected_ids msg) in *. subst alive.
  destruct (predict_loop_total (detected_ids msg) st1 ∅ ∅ Hwf1)
    as (st2 & pos & vel & H2 & Hwf2).
  { intros k Hk. split; [by apply Hpost1|].
    destruct (ingest_detected _ _ _ _ _ _ _ _ H1 Hk) as (_ & q & -> & _).
    by eexists. }
  destruct (missing_loop_total (stamp msg)
              (elements (missing_ids st2 (detected_ids msg))) st2 ∅ Hwf2)
    as (st3 & stop & H3 & Hwf3 & Hsub3).
  { apply NoDup_elements. }
  { intros k Hk%elem_of_elements.
    by apply elem_of_missing_ids in Hk as [? _]. }
  destruct (dead_loop_total st3
              (elements (missing_ids st2 (detected_ids msg) ∖ stop))
              pos vel Hwf3) as (pos' & vel' & H4).
  eexists st3, _. split; [|split; [done|]].
  - unfold tracked_boxes_cb, ingest_loop.
    rewrite H1. simpl. rewrite H2. simpl. rewrite H3. simpl.
    rewrite H4. simpl. reflexivity.
  - intros k w t Hw Ht. apply Hsub3 in Hw.
    apply predict_loop_keeps in H2 as (_ & _ & _ & _ & Hts2).
    rewrite Hts2 in Hw.
    destruct (decide (k ∈ detected_ids msg)) as [Hin|Hnin].
    + destruct (Hpost1 k Hin) as [_ Hupto]. by apply (Hupto w t).
    + apply (ingest_frame _ _ _ _ _ _ _ _ H1), track_at_eq in Hnin
        as (_ & _ & _ & _ & _ & Hts1 & _).
      rewrite Hts1 in Hw. apply Z.lt_le_incl. by apply (Hnewer k w t).
Qed.

(** C3 (as amended). With [input_time >= 2] and [fps_est_time >= 1], from a
    well-formed registry state (the initial state is one) whose recorded
    timestamps are at most [T], every sequence of messages that arrive in
    order after [T] (stamps strictly increasing, no id twice in a message,
    no stale box) is processed to its end without any exception, message
    after message, and leaves a well-formed state. Outside these conditions
    the callback can raise: there is no guard against a zero elapsed time
    on line 260 nor against a missing rate on line 307. *)
Theorem in_order_messages_are_processed msgs st T :
  wf st → recorded_upto st T → arrive_in_order T msgs →
  ∃ st', run cfg msgs st = Ok st' ∧ wf st'.
Proof.
  revert st T. induction msgs as [|msg msgs IH]; intros st T Hwf Hupto Hord.
  - by exists st.
  - destruct Hord as (Hnewer & Hdistinct & Hfresh & Hrest).
    destruct (tracked_boxes_cb_total msg st Hwf)
      as (st1 & out & Hcb & Hwf1 & Hupto1).
    { split; [|done|].
      - intros k w t Hw Ht. pose proof (Hupto k w t Hw Ht). lia.
      - intros b w t Hb Hw Ht.
        pose proof (Hupto _ w t Hw Ht). pose proof (Hfresh b Hb). lia. }
    destruct (IH st1 (stamp msg) Hwf1 Hupto1 Hrest) as (st' & Hrun & Hwf').
    exists st'. split; [|done].
    unfold run in *. rewrite (foldM_cons_Ok _ _ _ _ st1); [done|].
    by rewrite Hcb.
Qed.

End Total.

Lemma in_order_messages_are_processed_witness :
  ∃ st', replay (seen_upto 3 ++ [empty_batch 3]) init_state = Ok st' ∧ wf st'.
Proof.
  apply (@in_order_messages_are_processed Filterpy.lib cfg)
    with (T := -1).
  - vm_compute. lia.
  - vm_compute. lia.
  - exact wf_init.
  - intros k w t Hw. cbn in Hw. by rewrite lookup_empty in Hw.
  - assert (Hone : ∀ k : Z, NoDup [k]).
    { intros k. apply NoDup_cons. split; [|apply NoDup_nil_2].
      intros Hin. inversion Hin. }
    assert (Hbox : ∀ (T t : Z) x b,
               T ≤ sec t →
               b ∈ (if is_tracked_class (person 7 x 0 (sec t))
                    then [person 7 x 0 (sec t)] else []) →
               T ≤ box_stamp b).
    { intros T t x b HT Hb.
      change (is_tracked_class (person 7 x 0 (sec t))) with true in Hb.
      apply list_elem_of_singleton in Hb. by subst b. }
    cbn -[sec person]. unfold detected_ids, tracked. cbn -[sec person].
    repeat split; try apply Hone; try apply NoDup_nil_2;
      try (vm_compute; reflexivity);
      try (intros b Hb; inversion Hb; fail);
      intros b Hb; (eapply Hbox; [|exact Hb]); vm_compute; discriminate.
Defined.

(** The callback raises on a repeated message stamp (zero seconds between
    the stamp and the oldest recorded one), and, with [input_time = 1], on
    the first detection of a track (its rate has not been computed when
    line 307 reads it). *)
Lemma callback_raises_counterexample :
  let cfg1 := {| input_time := 1;
                 duration_inactive_to_remove := 5;
                 duration_inactive_to_stop_publish := 2;
                 fps_est_time := 4 |} in
  cb (seen 0 0) (state_after [seen 0 0]) = Err ZeroDivisionError
  ∧ @tracked_boxes_cb Filterpy.lib cfg1 (seen 0 0) init_state = Err KeyError.
Proof. vm_compute. split; reflexivity. Qed.

(** * Further properties of the callback *)

Lemma fps_of_sign (w : deque Z) (now oldest : Z) :
  items w ≠ [] →
  ((0 < fps_of w now oldest)%Q ↔ oldest < now)
  ∧ ((fps_of w now oldest < 0)%Q ↔ now < oldest).
Proof.
  intros Hne. unfold fps_of, seconds_between.
  rewrite !Qred_correct.
  assert (Hn : 0 < Z.of_nat (length (items w))).
  { destruct (items w); [done|]. simpl. lia. }
  revert Hn. generalize (Z.of_nat (length (items w))). intros n Hn.
  assert (H1 : oldest < now ↔ 0 < now - oldest) by lia.
  assert (H2 : now < oldest ↔ now - oldest < 0) by lia.
  rewrite H1, H2. clear H1 H2. generalize (now - oldest) as d. intros d.
  unfold Qlt, Qdiv, Qmult, Qinv, inject_Z. cbn [Qnum Qden].
  destruct d as [|p|p]; rewrite ?Z.mul_1_r; simpl; rewrite ?Z.mul_1_r; nia.
Qed.

Section More.
Context `{!FilterLib}.
Variable cfg : Config.
Implicit Types (st : State) (k : Z) (msg : TrackedBoxes).

Lemma ingest_skips_untracked msg' boxes s :
  foldM (ingest_box cfg msg') (List.filter is_tracked_class boxes) s
  = foldM (ingest_box cfg msg') boxes s.
Proof.
  revert s. induction boxes as [|b boxes IH]; intros [st alive]; [done|].
  rewrite filter_cons_tracked. destruct (is_tracked_class b) eqn:Hc.
  - cbn [foldM]. destruct (ingest_box cfg msg' b (st, alive)); [|done].
    apply IH.
  - rewrite (foldM_cons_Ok _ b boxes (st, alive) (st, alive)); [apply IH|].
    unfold ingest_box. by rewrite Hc.
Qed.

(** X1. Boxes whose class is neither person nor obstacle have no effect at
    all: the callback gives the same result (state, output or exception)
    on a message and on the message without them. *)
Theorem other_classes_are_ignored msg st :
  tracked_boxes_cb cfg (only_tracked msg) st = tracked_boxes_cb cfg msg st.
Proof.
  unfold tracked_boxes_cb, ingest_loop.
  change (ingest_box cfg (only_tracked msg)) with (ingest_box cfg msg).
  change (tracked_boxes (only_tracked msg))
    with (List.filter is_tracked_class (tracked_boxes msg)).
  by rewrite ingest_skips_untracked.
Qed.

End More.

Lemma update_fps_inv cfg msg tbox st st' :
  update_fps cfg msg tbox st = Ok st' →
  (st' = st ∧ is_Some (track_prev_predict_timestamp st !! track_id tbox))
  ∨ (∃ w fps,
       track_prev_predict_timestamp st !! track_id tbox = Some w
       ∧ items w ≠ []
       ∧ st' = set_ts (<[track_id tbox := deque_append w (stamp msg)]>
                         (track_prev_predict_timestamp st))
                 (set_fps (<[track_id tbox := fps]> (track_predict_fps st))
                          st))
  ∨ (track_prev_predict_timestamp st !! track_id tbox = None
     ∧ st' = set_ts (<[track_id tbox :=
                       deque_append (new_deque (fps_est_time cfg))
                                    (stamp msg)]>
                       (track_prev_predict_timestamp st)) st).
Proof.
  unfold update_fps. intros Hok.
  destruct (track_prev_predict_timestamp st !! track_id tbox) as [w|] eqn:Hw.
  - apply bind_Ok in Hok as (t_last & Hl & Hok).
    destruct (box_stamp tbox <? t_last).
    + left. injection Hok as <-. split; [done|by eexists].
    + right; left.
      apply bind_Ok in Hok as (t_first & Hf & Hok).
      apply bind_Ok in Hok as (fps & _ & Hok). injection Hok as <-.
      exists w, fps. split; [done|]. split; [|done].
      apply deque_first_Ok in Hf. by destruct (items w).
  - right; right. by injection Hok as <-.
Qed.

Lemma fits_append {A} (d : deque A) x n :
  maxlen d = n ∧ (length (items d) ≤ n)%nat →
  maxlen (deque_append d x) = n
  ∧ (length (items (deque_append d x)) ≤ n)%nat.
Proof.
  intros [<- _]. split; [done|]. rewrite length_items_append. lia.
Qed.

Section MoreLoops.
Context `{!FilterLib}.
Variable cfg : Config.
Implicit Types (st : State) (k : Z) (msg : TrackedBoxes).

(** *** Tracks the callback does not know *)

Lemma cb_unknown msg st st' out k :
  tracked_boxes_cb cfg msg st = Ok (st', out) →
  k ∉ detected_ids msg →
  track_input_queue_dict st !! k = None →
  track_at st' k = track_at st k
  ∧ track_pos_dict out !! k = None ∧ track_vel_dict out !! k = None.
Proof.
  intros Hok Hk Hq.
  apply tracked_boxes_cb_inv in Hok
    as (st1 & st2 & pos & vel & stop & H1 & H2 & H3 & H4 & _).
  pose proof (ingest_frame _ _ _ _ _ _ _ k H1 Hk) as Hat1.
  pose proof (predict_loop_keeps _ _ _ _ _ _ _ _ H2)
    as (Hq2 & Hc2 & Hm2 & Hf2 & Ht2).
  pose proof (predict_loop_frame _ _ _ _ _ _ _ _ k H2 Hk)
    as (Hk2 & Hv2 & Hpos & Hvel).
  rewrite lookup_empty in Hpos, Hvel.
  assert (Hat2 : track_at st2 k = track_at st k).
  { rewrite <- Hat1. unfold track_at. congruence. }
  assert (Hnin : k ∉ missing_ids st2 (detected_ids msg)).
  { rewrite elem_of_missing_ids.
    apply track_at_eq in Hat2 as (-> & _). rewrite Hq.
    intros [[? ?] _]. done. }
  destruct (missing_loop_frame _ _ _ _ _ _ _ k H3) as [Hat3 _].
  { by rewrite elem_of_elements. }
  destruct (dead_loop_frame _ _ _ _ _ _ k H4) as [Hp Hv].
  { rewrite elem_of_elements, elem_of_difference. tauto. }
  split; [congruence|]. by rewrite Hp, Hv.
Qed.

Lemma predict_loop_bootstrap l st pos vel st' pos' vel' k q :
  foldM (predict_track cfg) l (st, pos, vel) = Ok (st', pos', vel') →
  k ∈ l →
  track_id_kf_model_dict st !! k = None →
  track_input_queue_dict st !! k = Some q →
  (input_time cfg ≤ length (items q))%nat →
  ∃ c, last (items q) = Some c
       ∧ track_id_kf_model_dict st' !! k
         = Some (Nat.iter (count_occ Z.eq_dec l k - 1)
                          (λ t, kf_step t (xy c))
                          (foldl kf_step (new_tracker (xy c))
                                 (map xy (items q))))
       ∧ pos' !! k = Some (xy c).
Proof.
  revert st pos vel. induction l as [|a l IH]; intros st pos vel.
  - by intros _ ?%elem_of_nil.
  - intros Hok Hk Hkf Hq Hlen. cbn [foldM] in Hok.
    apply bind_Ok in Hok as ([[s1 p1] v1] & Ha & Hok).
    pose proof (predict_track_keeps _ _ _ _ _ _ _ _ Ha) as (Hq1 & _).
    destruct (Z.eq_dec a k) as [->|Hne].
    + apply predict_track_inv in Ha as (q' & Hq' & Hcase).
      rewrite Hq in Hq'. injection Hq' as <-.
      destruct Hcase as [(_ & Hlt & _)
                        |(c & fps & w & tl & tr & Hc & Htr & _ & _ & _
                          & -> & -> & ->)]; [lia|].
      destruct Htr as [(_ & _ & ->)|(t0 & Ht0 & _)]; [|congruence].
      exists c. split; [done|].
      destruct (predict_loop_filtered _ _ _ _ _ _ _ _ k
                  (foldl kf_step (new_tracker (xy c)) (map xy (items q)))
                  q c Hok) as [Hkf' Hpos']; [by cbn; rewrite lookup_insert_eq
                                            | done | done |].
      rewrite Hkf'. split.
      * rewrite count_occ_cons_eq by done.
        by replace (S (count_occ Z.eq_dec l k) - 1)%nat
          with (count_occ Z.eq_dec l k) by lia.
      * destruct (decide (k ∈ l)) as [Hin|Hnin]; [by apply Hpos'|].
        apply (predict_loop_frame _ _ _ _ _ _ _ _ k Hok) in Hnin
          as (_ & _ & -> & _).
        by rewrite lookup_insert_eq.
    + apply elem_of_cons in Hk as [?|Hk]; [congruence|].
      apply (predict_track_frame _ _ _ _ _ _ _ _ k) in Ha
        as (Hkf1 & _); [|done].
      destruct (IH _ _ _ Hok Hk) as (c & Hc & Hkf' & Hpos');
        [congruence | congruence | done |].
      exists c. by rewrite count_occ_cons_neq.
Qed.

End MoreLoops.

Section Sound.
Context `{!FilterLib}.
Variable cfg : Config.
Implicit Types (st : State) (k : Z) (msg : TrackedBoxes).

Lemma sound_init : sound cfg init_state.
Proof.
  split; cbn; intros k.
  - intros q Hq. by rewrite lookup_empty in Hq.
  - intros w Hw. by rewrite lookup_empty in Hw.
  - intros h Hh. by rewrite lookup_empty in Hh.
  - intros [t Ht]. by rewrite lookup_empty in Ht.
  - intros [q Hq]. by rewrite lookup_empty in Hq.
Qed.

Lemma enqueue_box_fits tbox st :
  sound cfg st →
  ∃ q, track_input_queue_dict (enqueue_box cfg tbox st) !! track_id tbox
       = Some q
       ∧ maxlen q = input_time cfg
       ∧ (length (items q) ≤ input_time cfg)%nat.
Proof.
  intros Hs. rewrite enqueue_box_queue. eexists. split; [done|].
  apply fits_append.
  destruct (track_input_queue_dict st !! track_id tbox) as [q0|] eqn:Hq0;
    simpl; [by apply (sound_queue _ _ Hs (track_id tbox))|].
  split; [done|lia].
Qed.

(** The state after one box: the queue and missing time of [enqueue_box],
    with some update of the timestamp windows. *)
Lemma sound_after_box tbox st st' :
  sound cfg st →
  track_input_queue_dict st'
  = track_input_queue_dict (enqueue_box cfg tbox st) →
  track_id_missing_time_dict st'
  = track_id_missing_time_dict (enqueue_box cfg tbox st) →
  track_color_dict st' = track_color_dict (enqueue_box cfg tbox st) →
  track_vel_hist_dict st' = track_vel_hist_dict st →
  (∀ k w, track_prev_predict_timestamp st' !! k = Some w →
          maxlen w = fps_est_time cfg
          ∧ (length (items w) ≤ fps_est_time cfg)%nat) →
  sound cfg st'.
Proof.
  intros Hs Hq Hm Hc Hv Hwin.
  destruct (enqueue_box_fits tbox st Hs) as (q1 & Hq1 & Hq1m & Hq1l).
  constructor.
  - intros k q. rewrite Hq.
    destruct (decide (track_id tbox = k)) as [<-|Hne].
    + rewrite Hq1. by intros [= <-].
    + unfold enqueue_box. cbn. rewrite lookup_insert_ne by done.
      apply (sound_queue _ _ Hs k).
  - exact Hwin.
  - intros k h. rewrite Hv. apply (sound_hist _ _ Hs).
  - intros k. rewrite Hm, Hq. unfold enqueue_box, dict_discard. cbn.
    rewrite lookup_delete_is_Some. intros [Hne Hm'].
    rewrite lookup_insert_ne by done. by apply (sound_missing _ _ Hs).
  - intros k. rewrite Hq, Hc. unfold enqueue_box. cbn.
    destruct (decide (track_id tbox = k)) as [<-|Hne].
    + rewrite !lookup_insert_eq. by eexists.
    + rewrite !lookup_insert_ne by done. apply (sound_colour _ _ Hs).
Qed.

Lemma ingest_box_sound msg tbox st alive st' alive' :
  ingest_box cfg msg tbox (st, alive) = Ok (st', alive') →
  sound cfg st → sound cfg st'.
Proof.
  intros Hok Hs.
  apply ingest_box_inv in Hok as [(_ & -> & _)|(Hc & Hb & _)]; [done|].
  apply update_fps_inv in Hb
    as [(-> & Hts)|[(w & fps & Hw & Hwne & ->)|(Hw & ->)]];
    rewrite enqueue_box_ts in *;
    apply (sound_after_box tbox st); try done; cbn.
  - apply (sound_window _ _ Hs).
  - intros k w'. destruct (decide (track_id tbox = k)) as [<-|Hne].
    + rewrite lookup_insert_eq. intros [= <-]. apply fits_append.
      by apply (sound_window _ _ Hs (track_id tbox)).
    + rewrite lookup_insert_ne by done. apply (sound_window _ _ Hs).
  - intros k w'. destruct (decide (track_id tbox = k)) as [<-|Hne].
    + rewrite lookup_insert_eq. intros [= <-]. apply fits_append.
      simpl. split; [done|lia].
    + rewrite lookup_insert_ne by done. apply (sound_window _ _ Hs).
Qed.

Lemma ingest_loop_sound msg boxes st alive st' alive' :
  foldM (ingest_box cfg msg) boxes (st, alive) = Ok (st', alive') →
  sound cfg st → sound cfg st'.
Proof.
  revert st alive. induction boxes as [|b boxes IH]; intros st alive; simpl.
  - by intros [= <- <-].
  - intros Hok Hs. apply bind_Ok in Hok as ([s1 al1] & Hb & Hok).
    apply (IH _ _ Hok). by apply (ingest_box_sound _ _ _ _ _ _ Hb).
Qed.

Lemma predict_track_sound id st pos vel st' pos' vel' :
  predict_track cfg id (st, pos, vel) = Ok (st', pos', vel') →
  sound cfg st → sound cfg st'.
Proof.
  intros Hok Hs. apply predict_track_inv in Hok as (q & Hq & Hcase).
  destruct Hcase as [(_ & _ & -> & _)
                    |(c & fps & w & tl & tr & _ & _ & Hf & _ & _ & -> & _)];
    [done|].
  constructor; cbn; try apply Hs.
  intros k h. destruct (decide (id = k)) as [<-|Hne].
  - rewrite lookup_insert_eq. intros [= <-]. apply fits_append.
    destruct (track_vel_hist_dict st !! id) as [h0|] eqn:Hh0; simpl.
    + by apply (sound_hist _ _ Hs id).
    + split; [done|lia].
  - rewrite lookup_insert_ne by done. apply (sound_hist _ _ Hs).
Qed.

Lemma predict_loop_sound l st pos vel st' pos' vel' :
  foldM (predict_track cfg) l (st, pos, vel) = Ok (st', pos', vel') →
  sound cfg st → sound cfg st'.
Proof.
  revert st pos vel. induction l as [|a l IH]; intros st pos vel; simpl.
  - by intros [= <- <- <-].
  - intros Hok Hs. apply bind_Ok in Hok as ([[s1 p1] v1] & Ha & Hok).
    apply (IH _ _ _ Hok). by apply (predict_track_sound _ _ _ _ _ _ _ Ha).
Qed.

(** What the third loop leaves of a track: nothing, or what there was
    with a missing time only if there is a queue. *)
Lemma missing_track_view now id st stop st' stop' k :
  missing_track cfg now id (st, stop) = Ok (st', stop') →
  is_Some (track_input_queue_dict st !! id) →
  (∀ k, is_Some (track_id_missing_time_dict st !! k) →
        is_Some (track_input_queue_dict st !! k)) →
  track_vel_hist_dict st' !! k = track_vel_hist_dict st !! k
  ∧ ((track_input_queue_dict st' !! k = None
      ∧ track_color_dict st' !! k = None
      ∧ track_id_kf_model_dict st' !! k = None
      ∧ track_id_missing_time_dict st' !! k = None
      ∧ track_predict_fps st' !! k = None
      ∧ track_prev_predict_timestamp st' !! k = None)
     ∨ (track_input_queue_dict st' !! k = track_input_queue_dict st !! k
        ∧ track_color_dict st' !! k = track_color_dict st !! k
        ∧ track_id_kf_model_dict st' !! k = track_id_kf_model_dict st !! k
        ∧ (is_Some (track_id_missing_time_dict st' !! k) →
           is_Some (track_input_queue_dict st !! k))
        ∧ track_predict_fps st' !! k = track_predict_fps st !! k
        ∧ track_prev_predict_timestamp st' !! k
          = track_prev_predict_timestamp st !! k)).
Proof.
  intros Hok Hknown Hmq.
  pose proof (missing_track_at _ _ _ _ _ _ _ Hok) as (_ & Hvh & Hgone & Hkept).
  destruct (decide (id = k)) as [<-|Hne].
  - split; [done|].
    destruct (Qgtb (absence st now id) (duration_inactive_to_remove cfg)).
    + left. by apply Hgone.
    + right. destruct (Hkept eq_refl) as (-> & -> & -> & _ & -> & ->).
      by repeat split.
  - destruct (missing_track_frame _ _ _ _ _ _ _ k Hok Hne) as [Hat _].
    apply track_at_eq in Hat as (-> & -> & -> & -> & -> & -> & ->).
    split; [done|]. right. repeat split; try done. apply Hmq.
Qed.

Lemma missing_track_sound now id st stop st' stop' :
  missing_track cfg now id (st, stop) = Ok (st', stop') →
  is_Some (track_input_queue_dict st !! id) →
  sound cfg st → sound cfg st'.
Proof.
  intros Hok Hknown Hs.
  pose proof (λ k, missing_track_view _ _ _ _ _ _ k Hok Hknown
                     (sound_missing _ _ Hs)) as Hview.
  constructor.
  - intros k q Hq. destruct (Hview k) as [_ [(Hn & _)|(He & _)]];
      [congruence|]. rewrite He in Hq. by apply (sound_queue _ _ Hs k).
  - intros k w Hw.
    destruct (Hview k) as [_ [(_ & _ & _ & _ & _ & Hn)
                             |(_ & _ & _ & _ & _ & He)]];
      [congruence|]. rewrite He in Hw. by apply (sound_window _ _ Hs k).
  - intros k h Hh. destruct (Hview k) as [Hv _].
    apply (sound_hist _ _ Hs k). by etrans; [symmetry; exact Hv|].
  - intros k Hm.
    destruct (Hview k) as [_ [(_ & _ & _ & Hn & _)|(He & _ & _ & Hmq & _)]].
    + rewrite Hn in Hm. by destruct Hm.
    + rewrite He. by apply Hmq.
  - intros k Hq.
    destruct (Hview k) as [_ [(Hn & _)|(He & Hc & _)]].
    + rewrite Hn in Hq. by destruct Hq.
    + rewrite Hc. apply (sound_colour _ _ Hs). by rewrite <- He.
Qed.

Lemma missing_loop_sound now l st stop st' stop' :
  foldM (missing_track cfg now) l (st, stop) = Ok (st', stop') →
  NoDup l →
  (∀ k, k ∈ l → is_Some (track_input_queue_dict st !! k)) →
  sound cfg st → sound cfg st'.
Proof.
  revert st stop. induction l as [|a l IH]; intros st stop; simpl.
  - by intros [= <- <-].
  - intros Hok [Ha_l Hnd]%NoDup_cons Hl Hs.
    apply bind_Ok in Hok as ([s1 stop1] & Ha & Hok).
    apply (IH _ _ Hok Hnd).
    + intros k Hk. assert (a ≠ k) by (intros ->; done).
      destruct (missing_track_frame _ _ _ _ _ _ _ k Ha) as [Hat _]; [done|].
      apply track_at_eq in Hat as (-> & _). apply Hl. by right.
    + apply (missing_track_sound _ _ _ _ _ _ Ha); [|done]. apply Hl. left.
Qed.

(** Every completed callback keeps the registry sound. *)
Lemma tracked_boxes_cb_sound msg st st' out :
  tracked_boxes_cb cfg msg st = Ok (st', out) →
  sound cfg st → sound cfg st'.
Proof.
  intros Hok Hs.
  apply tracked_boxes_cb_inv in Hok
    as (st1 & st2 & pos & vel & stop & H1 & H2 & H3 & _).
  apply (missing_loop_sound _ _ _ _ _ _ H3).
  - apply NoDup_elements.
  - intros k Hk%elem_of_elements. by apply elem_of_missing_ids in Hk as [? _].
  - apply (predict_loop_sound _ _ _ _ _ _ _ H2).
    by apply (ingest_loop_sound _ _ _ _ _ _ H1).
Qed.

Lemma run_invariant (P : State → Prop) msgs st st' :
  (∀ msg s s' out, tracked_boxes_cb cfg msg s = Ok (s', out) → P s → P s') →
  run cfg msgs st = Ok st' → P st → P st'.
Proof.
  intros Hstep. unfold run. revert st.
  induction msgs as [|msg msgs IH]; intros st; simpl.
  - by intros [= <-].
  - intros Hok Hst. apply bind_Ok in Hok as (s1 & Hcb & Hok).
    apply bind_Ok in Hcb as ([s1' out] & Hcb & Heq). injection Heq as ->.
    apply (IH _ Hok). by apply (Hstep _ _ _ _ Hcb).
Qed.

Lemma reachable_sound msgs st :
  run cfg msgs init_state = Ok st → sound cfg st.
Proof.
  intros Hrun. apply (run_invariant (sound cfg) _ _ _) in Hrun; [done|..].
  - apply tracked_boxes_cb_sound.
  - apply sound_init.
Qed.

Lemma ingest_queue_grows msg boxes st alive st' alive' k q :
  foldM (ingest_box cfg msg) boxes (st, alive) = Ok (st', alive') →
  sound cfg st →
  track_input_queue_dict st !! k = Some q →
  ∃ q', track_input_queue_dict st' !! k = Some q'
        ∧ (length (items q) ≤ length (items q'))%nat.
Proof.
  revert st alive q. induction boxes as [|b boxes IH]; intros st alive q.
  - intros [= <- <-] _ Hq. by exists q.
  - intros Hok Hs Hq. cbn [foldM] in Hok.
    apply bind_Ok in Hok as ([s1 al1] & Hb & Hok).
    pose proof (ingest_box_sound _ _ _ _ _ _ Hb Hs) as Hs1.
    assert (∃ q1, track_input_queue_dict s1 !! k = Some q1
                  ∧ (length (items q) ≤ length (items q1))%nat)
      as (q1 & Hq1 & Hle1).
    { apply ingest_box_inv in Hb as [(_ & -> & _)|(Hc & Hb & _)];
        [by exists q|].
      apply update_fps_keeps in Hb as (-> & _).
      destruct (decide (track_id b = k)) as [<-|Hne].
      - rewrite enqueue_box_queue, Hq. eexists. split; [done|].
        destruct (sound_queue _ _ Hs _ _ Hq) as [Hm Hl].
        rewrite length_items_append. cbn -[Nat.min]. lia.
      - exists q. split; [|done]. unfold enqueue_box. cbn.
        by rewrite lookup_insert_ne. }
    destruct (IH _ _ _ Hok Hs1 Hq1) as (q' & Hq' & Hle').
    exists q'. split; [done|lia].
Qed.

Lemma tracked_boxes_cb_filter_iff_full msg st st' out :
  tracked_boxes_cb cfg msg st = Ok (st', out) →
  sound cfg st → filter_iff_full cfg st → filter_iff_full cfg st'.
Proof.
  intros Hok Hs Hiff k.
  destruct (decide (k ∈ detected_ids msg)) as [Hk|Hk].
  - destruct (cb_detected _ _ _ _ _ k Hok Hk)
      as (st1 & st2 & pos & vel & H1 & H2 & Hat & _).
    apply track_at_eq in Hat as (-> & _ & -> & _).
    pose proof (ingest_loop_sound _ _ _ _ _ _ H1 Hs) as Hs1.
    destruct (ingest_detected _ _ _ _ _ _ _ k H1 Hk) as (_ & q1 & Hq1 & _).
    destruct (sound_queue _ _ Hs1 _ _ Hq1) as [_ Hle1].
    pose proof (ingest_keeps _ _ _ _ _ _ _ H1) as [Hkf1 _].
    pose proof (predict_loop_keeps _ _ _ _ _ _ _ _ H2) as (Hq2 & _).
    rewrite Hq2, Hq1.
    destruct (track_id_kf_model_dict st !! k) as [t|] eqn:Hkf.
    + destruct (proj1 (Hiff k)) as (q0 & Hq0 & Hfull0);
        [rewrite Hkf; by eexists|].
      destruct (ingest_queue_grows _ _ _ _ _ _ _ _ H1 Hs Hq0)
        as (q1' & Hq1' & Hge).
      rewrite Hq1 in Hq1'. injection Hq1' as <-.
      rewrite <- Hkf1 in Hkf.
      destruct (predict_loop_nonempty _ _ _ _ _ _ _ _ k t q1 H2 Hk Hkf Hq1)
        as [c Hc].
      destruct (predict_loop_filtered _ _ _ _ _ _ _ _ k t q1 c H2 Hkf Hq1 Hc)
        as [-> _].
      split; [|by eexists]. intros _. exists q1. split; [done|lia].
    + rewrite <- Hkf1 in Hkf.
      destruct (decide (length (items q1) < input_time cfg)%nat)
        as [Hshort|Hfull].
      * destruct (predict_loop_short _ _ _ _ _ _ _ _ k q1 H2 Hkf Hq1 Hshort)
          as (-> & _).
        split; [by intros [? ?]|]. intros (q & [= <-] & Hq). lia.
      * destruct (predict_loop_bootstrap _ _ _ _ _ _ _ _ k q1 H2 Hk Hkf Hq1)
          as (c & _ & -> & _); [lia|].
        split; [|by eexists]. intros _. exists q1. split; [done|lia].
  - destruct (track_input_queue_dict st !! k) as [q|] eqn:Hq.
    + destruct (cb_absent _ _ _ _ _ k Hok Hk) as
        (stop & (_ & _ & Hgone & Hkept) & _); [by eexists|].
      destruct (Qgtb (absence st (stamp msg) k)
                     (duration_inactive_to_remove cfg)).
      * destruct (Hgone eq_refl) as (-> & _ & -> & _).
        split; [by intros [? ?]|]. by intros (? & ? & _).
      * destruct (Hkept eq_refl) as (-> & _ & -> & _). apply Hiff.
    + destruct (cb_unknown _ _ _ _ _ k Hok Hk Hq) as [Hat _].
      apply track_at_eq in Hat as (-> & _ & -> & _). apply Hiff.
Qed.

(** X2. In every state
    reached from the initial one through completed callbacks, every
    position queue was made for [input_time] entries and holds at most that
    many, and every timestamp window and every velocity history was made
    for [fps_est_time] entries and holds at most that many. *)
Theorem buffers_stay_bounded msgs st :
  run cfg msgs init_state = Ok st →
  (∀ k q, track_input_queue_dict st !! k = Some q →
          maxlen q = input_time cfg
          ∧ (length (items q) ≤ input_time cfg)%nat)
  ∧ (∀ k w, track_prev_predict_timestamp st !! k = Some w →
            maxlen w = fps_est_time cfg
            ∧ (length (items w) ≤ fps_est_time cfg)%nat)
  ∧ (∀ k h, track_vel_hist_dict st !! k = Some h →
            maxlen h = fps_est_time cfg
            ∧ (length (items h) ≤ fps_est_time cfg)%nat).
Proof.
  intros Hs%reachable_sound.
  split; [apply (sound_queue _ _ Hs)|].
  split; [apply (sound_window _ _ Hs) | apply (sound_hist _ _ Hs)].
Qed.

Lemma reachable_filter_iff_full msgs st :
  run cfg msgs init_state = Ok st → sound cfg st ∧ filter_iff_full cfg st.
Proof.
  intros Hrun.
  apply (run_invariant (λ s, sound cfg s ∧ filter_iff_full cfg s) _ _ _)
    in Hrun; [done|..].
  - intros msg s s' out Hcb [Hs Hiff]. split.
    + by apply (tracked_boxes_cb_sound _ _ _ _ Hcb).
    + by apply (tracked_boxes_cb_filter_iff_full _ _ _ _ Hcb).
  - split; [apply sound_init|]. intros k. cbn. rewrite !lookup_empty.
    split; [by intros [? ?]|]. by intros (? & ? & _).
Qed.

(** X4. In every reachable state a track has a
    Kalman filter exactly when its position queue holds [input_time]
    entries. *)
Theorem filter_exists_iff_queue_full msgs st k :
  run cfg msgs init_state = Ok st →
  is_Some (track_id_kf_model_dict st !! k) ↔
  ∃ q, track_input_queue_dict st !! k = Some q
       ∧ length (items q) = input_time cfg.
Proof. intros [_ Hiff]%reachable_filter_iff_full. apply Hiff. Qed.

(** X5. After a callback on a reachable state
    a track has a missing time exactly when it is known (has a queue) and
    was not detected in the message. *)
Theorem missing_time_iff_absent msgs st msg st' out k :
  run cfg msgs init_state = Ok st →
  tracked_boxes_cb cfg msg st = Ok (st', out) →
  is_Some (track_id_missing_time_dict st' !! k) ↔
  is_Some (track_input_queue_dict st' !! k) ∧ k ∉ detected_ids msg.
Proof.
  intros Hs%reachable_sound Hok.
  pose proof (tracked_boxes_cb_sound _ _ _ _ Hok Hs) as Hs'.
  split.
  - intros Hm. split; [by apply (sound_missing _ _ Hs')|].
    intros Hk.
    destruct (cb_detected _ _ _ _ _ k Hok Hk)
      as (st1 & st2 & pos & vel & H1 & H2 & Hat & _).
    apply track_at_eq in Hat as (_ & _ & _ & Hm' & _).
    apply predict_loop_keeps in H2 as (_ & _ & Hm2 & _).
    apply (ingest_detected _ _ _ _ _ _ _ k) in H1 as [Hm1 _]; [|done].
    rewrite Hm', Hm2, Hm1 in Hm. by destruct Hm.
  - intros [Hq Hk].
    destruct (track_input_queue_dict st !! k) as [q|] eqn:Hq0.
    + destruct (cb_absent _ _ _ _ _ k Hok Hk) as
        (stop & (_ & _ & Hgone & Hkept) & _); [by eexists|].
      destruct (Qgtb (absence st (stamp msg) k)
                     (duration_inactive_to_remove cfg)).
      * destruct (Hgone eq_refl) as (Hn & _). rewrite Hn in Hq.
        by destruct Hq.
      * destruct (Hkept eq_refl) as (_ & _ & _ & -> & _). by eexists.
    + destruct (cb_unknown _ _ _ _ _ k Hok Hk Hq0) as [Hat _].
      apply track_at_eq in Hat as (Hq' & _). rewrite Hq', Hq0 in Hq.
      by destruct Hq.
Qed.

End Sound.

(** * What is handed on, and what is left alone *)

Section Handed.
Context `{!FilterLib}.
Variable cfg : Config.
Implicit Types (st : State) (k : Z) (msg : TrackedBoxes).

Lemma predict_track_published id st pos vel st' pos' vel' :
  predict_track cfg id (st, pos, vel) = Ok (st', pos', vel') →
  published_from st pos vel → published_from st' pos' vel'.
Proof.
  intros Hok Hpub.
  pose proof (predict_track_keeps _ _ _ _ _ _ _ _ Hok) as (Hq' & _ & _ & Hf' & _).
  pose proof (predict_track_inv _ _ _ _ _ _ _ _ Hok) as (q & Hq & Hcase).
  destruct Hcase as [(_ & _ & -> & -> & ->)
                    |(c & fps & w & tl & tr & Hc & _ & Hf & _ & _
                      & Hst & -> & ->)]; [done|].
  intros k. destruct (decide (id = k)) as [<-|Hne].
  - rewrite !lookup_insert_eq. destruct c as [[x y] z].
    destruct (kf_x tr) as [[[px vx] py] vy] eqn:Hx.
    exists q, x, y, z, tr, px, vx, py, vy, fps.
    rewrite Hq', Hf'.
    split; [done|]. split; [done|]. split; [done|].
    split; [rewrite Hst; cbn; by rewrite lookup_insert_eq|].
    split; [done|]. split; [done|].
    by rewrite (scale_velocity_state tr fps px vx py vy Hx).
  - rewrite !lookup_insert_ne by done.
    destruct (predict_track_frame _ _ _ _ _ _ _ _ k Hok Hne) as (Hk' & _).
    specialize (Hpub k). rewrite Hq', Hf', Hk'. exact Hpub.
Qed.

Lemma predict_loop_published l st pos vel st' pos' vel' :
  foldM (predict_track cfg) l (st, pos, vel) = Ok (st', pos', vel') →
  published_from st pos vel → published_from st' pos' vel'.
Proof.
  revert st pos vel. induction l as [|a l IH]; intros st pos vel; simpl.
  - by intros [= <- <- <-].
  - intros Hok Hpub. apply bind_Ok in Hok as ([[s1 p1] v1] & Ha & Hok).
    apply (IH _ _ _ Hok). by apply (predict_track_published _ _ _ _ _ _ _ Ha).
Qed.

Lemma dead_loop_published st l pos vel pos' vel' :
  foldM (dead_reckon_track st) l (pos, vel) = Ok (pos', vel') →
  published_from st pos vel → published_from st pos' vel'.
Proof.
  revert pos vel. induction l as [|a l IH]; intros pos vel; simpl.
  - by intros [= <- <-].
  - intros Hok Hpub. apply bind_Ok in Hok as ([p1 v1] & Ha & Hok).
    apply (IH _ _ Hok). clear Hok IH.
    apply dead_reckon_inv in Ha
      as [(_ & -> & ->)|(t & fps & q & c & Ht & Hf & Hq & Hc & -> & ->)];
      [done|].
    intros k. destruct (decide (a = k)) as [<-|Hne].
    + rewrite !lookup_insert_eq. destruct c as [[x y] z].
      destruct (kf_x t) as [[[px vx] py] vy] eqn:Hx.
      exists q, x, y, z, t, px, vx, py, vy, fps.
      repeat (split; [done|]).
      by rewrite (scale_velocity_state t fps px vx py vy Hx).
    + rewrite !lookup_insert_ne by done. apply Hpub.
Qed.

Lemma cb_published msg st st' out :
  tracked_boxes_cb cfg msg st = Ok (st', out) →
  published_from st' (track_pos_dict out) (track_vel_dict out).
Proof.
  intros Hok.
  apply tracked_boxes_cb_inv in Hok
    as (st1 & st2 & pos & vel & stop & H1 & H2 & H3 & H4 & _).
  apply (dead_loop_published _ _ _ _ _ _ H4).
  assert (Hpub2 : published_from st2 pos vel).
  { apply (predict_loop_published _ _ _ _ _ _ _ H2). intros k.
    by rewrite !lookup_empty. }
  intros k. specialize (Hpub2 k).
  destruct (decide (k ∈ detected_ids msg)) as [Hk|Hk].
  - destruct (missing_loop_frame _ _ _ _ _ _ _ k H3) as [Hat _].
    { rewrite elem_of_elements, elem_of_missing_ids. tauto. }
    apply track_at_eq in Hat as (-> & _ & -> & _ & -> & _). exact Hpub2.
  - destruct (predict_loop_frame _ _ _ _ _ _ _ _ k H2 Hk)
      as (_ & _ & Hp & Hv).
    rewrite lookup_empty in Hp, Hv. by rewrite Hp, Hv.
Qed.

(** X6. Whenever the callback completes, the position and the velocity
    dictionaries handed to [pub_result] have the same keys, and every track
    in them owns a filter and a rate in the state the callback leaves: with
    [(x, y, z)] the newest entry of its queue its position is [(x, y)], and
    with [(px, vx, py, vy)] the state of its filter and [fps] its rate its
    velocity is [(vx * fps, vy * fps)]. *)
Theorem published_values_match_state msg st st' out :
  tracked_boxes_cb cfg msg st = Ok (st', out) →
  published_from st' (track_pos_dict out) (track_vel_dict out).
Proof. apply cb_published. Qed.

Lemma published_from_Some st pos vel k p :
  published_from st pos vel → pos !! k = Some p →
  ∃ (q : deque vec3) (x y z : Q) (t : KalmanFilter) (px vx py vy fps : Q),
    track_input_queue_dict st !! k = Some q
    ∧ last (items q) = Some (x, y, z)
    ∧ p = ((x, y) : vec2)
    ∧ track_id_kf_model_dict st !! k = Some t
    ∧ kf_x t = (px, vx, py, vy)
    ∧ track_predict_fps st !! k = Some fps
    ∧ vel !! k = Some ((Qred (vx * fps), Qred (vy * fps)) : vec2).
Proof. intros Hpub Hp. specialize (Hpub k). by rewrite Hp in Hpub. Qed.

Lemma predict_track_history id st pos vel st' pos' vel' :
  predict_track cfg id (st, pos, vel) = Ok (st', pos', vel') →
  history_records st vel → history_records st' vel'.
Proof.
  intros Hok Hrec.
  pose proof (predict_track_keeps _ _ _ _ _ _ _ _ Hok)
    as (_ & _ & _ & _ & Ht').
  pose proof (predict_track_inv _ _ _ _ _ _ _ _ Hok) as (q & Hq & Hcase).
  destruct Hcase as [(_ & _ & -> & -> & ->)
                    |(c & fps & w & tl & tr & _ & _ & _ & Hw & Htl
                      & Hst & -> & ->)]; [done|].
  intros k v. destruct (decide (id = k)) as [<-|Hne].
  - rewrite lookup_insert_eq. intros [= <-].
    rewrite Ht', Hst. cbn. rewrite lookup_insert_eq.
    eexists _, w, tl. split; [done|]. split; [done|]. split; [done|].
    split.
    + intros Hm. apply items_append_no_room. exact Hm.
    + intros Hm. apply last_items_append. exact Hm.
  - rewrite lookup_insert_ne by done. intros Hv.
    destruct (predict_track_frame _ _ _ _ _ _ _ _ k Hok Hne) as (_ & Hh' & _).
    destruct (Hrec k v Hv) as (h & w0 & t & Hh & Hw0 & Ht & Hl).
    exists h, w0, t. rewrite Ht'.
    split; [etrans; [exact Hh' | exact Hh] |].
    split; [done|]. split; [done|]. exact Hl.
Qed.

Lemma predict_loop_history l st pos vel st' pos' vel' :
  foldM (predict_track cfg) l (st, pos, vel) = Ok (st', pos', vel') →
  history_records st vel → history_records st' vel'.
Proof.
  revert st pos vel. induction l as [|a l IH]; intros st pos vel; simpl.
  - by intros [= <- <- <-].
  - intros Hok Hrec. apply bind_Ok in Hok as ([[s1 p1] v1] & Ha & Hok).
    apply (IH _ _ _ Hok). by apply (predict_track_history _ _ _ _ _ _ _ Ha).
Qed.

(** X7. After a completed callback on a reachable state, every detected
    track for which a velocity is handed on has a velocity history in what
    [pub_result] receives; with [fps_est_time] at least 1 that history ends
    with the pair of the newest entry of the track's timestamp window and
    the velocity handed on, and with [fps_est_time = 0] it is empty. *)
Theorem history_ends_with_published_velocity msgs st msg st' out k v :
  run cfg msgs init_state = Ok st →
  tracked_boxes_cb cfg msg st = Ok (st', out) →
  k ∈ detected_ids msg →
  track_vel_dict out !! k = Some v →
  ∃ (h : vel_hist) w t,
    out_vel_hist_dict out !! k = Some h
    ∧ track_prev_predict_timestamp st' !! k = Some w
    ∧ last (items w) = Some t
    ∧ (fps_est_time cfg = 0%nat → items h = [])
    ∧ ((0 < fps_est_time cfg)%nat → last (items h) = Some (t, v)).
Proof.
  intros Hs%reachable_sound Hok Hk Hv.
  pose proof (tracked_boxes_cb_sound _ _ _ _ _ Hok Hs) as Hs'.
  pose proof (tracked_boxes_cb_inv _ _ _ _ _ Hok)
    as (_ & _ & _ & _ & _ & _ & _ & _ & _ & _ & Hhist).
  destruct (cb_detected _ _ _ _ _ k Hok Hk)
    as (st1 & st2 & pos & vel & H1 & H2 & Hat & _ & Hvel).
  apply track_at_eq in Hat as (_ & _ & _ & _ & _ & Hts & Hvh).
  rewrite Hvel in Hv.
  assert (Hrec : history_records st2 vel).
  { apply (predict_loop_history _ _ _ _ _ _ _ H2).
    intros k' v' Hv'. by rewrite lookup_empty in Hv'. }
  destruct (Hrec k v Hv) as (h & w & t & Hh & Hw & Ht & Hzero & Hpos).
  assert (Hh' : track_vel_hist_dict st' !! k = Some h)
    by (etrans; [exact Hvh|exact Hh]).
  destruct (sound_hist _ _ Hs' k h Hh') as [Hmax _].
  exists h, w, t. rewrite Hhist.
  split; [exact Hh'|]. split; [etrans; [exact Hts|exact Hw]|].
  split; [done|]. rewrite <- Hmax. by split.
Qed.

(** X8. A detected track without a filter whose queue, after the boxes of
    the message are enqueued, holds at least [input_time] entries gets its
    filter in this callback. With [(x, y, z)] the newest entry of the queue,
    the filter starts from the state [(x, 0, y, 0)] (the last position, zero
    velocity) with the matrices of lines 279-290; it is stepped (one
    [predict], then one [update]) with the first two coordinates of every
    entry of the queue, oldest first, and then once more with [(x, y)] for
    every further box of the message that carries the track's id. The
    position handed on is [(x, y)]. *)
Theorem bootstrap_replays_queue msg st st1 alive st' out k q :
  tracked_boxes_cb cfg msg st = Ok (st', out) →
  ingest_loop cfg msg st = Ok (st1, alive) →
  k ∈ detected_ids msg →
  track_id_kf_model_dict st !! k = None →
  track_input_queue_dict st1 !! k = Some q →
  (input_time cfg ≤ length (items q))%nat →
  ∃ x y z : Q,
    let t0 :=
      {| kf_x := (x, 0, y, 0)%Q;
         kf_P := [ [500; 0; 0; 0]; [0; 500; 0; 0];
                   [0; 0; 500; 0]; [0; 0; 0; 500] ]%Q;
         kf_F := [ [1; 1; 0; 0]; [0; 1; 0; 0];
                   [0; 0; 1; 1]; [0; 0; 0; 1] ]%Q;
         kf_H := [ [1; 0; 0; 0]; [0; 0; 1; 0] ]%Q;
         kf_R := [ [5; 0]; [0; 5] ]%Q;
         kf_Q := [ [1 # 80; 1 # 40; 0; 0]; [1 # 40; 1 # 20; 0; 0];
                   [0; 0; 1 # 80; 1 # 40]; [0; 0; 1 # 40; 1 # 20] ]%Q |} in
    last (items q) = Some (x, y, z)
    ∧ track_id_kf_model_dict st' !! k
      = Some (Nat.iter (count_occ Z.eq_dec (detected_ids msg) k - 1)
                       (λ t, update (predict t) (x, y))
                       (foldl (λ t c, update (predict t) (c.1.1, c.1.2))
                              t0 (items q)))
    ∧ track_pos_dict out !! k = Some (x, y).
Proof.
  intros Hok H1 Hk Hkf Hq Hlen.
  destruct (cb_detected _ _ _ _ _ k Hok Hk)
    as (st1' & st2 & pos & vel & H1' & H2 & Hat & Hpos & _).
  unfold ingest_loop in H1. rewrite H1 in H1'. injection H1' as <- ->.
  apply ingest_keeps in H1 as [Hkf1 _]. rewrite <- Hkf1 in Hkf.
  destruct (predict_loop_bootstrap _ _ _ _ _ _ _ _ k q H2 Hk Hkf Hq Hlen)
    as (c & Hc & Hkf2 & Hpos2).
  apply track_at_eq in Hat as (_ & _ & Hkf' & _).
  destruct c as [[x y] z]. exists x, y, z.
  split; [exact Hc|]. split; [|etrans; [exact Hpos|exact Hpos2]].
  etrans; [exact Hkf'|]. etrans; [exact Hkf2|].
  unfold kf_step. by rewrite foldl_map_fun.
Qed.

(** X9. A track that the message does not detect is left alone apart from
    its missing time: its velocity history is never changed, and unless it
    is removed in this callback its queue, colour, filter, rate and
    timestamp window are what they were. *)
Theorem undetected_track_is_left_alone msg st st' out k :
  tracked_boxes_cb cfg msg st = Ok (st', out) →
  k ∉ detected_ids msg →
  track_vel_hist_dict st' !! k = track_vel_hist_dict st !! k
  ∧ (Qgtb (absence st (stamp msg) k) (duration_inactive_to_remove cfg)
     = false →
     track_input_queue_dict st' !! k = track_input_queue_dict st !! k
     ∧ track_color_dict st' !! k = track_color_dict st !! k
     ∧ track_id_kf_model_dict st' !! k = track_id_kf_model_dict st !! k
     ∧ track_predict_fps st' !! k = track_predict_fps st !! k
     ∧ track_prev_predict_timestamp st' !! k
       = track_prev_predict_timestamp st !! k).
Proof.
  intros Hok Hk.
  destruct (track_input_queue_dict st !! k) as [q|] eqn:Hq.
  - destruct (cb_absent _ _ _ _ _ k Hok Hk) as
      (stop & (_ & Hvh & _ & Hkept) & _); [by eexists|].
    split; [done|]. intros Hkeep.
    destruct (Hkept Hkeep) as (Hq' & Hc' & Hk' & _ & Hf' & Ht').
    rewrite Hq', Hq. by repeat split.
  - destruct (cb_unknown _ _ _ _ _ k Hok Hk Hq) as [Hat _].
    apply track_at_eq in Hat as (Hq' & Hc' & Hk' & _ & Hf' & Ht' & Hv').
    rewrite Hq' , Hq. by repeat split.
Qed.

End Handed.

(** * Which tracks are handed on, and with which rate *)

Section Published.
Context `{!FilterLib}.
Variable cfg : Config.
Implicit Types (st : State) (k : Z) (msg : TrackedBoxes).

(** X13. After a callback on a reachable state a track has a position (and
    a velocity) in what is handed to [pub_result] exactly when it owns a
    filter and either was detected in the message or has been missing for
    no longer than [duration_inactive_to_stop_publish]. *)
Theorem published_iff_filter_and_recent msgs st msg st' out k :
  run cfg msgs init_state = Ok st →
  tracked_boxes_cb cfg msg st = Ok (st', out) →
  is_Some (track_pos_dict out !! k) ↔
  is_Some (track_id_kf_model_dict st' !! k)
  ∧ (k ∈ detected_ids msg
     ∨ Qgtb (absence st (stamp msg) k)
            (duration_inactive_to_stop_publish cfg) = false).
Proof.
  intros Hrun Hok.
  destruct (reachable_filter_iff_full _ _ _ Hrun) as [Hs Hiff].
  pose proof (cb_published _ _ _ _ _ Hok) as Hpub.
  split.
  - intros [p Hp]. split.
    + specialize (Hpub k). rewrite Hp in Hpub.
      destruct Hpub as (q & x & y & z & t & px & vx & py & vy & fps
                        & _ & _ & _ & Ht & _).
      by eexists.
    + destruct (decide (k ∈ detected_ids msg)) as [Hk|Hk]; [by left|right].
      destruct (track_input_queue_dict st !! k) as [q|] eqn:Hq.
      * destruct (cb_absent _ _ _ _ _ k Hok Hk)
          as (stop & (Hstop & _) & Hsup & _); [by eexists|].
        destruct (Qgtb (absence st (stamp msg) k)
                       (duration_inactive_to_stop_publish cfg)) eqn:He;
          [|done].
        destruct Hsup as [Hn _]; [apply Hstop; by right|]. congruence.
      * destruct (cb_unknown _ _ _ _ _ k Hok Hk Hq) as (_ & Hn & _).
        congruence.
  - intros [[t Ht] Hcase].
    destruct (decide (k ∈ detected_ids msg)) as [Hk|Hk].
    + destruct (cb_detected _ _ _ _ _ k Hok Hk)
        as (st1 & st2 & pos & vel & H1 & H2 & Hat & Hpos & _).
      apply track_at_eq in Hat as (_ & _ & Hkf & _).
      rewrite Hkf in Ht. rewrite Hpos.
      destruct (ingest_detected _ _ _ _ _ _ _ k H1 Hk) as (_ & q1 & Hq1 & _).
      destruct (track_id_kf_model_dict st1 !! k) as [t1|] eqn:Hkf1.
      * destruct (predict_loop_nonempty _ _ _ _ _ _ _ _ k t1 q1 H2 Hk Hkf1 Hq1)
          as [c Hc].
        destruct (predict_loop_filtered _ _ _ _ _ _ _ _ k t1 q1 c H2 Hkf1
                    Hq1 Hc) as [_ Hp].
        rewrite (Hp Hk). by eexists.
      * destruct (decide (length (items q1) < input_time cfg)%nat)
          as [Hshort|Hfull].
        -- destruct (predict_loop_short _ _ _ _ _ _ _ _ k q1 H2 Hkf1 Hq1
                       Hshort) as (Hn & _). congruence.
        -- destruct (predict_loop_bootstrap _ _ _ _ _ _ _ _ k q1 H2 Hk Hkf1
                       Hq1) as (c & _ & _ & ->); [lia|]. by eexists.
    + destruct Hcase as [?|He]; [done|].
      destruct (track_input_queue_dict st !! k) as [q|] eqn:Hq.
      * destruct (cb_absent _ _ _ _ _ k Hok Hk)
          as (stop & (Hstop & _) & _ & _ & Hpubl); [by eexists|].
        assert (Hns : k ∉ stop).
        { rewrite Hstop. intros [?%elem_of_empty|?]; [done|congruence]. }
        destruct (Hpubl Hns t Ht) as (fps & q' & c & _ & _ & _ & -> & _).
        by eexists.
      * destruct (cb_unknown _ _ _ _ _ k Hok Hk Hq) as [Hat _].
        apply track_at_eq in Hat as (_ & _ & Hkf & _). rewrite Hkf in Ht.
        destruct (proj1 (Hiff k)) as (q' & Hq' & _); [by eexists|].
        congruence.
Qed.

(** X14. The stale check of line 255 looks at the stamp of the box, the
    rate of line 260 at the stamp of the message. A box that passes the
    check (it is not stamped before the newest entry of the window) on a
    message whose stamp differs from the oldest entry is ingested, and the
    rate stored for the track has the sign of the time from the oldest
    entry to the message stamp: positive when the message is stamped after
    it, negative when the message is stamped before it. *)
Theorem rate_sign_follows_message_stamp msg tbox st alive w t_last t_first :
  is_tracked_class tbox = true →
  track_prev_predict_timestamp st !! track_id tbox = Some w →
  last (items w) = Some t_last →
  head (items w) = Some t_first →
  t_last ≤ box_stamp tbox →
  stamp msg ≠ t_first →
  ∃ st' r,
    ingest_box cfg msg tbox (st, alive) = Ok (st', alive ++ [track_id tbox])
    ∧ track_predict_fps st' !! track_id tbox = Some r
    ∧ ((0 < r)%Q ↔ t_first < stamp msg)
    ∧ ((r < 0)%Q ↔ stamp msg < t_first).
Proof.
  intros Hc Hw Hlast Hfirst Hle Hne.
  eexists _, (fps_of w (stamp msg) t_first).
  split; [|split].
  - unfold ingest_box. rewrite Hc.
    rewrite (update_fps_nonzero cfg msg tbox (enqueue_box cfg tbox st)
               w t_last t_first Hw Hlast Hle Hfirst Hne).
    reflexivity.
  - cbn. by rewrite lookup_insert_eq.
  - apply fps_of_sign. intros Hnil. by rewrite Hnil in Hfirst.
Qed.

End Published.

(** * Well-formed states *)

Section WellFormed.
Context `{!FilterLib}.
Variable cfg : Config.
Hypothesis Hinput : (1 ≤ input_time cfg)%nat.
Hypothesis Hfps : (1 ≤ fps_est_time cfg)%nat.
Implicit Types (st : State) (k : Z) (msg : TrackedBoxes).

(** The state after one box: the queue and colour of [enqueue_box], the
    filters as before, with some update of the windows and the rates. *)
Lemma wf_after_box tbox st st' :
  sound cfg st → wf st →
  track_input_queue_dict st'
  = track_input_queue_dict (enqueue_box cfg tbox st) →
  track_color_dict st' = track_color_dict (enqueue_box cfg tbox st) →
  track_id_kf_model_dict st' = track_id_kf_model_dict st →
  (∀ k, is_Some (track_predict_fps st !! k) →
        is_Some (track_predict_fps st' !! k)) →
  (∀ k w, track_prev_predict_timestamp st' !! k = Some w →
          (0 < maxlen w)%nat ∧ items w ≠ []) →
  is_Some (track_prev_predict_timestamp st' !! track_id tbox) →
  (∀ k, is_Some (track_prev_predict_timestamp st !! k) →
        is_Some (track_prev_predict_timestamp st' !! k)) →
  wf st'.
Proof.
  intros Hs Hwf Hq Hc Hk Hf Hwin Hhere Hts.
  destruct (enqueue_box_fits cfg tbox st Hs) as (q1 & Hq1 & Hq1m & Hq1l).
  assert (Hq1ne : items q1 ≠ []).
  { rewrite enqueue_box_queue in Hq1. injection Hq1 as <-.
    apply append_nonempty.
    destruct (track_input_queue_dict st !! track_id tbox) as [q0|] eqn:Hq0;
      simpl; [|lia].
    destruct (sound_queue _ _ Hs _ _ Hq0) as [-> _]. lia. }
  constructor.
  - intros k q. rewrite Hq.
    destruct (decide (track_id tbox = k)) as [<-|Hne].
    + rewrite Hq1. intros [= <-]. split; [lia|done].
    + unfold enqueue_box. cbn. rewrite lookup_insert_ne by done.
      apply (wf_queue _ Hwf k).
  - exact Hwin.
  - intros k. rewrite Hq, Hc. unfold enqueue_box. cbn.
    destruct (decide (track_id tbox = k)) as [<-|Hne].
    + rewrite !lookup_insert_eq. intros _. split; [by eexists|done].
    + rewrite !lookup_insert_ne by done. intros Hqk.
      destruct (wf_known _ Hwf k Hqk) as [Hck Htk]. split; [done|].
      by apply Hts.
  - intros k. rewrite Hk, Hq. intros Hkf.
    destruct (wf_filter _ Hwf k Hkf) as [Hqk Hfk]. split; [|by apply Hf].
    unfold enqueue_box. cbn.
    destruct (decide (track_id tbox = k)) as [<-|Hne].
    + rewrite lookup_insert_eq. by eexists.
    + by rewrite lookup_insert_ne.
Qed.

Lemma ingest_box_wf msg tbox st alive st' alive' :
  ingest_box cfg msg tbox (st, alive) = Ok (st', alive') →
  sound cfg st → wf st → wf st'.
Proof.
  intros Hok Hs Hwf.
  apply ingest_box_inv in Hok as [(_ & -> & _)|(Hc & Hb & _)]; [done|].
  apply update_fps_inv in Hb
    as [(-> & Hts)|[(w & fps & Hw & Hwne & ->)|(Hw & ->)]];
    rewrite enqueue_box_ts in *;
    apply (wf_after_box tbox st); try done; cbn.
  - apply (wf_window _ Hwf).
  - intros k Hk. destruct (decide (track_id tbox = k)) as [<-|Hne].
    + rewrite lookup_insert_eq. by eexists.
    + by rewrite lookup_insert_ne.
  - intros k w'. destruct (decide (track_id tbox = k)) as [<-|Hne].
    + rewrite lookup_insert_eq. intros [= <-].
      destruct (wf_window _ Hwf _ _ Hw) as [Hpos _].
      split; [done|]. by apply append_nonempty.
    + rewrite lookup_insert_ne by done. apply (wf_window _ Hwf).
  - rewrite lookup_insert_eq. by eexists.
  - intros k Hk. destruct (decide (track_id tbox = k)) as [<-|Hne].
    + rewrite lookup_insert_eq. by eexists.
    + by rewrite lookup_insert_ne.
  - intros k w'. destruct (decide (track_id tbox = k)) as [<-|Hne].
    + rewrite lookup_insert_eq. intros [= <-].
      split; [simpl; lia|]. apply append_nonempty. simpl. lia.
    + rewrite lookup_insert_ne by done. apply (wf_window _ Hwf).
  - rewrite lookup_insert_eq. by eexists.
  - intros k Hk. destruct (decide (track_id tbox = k)) as [<-|Hne].
    + rewrite lookup_insert_eq. by eexists.
    + by rewrite lookup_insert_ne.
Qed.

Lemma ingest_loop_wf msg boxes st alive st' alive' :
  foldM (ingest_box cfg msg) boxes (st, alive) = Ok (st', alive') →
  sound cfg st → wf st → wf st'.
Proof.
  revert st alive. induction boxes as [|b boxes IH]; intros st alive; simpl.
  - by intros [= <- <-].
  - intros Hok Hs Hwf. apply bind_Ok in Hok as ([s1 al1] & Hb & Hok).
    apply (IH _ _ Hok).
    + by apply (ingest_box_sound _ _ _ _ _ _ _ Hb).
    + by apply (ingest_box_wf _ _ _ _ _ _ Hb).
Qed.

Lemma predict_track_wf id st pos vel st' pos' vel' :
  predict_track cfg id (st, pos, vel) = Ok (st', pos', vel') →
  wf st → wf st'.
Proof.
  intros Hok Hwf. apply predict_track_inv in Hok as (q & Hq & Hcase).
  destruct Hcase as [(_ & _ & -> & _)
                    |(c & fps & w & tl & tr & _ & _ & Hf & _ & _ & -> & _)];
    [done|].
  constructor; cbn; try apply Hwf.
  intros k. destruct (decide (id = k)) as [<-|Hne].
  - intros _. split; by eexists.
  - rewrite lookup_insert_ne by done. apply (wf_filter _ Hwf).
Qed.

Lemma predict_loop_wf l st pos vel st' pos' vel' :
  foldM (predict_track cfg) l (st, pos, vel) = Ok (st', pos', vel') →
  wf st → wf st'.
Proof.
  revert st pos vel. induction l as [|a l IH]; intros st pos vel; simpl.
  - by intros [= <- <- <-].
  - intros Hok Hwf. apply bind_Ok in Hok as ([[s1 p1] v1] & Ha & Hok).
    apply (IH _ _ _ Hok). by apply (predict_track_wf _ _ _ _ _ _ _ Ha).
Qed.

Lemma missing_track_wf now id st stop st' stop' :
  missing_track cfg now id (st, stop) = Ok (st', stop') →
  is_Some (track_input_queue_dict st !! id) →
  sound cfg st → wf st → wf st'.
Proof.
  intros Hok Hknown Hs Hwf.
  pose proof (λ k, missing_track_view _ _ _ _ _ _ _ k Hok Hknown
                     (sound_missing _ _ Hs)) as Hview.
  constructor.
  - intros k q Hq. destruct (Hview k) as [_ [(Hn & _)|(He & _)]];
      [congruence|]. rewrite He in Hq. by apply (wf_queue _ Hwf k).
  - intros k w Hw.
    destruct (Hview k) as [_ [(_ & _ & _ & _ & _ & Hn)
                             |(_ & _ & _ & _ & _ & He)]];
      [congruence|]. rewrite He in Hw. by apply (wf_window _ Hwf k).
  - intros k Hq.
    destruct (Hview k) as [_ [(Hn & _)|(He & Hc & _ & _ & _ & Ht)]].
    + rewrite Hn in Hq. by destruct Hq.
    + rewrite Hc, Ht. apply (wf_known _ Hwf). by rewrite <- He.
  - intros k Hkf.
    destruct (Hview k) as [_ [(_ & _ & Hn & _)|(He & _ & Hk & _ & Hf & _)]].
    + rewrite Hn in Hkf. by destruct Hkf.
    + rewrite He, Hf. apply (wf_filter _ Hwf). by rewrite <- Hk.
Qed.

Lemma missing_loop_wf now l st stop st' stop' :
  foldM (missing_track cfg now) l (st, stop) = Ok (st', stop') →
  NoDup l →
  (∀ k, k ∈ l → is_Some (track_input_queue_dict st !! k)) →
  sound cfg st → wf st → wf st'.
Proof.
  revert st stop. induction l as [|a l IH]; intros st stop; simpl.
  - by intros [= <- <-].
  - intros Hok [Ha_l Hnd]%NoDup_cons Hl Hs Hwf.
    apply bind_Ok in Hok as ([s1 stop1] & Ha & Hok).
    apply (IH _ _ Hok Hnd).
    + intros k Hk. assert (a ≠ k) by (intros ->; done).
      destruct (missing_track_frame _ _ _ _ _ _ _ k Ha) as [Hat _]; [done|].
      apply track_at_eq in Hat as (-> & _). apply Hl. by right.
    + apply (missing_track_sound _ _ _ _ _ _ _ Ha); [|done]. apply Hl. left.
    + apply (missing_track_wf _ _ _ _ _ _ Ha); [|done..]. apply Hl. left.
Qed.

Lemma tracked_boxes_cb_wf msg st st' out :
  tracked_boxes_cb cfg msg st = Ok (st', out) →
  sound cfg st → wf st → wf st'.
Proof.
  intros Hok Hs Hwf.
  apply tracked_boxes_cb_inv in Hok
    as (st1 & st2 & pos & vel & stop & H1 & H2 & H3 & _).
  pose proof (ingest_loop_sound _ _ _ _ _ _ _ H1 Hs) as Hs1.
  pose proof (ingest_loop_wf _ _ _ _ _ _ H1 Hs Hwf) as Hwf1.
  apply (missing_loop_wf _ _ _ _ _ _ H3).
  - apply NoDup_elements.
  - intros k Hk%elem_of_elements. by apply elem_of_missing_ids in Hk as [? _].
  - by apply (predict_loop_sound _ _ _ _ _ _ _ _ H2).
  - by apply (predict_loop_wf _ _ _ _ _ _ _ H2).
Qed.

Lemma reachable_wf msgs st :
  run cfg msgs init_state = Ok st → wf st.
Proof.
  intros Hrun.
  apply (run_invariant cfg (λ s, sound cfg s ∧ wf s) _ _ _) in Hrun;
    [by destruct Hrun|..].
  - intros msg s s' out Hcb [Hs Hwf]. split.
    + by apply (tracked_boxes_cb_sound _ _ _ _ _ Hcb).
    + by apply (tracked_boxes_cb_wf _ _ _ _ Hcb).
  - split; [apply sound_init | apply wf_init].
Qed.

(** X3. With [input_time] and [fps_est_time] at least 1, every state reached
    from the initial one through completed callbacks, whatever the order
    and the stamps of the messages, is well formed: every queue and every
    timestamp window holds an entry, a track with a queue has a colour and
    a window, and a track with a filter has a queue and a rate. *)
Theorem reachable_states_are_well_formed msgs st :
  run cfg msgs init_state = Ok st → wf st.
Proof. apply reachable_wf. Qed.

(** X10. With [input_time] and [fps_est_time] at least 1, in every reachable
    state a message without any person or obstacle box is processed without
    an exception, whatever its stamp; nothing is then in the alive list. *)
Theorem message_without_tracks_is_processed msgs st msg :
  run cfg msgs init_state = Ok st →
  tracked msg = [] →
  ∃ st' out,
    tracked_boxes_cb cfg msg st = Ok (st', out)
    ∧ alive_track_id_list out = [].
Proof.
  intros Hwf%reachable_wf Hnone.
  assert (H1 : ingest_loop cfg msg st = Ok (st, [])).
  { unfold ingest_loop. rewrite <- ingest_skips_untracked.
    unfold tracked in Hnone. by rewrite Hnone. }
  destruct (missing_loop_total cfg (stamp msg)
              (elements (missing_ids st [])) st ∅ Hwf)
    as (st3 & stop & H3 & Hwf3 & _).
  { apply NoDup_elements. }
  { intros k Hk%elem_of_elements. by apply elem_of_missing_ids in Hk as [? _]. }
  destruct (dead_loop_total st3 (elements (missing_ids st [] ∖ stop))
              ∅ ∅ Hwf3) as (pos' & vel' & H4).
  eexists st3, _. split.
  - unfold tracked_boxes_cb. rewrite H1. simpl. rewrite H3. simpl.
    rewrite H4. reflexivity.
  - reflexivity.
Qed.

End WellFormed.

(** * The markers of [vis_result] *)

Section Markers.
Context `{!FilterLib} `{!VisLib}.
Variable cfg : Config.
Implicit Types (st : State) (k : Z) (msg : TrackedBoxes) (m : Marker).

Lemma track_markers_inv st msg alive pos vel k acc acc' :
  track_markers st msg alive pos vel k acc = Ok acc' →
  ∃ p c v,
    pos !! k = Some p ∧ track_color_dict st !! k = Some c
    ∧ vel !! k = Some v
    ∧ acc' = acc ++ [sphere_marker msg alive k p c;
                     arrow_marker msg alive k p c v].
Proof.
  unfold track_markers. intros Hok.
  apply bind_Ok in Hok as (p & Hp%dict_get_Ok & Hok).
  apply bind_Ok in Hok as (c & Hc%dict_get_Ok & Hok).
  apply bind_Ok in Hok as (v & Hv%dict_get_Ok & Hok).
  injection Hok as <-. exists p, c, v. by rewrite <- app_assoc.
Qed.

Lemma markers_loop_inv st msg alive pos vel l acc markers m :
  foldM (track_markers st msg alive pos vel) l acc = Ok markers →
  m ∈ markers ↔
  m ∈ acc
  ∨ ∃ k p c v,
      k ∈ l ∧ pos !! k = Some p ∧ track_color_dict st !! k = Some c
      ∧ vel !! k = Some v
      ∧ (m = sphere_marker msg alive k p c
         ∨ m = arrow_marker msg alive k p c v).
Proof.
  revert acc. induction l as [|a l IH]; intros acc; simpl.
  - intros [= <-]. split; [by left|].
    intros [?|(k & ? & ? & ? & ?%elem_of_nil & _)]; done.
  - intros Hok. apply bind_Ok in Hok as (acc1 & Ha & Hok).
    rewrite (IH _ Hok). clear IH Hok.
    apply track_markers_inv in Ha as (p & c & v & Hp & Hc & Hv & ->).
    rewrite elem_of_app, elem_of_cons, list_elem_of_singleton. split.
    + intros [[?|[->| ->]]|(k & p' & c' & v' & Hk & Hrest)].
      * by left.
      * right. exists a, p, c, v. split; [left|]. by repeat split; try left.
      * right. exists a, p, c, v. split; [left|]. by repeat split; try right.
      * right. exists k, p', c', v'. split; [by right|done].
    + intros [?|(k & p' & c' & v' & Hk & Hp' & Hc' & Hv' & Hm)]; [by left; left|].
      apply elem_of_cons in Hk as [->|Hk].
      * left. right. rewrite Hp in Hp'. rewrite Hc in Hc'. rewrite Hv in Hv'.
        injection Hp' as <-. injection Hc' as <-. injection Hv' as <-.
        destruct Hm as [->| ->]; [by left | by right].
      * right. by exists k, p', c', v'.
Qed.

Lemma markers_loop_length st msg alive pos vel l acc markers :
  foldM (track_markers st msg alive pos vel) l acc = Ok markers →
  length markers = (length acc + 2 * length l)%nat.
Proof.
  revert acc. induction l as [|a l IH]; intros acc; simpl.
  - intros [= <-]. lia.
  - intros Hok. apply bind_Ok in Hok as (acc1 & Ha & Hok).
    rewrite (IH _ Hok).
    apply track_markers_inv in Ha as (p & c & v & _ & _ & _ & ->).
    rewrite length_app. simpl. lia.
Qed.

Lemma markers_loop_total st msg alive pos vel l acc :
  (∀ k, k ∈ l → is_Some (pos !! k) ∧ is_Some (track_color_dict st !! k)
                ∧ is_Some (vel !! k)) →
  ∃ markers, foldM (track_markers st msg alive pos vel) l acc = Ok markers.
Proof.
  revert acc. induction l as [|a l IH]; intros acc Hl; [by eexists|].
  destruct (Hl a) as ([p Hp] & [c Hc] & [v Hv]); [left|].
  destruct (IH (acc ++ [sphere_marker msg alive a p c;
                        arrow_marker msg alive a p c v]))
    as [markers Hok]; [intros k Hk; apply Hl; by right|].
  exists markers. rewrite <- Hok. apply foldM_cons_Ok.
  unfold track_markers.
  rewrite (proj2 (dict_get_Ok _ _ _) Hp). simpl.
  rewrite (proj2 (dict_get_Ok _ _ _) Hc). simpl.
  rewrite (proj2 (dict_get_Ok _ _ _) Hv). simpl.
  by rewrite <- app_assoc.
Qed.

Lemma elem_of_pos_keys (pos : gmap Z vec2) k :
  k ∈ (map_to_list pos).*1 ↔ is_Some (pos !! k).
Proof.
  rewrite list_elem_of_fmap. split.
  - intros ([k' p] & -> & Hin). apply elem_of_map_to_list in Hin.
    by eexists.
  - intros [p Hp]. exists (k, p). split; [done|].
    by apply elem_of_map_to_list.
Qed.

(** X11. In every state reached from the initial one, after a completed
    callback [vis_result] finds the colour and the velocity of every track
    it draws: it raises no exception, and it publishes two markers for each
    track of [track_pos_dict]. *)
Theorem vis_result_completes msgs st msg st' out :
  run cfg msgs init_state = Ok st →
  tracked_boxes_cb cfg msg st = Ok (st', out) →
  ∃ markers,
    vis_result st' msg (alive_track_id_list out) (track_pos_dict out)
               (track_vel_dict out) = Ok markers
    ∧ length markers = (2 * size (track_pos_dict out))%nat.
Proof.
  intros Hs%reachable_sound Hok.
  pose proof (tracked_boxes_cb_sound _ _ _ _ _ Hok Hs) as Hs'.
  pose proof (cb_published _ _ _ _ _ Hok) as Hpub.
  destruct (markers_loop_total st' msg (alive_track_id_list out)
              (track_pos_dict out) (track_vel_dict out)
              (map_to_list (track_pos_dict out)).*1 []) as [markers Hm].
  { intros k [p Hp]%elem_of_pos_keys. specialize (Hpub k).
    rewrite Hp in Hpub.
    destruct Hpub as (q & x & y & z & t & px & vx & py & vy & fps
                      & Hq & _ & _ & _ & _ & _ & Hv).
    split; [by eexists|]. split; [|by eexists].
    apply (sound_colour _ _ Hs'). by eexists. }
  exists markers. split; [done|].
  rewrite (markers_loop_length _ _ _ _ _ _ _ _ Hm). simpl.
  by rewrite length_fmap, length_map_to_list.
Qed.

(** X12. Whenever the callback and [vis_result] complete, every marker
    belongs to a track of [track_pos_dict], sits at the position handed on
    for it, and is opaque (alpha 1) exactly when its track was detected in
    the message; the markers of a track that is only dead-reckoned have
    alpha 0.5. *)
Theorem dead_reckoned_tracks_are_drawn_faded msg st st' out markers m :
  tracked_boxes_cb cfg msg st = Ok (st', out) →
  vis_result st' msg (alive_track_id_list out) (track_pos_dict out)
             (track_vel_dict out) = Ok markers →
  m ∈ markers →
  (∃ p, track_pos_dict out !! marker_id m = Some p
        ∧ marker_position m = (p.1, p.2, 0%Q))
  ∧ (marker_id m ∈ detected_ids msg → marker_alpha m = 1%Q)
  ∧ (marker_id m ∉ detected_ids msg → marker_alpha m = (1 # 2)%Q).
Proof.
  intros Hok Hvis Hm.
  pose proof (tracked_boxes_cb_inv _ _ _ _ _ Hok)
    as (_ & _ & _ & _ & _ & _ & _ & _ & _ & Halive & _).
  apply (markers_loop_inv _ _ _ _ _ _ _ _ m) in Hvis.
  apply Hvis in Hm as [?%elem_of_nil|(k & p & c & v & _ & Hp & _ & _ & Hm)];
    [done|].
  assert (Hid : marker_id m = k) by (by destruct Hm as [->| ->]).
  assert (Hpos : marker_position m = (p.1, p.2, 0%Q))
    by (by destruct Hm as [->| ->]).
  assert (Ha : marker_alpha m = alpha_of (alive_track_id_list out) k)
    by (by destruct Hm as [->| ->]).
  rewrite Hid, Ha, Halive. unfold alpha_of.
  split; [by exists p|]. split; intros Hk.
  - by rewrite bool_decide_eq_true_2.
  - by rewrite bool_decide_eq_false_2.
Qed.

End Markers.

(** * The properties on the life-cycle run *)

(** After five detections the queue of track 7 holds three entries. *)
Lemma buffers_stay_bounded_witness :
  ∃ q, track_input_queue_dict (state_after (seen_upto 5)) !! 7 = Some q
       ∧ maxlen q = 3%nat ∧ (length (items q) ≤ 3)%nat.
Proof.
  destruct (@buffers_stay_bounded Filterpy.lib cfg (seen_upto 5)
              (state_after (seen_upto 5))) as (Hq & _ & _).
  { vm_compute. reflexivity. }
  eexists. split; [vm_compute; reflexivity|].
  apply (Hq 7). vm_compute. reflexivity.
Defined.

(** Messages that arrive out of order: stamped 5 s, then 3 s. *)
Lemma reachable_states_are_well_formed_witness :
  wf (state_after [seen 5 0; seen 3 1]).
Proof.
  apply (@reachable_states_are_well_formed Filterpy.lib cfg)
    with (msgs := [seen 5 0; seen 3 1]).
  - vm_compute. lia.
  - vm_compute. lia.
  - vm_compute. reflexivity.
Defined.

Lemma filter_exists_iff_queue_full_witness :
  is_Some (track_id_kf_model_dict (state_after (seen_upto 3)) !! 7)
  ∧ ¬ ∃ q, track_input_queue_dict (state_after (seen_upto 2)) !! 7 = Some q
           ∧ length (items q) = 3%nat.
Proof.
  split.
  - apply (@filter_exists_iff_queue_full Filterpy.lib cfg (seen_upto 3)).
    + vm_compute. reflexivity.
    + eexists. split; vm_compute; reflexivity.
  - intros Hfull.
    apply (@filter_exists_iff_queue_full Filterpy.lib cfg (seen_upto 2)) in Hfull.
    + vm_compute in Hfull. destruct Hfull as [t Ht]. discriminate.
    + vm_compute. reflexivity.
Defined.

Lemma missing_time_iff_absent_witness :
  let st := state_after (seen_upto 3) in
  let r := result_of (empty_batch 3) st in
  is_Some (track_id_missing_time_dict r.1 !! 7).
Proof.
  intros st r.
  apply (@missing_time_iff_absent Filterpy.lib cfg (seen_upto 3) st
           (empty_batch 3) r.1 r.2 7).
  - vm_compute. reflexivity.
  - vm_compute. reflexivity.
  - split.
    + vm_compute. eexists. reflexivity.
    + vm_compute. intros Hin. inversion Hin.
Defined.

(** The second run, track 7 detected at t = 6 s at (3, 9, 1): the position
    handed on is (3, 9) and the velocity is the velocity state of the
    filter times the rate 1/2. *)
Lemma published_values_match_state_witness :
  let st := state_after strides in
  let r := result_of (walk 6 3 9 1) st in
  (kf_x <$> track_id_kf_model_dict r.1 !! 7)
  = Some (15597736299572803 # 5229892619431601,
          467623843828946 # 475444783584691,
          46793208898718409 # 5229892619431601,
          1402871531486838 # 475444783584691)%Q
  ∧ track_predict_fps r.1 !! 7 = Some (1 # 2)%Q
  ∧ track_vel_dict r.2 !! 7
    = Some (233811921914473 # 475444783584691,
            701435765743419 # 475444783584691)%Q
  ∧ track_pos_dict r.2 !! 7 = Some (3, 9)%Q.
Proof.
  intros st r.
  assert (Hp : track_pos_dict r.2 !! 7 = Some (3, 9)%Q)
    by (vm_compute; reflexivity).
  destruct (published_from_Some r.1 (track_pos_dict r.2) (track_vel_dict r.2)
              7 (3, 9)%Q
              (@published_values_match_state Filterpy.lib cfg
                 (walk 6 3 9 1) st r.1 r.2 eq_refl) Hp)
    as (q & x & y & z & t & px & vx & py & vy & fps
        & Hq & Hlast & Hxy & Hkf & Hx & Hfps & Hvel).
  vm_compute in Hkf. injection Hkf as <-.
  vm_compute in Hx. injection Hx as <- <- <- <-.
  vm_compute in Hfps. injection Hfps as <-.
  split; [vm_compute; reflexivity|].
  split; [vm_compute; reflexivity|].
  split; [etrans; [exact Hvel|vm_compute; reflexivity]|].
  exact Hp.
Defined.

(** The same callback: the history handed on ends with that velocity,
    stamped 6 s. *)
Lemma history_ends_with_published_velocity_witness :
  let st := state_after strides in
  let r := result_of (walk 6 3 9 1) st in
  ∃ h : vel_hist,
    out_vel_hist_dict r.2 !! 7 = Some h
    ∧ last (items h)
      = Some (sec 6, (233811921914473 # 475444783584691,
                      701435765743419 # 475444783584691)%Q).
Proof.
  intros st r.
  destruct (@history_ends_with_published_velocity Filterpy.lib cfg strides
              st (walk 6 3 9 1) r.1 r.2 7
              (233811921914473 # 475444783584691,
               701435765743419 # 475444783584691)%Q)
    as (h & w & t & Hh & Hw & Ht & _ & Hlast).
  - vm_compute. reflexivity.
  - vm_compute. reflexivity.
  - vm_compute. left.
  - vm_compute. reflexivity.
  - vm_compute in Hw. injection Hw as <-.
    vm_compute in Ht. injection Ht as <-.
    exists h. split; [exact Hh|].
    apply Hlast. vm_compute. lia.
Defined.

(** The second run, third detection at (2, 6, 1): the filter starts from
    (2, 0, 6, 0) and is stepped through the three positions of the queue. *)
Lemma bootstrap_replays_queue_witness :
  let st := state_after [walk 0 0 0 1; walk 2 1 3 1] in
  let r := result_of (walk 4 2 6 1) st in
  let t0 :=
    {| kf_x := (2, 0, 6, 0)%Q;
       kf_P := [ [500; 0; 0; 0]; [0; 500; 0; 0];
                 [0; 0; 500; 0]; [0; 0; 0; 500] ]%Q;
       kf_F := [ [1; 1; 0; 0]; [0; 1; 0; 0];
                 [0; 0; 1; 1]; [0; 0; 0; 1] ]%Q;
       kf_H := [ [1; 0; 0; 0]; [0; 0; 1; 0] ]%Q;
       kf_R := [ [5; 0]; [0; 5] ]%Q;
       kf_Q := [ [1 # 80; 1 # 40; 0; 0]; [1 # 40; 1 # 20; 0; 0];
                 [0; 0; 1 # 80; 1 # 40]; [0; 0; 1 # 40; 1 # 20] ]%Q |} in
  let step t (p : vec2) := Filterpy.update (Filterpy.predict t) p in
  track_id_kf_model_dict r.1 !! 7
  = Some (step (step (step t0 (0, 0)%Q) (1, 3)%Q) (2, 6)%Q)
  ∧ (kf_x <$> track_id_kf_model_dict r.1 !! 7)
    = Some (7810443231602 # 3953191854801, 3819278435996 # 3953191854801,
            7810443231602 # 1317730618267, 3819278435996 # 1317730618267)%Q
  ∧ track_pos_dict r.2 !! 7 = Some (2, 6)%Q.
Proof.
  intros st r t0 step.
  destruct (@bootstrap_replays_queue Filterpy.lib cfg (walk 4 2 6 1) st
              (match ingest_loop cfg (walk 4 2 6 1) st with
               | Ok s => s.1 | Err _ => init_state end)
              [7] r.1 r.2 7
              (Deque 3 [(0, 0, 1); (1, 3, 1); (2, 6, 1)]%Q))
    as (x & y & z & Hlast & Hkf & Hpos).
  - vm_compute. reflexivity.
  - vm_compute. reflexivity.
  - vm_compute. left.
  - vm_compute. reflexivity.
  - vm_compute. reflexivity.
  - vm_compute. lia.
  - vm_compute in Hlast. injection Hlast as <- <- <-.
    split; [etrans; [exact Hkf|vm_compute; reflexivity]|].
    split; [vm_compute; reflexivity|].
    exact Hpos.
Defined.

(** t = 4 s: the missing track keeps what it had. *)
Lemma undetected_track_is_left_alone_witness :
  let st := state_after until3 in
  let r := result_of (empty_batch 4) st in
  track_vel_hist_dict r.1 !! 7 = track_vel_hist_dict st !! 7
  ∧ track_input_queue_dict r.1 !! 7 = track_input_queue_dict st !! 7
  ∧ track_color_dict r.1 !! 7 = track_color_dict st !! 7
  ∧ track_id_kf_model_dict r.1 !! 7 = track_id_kf_model_dict st !! 7
  ∧ track_predict_fps r.1 !! 7 = track_predict_fps st !! 7
  ∧ track_prev_predict_timestamp r.1 !! 7
    = track_prev_predict_timestamp st !! 7.
Proof.
  intros st r.
  destruct (@undetected_track_is_left_alone Filterpy.lib cfg (empty_batch 4)
              st r.1 r.2 7) as [Hv Hkeep].
  - vm_compute. reflexivity.
  - vm_compute. intros Hin. inversion Hin.
  - split; [exact Hv|]. apply Hkeep. vm_compute. reflexivity.
Defined.

Lemma message_without_tracks_is_processed_witness :
  ∃ st' out,
    cb (empty_batch 9) (state_after until6) = Ok (st', out)
    ∧ alive_track_id_list out = [].
Proof.
  apply (@message_without_tracks_is_processed Filterpy.lib cfg)
    with (msgs := until6).
  - vm_compute. lia.
  - vm_compute. lia.
  - vm_compute. reflexivity.
  - reflexivity.
Defined.

(** t = 4 s: the dead-reckoned track 7 is drawn with two markers. *)
Lemma vis_result_completes_witness :
  let st := state_after until3 in
  let r := result_of (empty_batch 4) st in
  ∃ markers,
    @vis_result axis_vis r.1 (empty_batch 4) (alive_track_id_list r.2)
      (track_pos_dict r.2) (track_vel_dict r.2) = Ok markers
    ∧ length markers = (2 * size (track_pos_dict r.2))%nat.
Proof.
  intros st r.
  apply (@vis_result_completes Filterpy.lib axis_vis cfg until3 st).
  - vm_compute. reflexivity.
  - vm_compute. reflexivity.
Defined.

Lemma dead_reckoned_tracks_are_drawn_faded_witness :
  let st := state_after until3 in
  let r := result_of (empty_batch 4) st in
  let m := sphere_marker (empty_batch 4) [] 7 (2, 0)%Q (1, 0, 0)%Q in
  m ∈ markers_of r.1 (empty_batch 4) r.2
  ∧ marker_alpha m = (1 # 2)%Q.
Proof.
  intros st r m.
  assert (Hin : m ∈ markers_of r.1 (empty_batch 4) r.2)
    by (vm_compute; left).
  split; [exact Hin|].
  destruct (@dead_reckoned_tracks_are_drawn_faded Filterpy.lib axis_vis cfg
              (empty_batch 4) st r.1 r.2
              (markers_of r.1 (empty_batch 4) r.2) m)
    as (_ & _ & Hfaded).
  - vm_compute. reflexivity.
  - vm_compute. reflexivity.
  - exact Hin.
  - apply Hfaded. vm_compute. intros Hin'. inversion Hin'.
Defined.

Lemma published_iff_filter_and_recent_witness :
  let st := state_after until3 in
  let r := result_of (empty_batch 4) st in
  is_Some (track_pos_dict r.2 !! 7).
Proof.
  intros st r.
  apply (@published_iff_filter_and_recent Filterpy.lib cfg until3 st
           (empty_batch 4) r.1 r.2 7).
  - vm_compute. reflexivity.
  - vm_compute. reflexivity.
  - split.
    + vm_compute. eexists. reflexivity.
    + right. vm_compute. reflexivity.
Defined.

(** Track 7 was seen at 5 s and 6 s; the message is stamped 1 s and its box
    7 s: the box is not stale, and the rate stored is 2 / (1 - 5). *)
Lemma rate_sign_follows_message_stamp_witness :
  ∃ st' r,
    ingest_box cfg early_stamp late_box
      (state_after [seen 5 0; seen 6 1], []) = Ok (st', [7])
    ∧ track_predict_fps st' !! 7 = Some r
    ∧ (r < 0)%Q.
Proof.
  destruct (rate_sign_follows_message_stamp cfg early_stamp late_box
              (state_after [seen 5 0; seen 6 1]) []
              (Deque 4 [sec 5; sec 6]) (sec 6) (sec 5))
    as (st' & r & Hok & Hr & _ & Hneg).
  - reflexivity.
  - vm_compute. reflexivity.
  - reflexivity.
  - reflexivity.
  - vm_compute. discriminate.
  - vm_compute. discriminate.
  - exists st', r. split; [exact Hok|]. split; [exact Hr|].
    apply Hneg. vm_compute. reflexivity.
Defined.
